(** * Verification of the numerical core of the HST ultraviolet spectra library

    The development embeds the functions of [tools.py] and the spectrum
    classes of [hst_observation.py] (both the [sunburn] package and the older
    [blastoise] copy) and proves properties of them.

    Floating-point arrays are idealised as lists of real numbers: every
    arithmetic operation is the exact one, [x ** 0.5] is [sqrt], and the
    comparisons are the exact comparisons.  Where numpy answers a division
    by zero with [nan] or an infinity the real numbers have [x / 0 = 0]; the
    statements keep clear of such divisions by their hypotheses, and the
    binned statistics, where empty bins are ordinary, carry [None] for
    [nan].  Python exceptions are values of an error monad. *)

From Stdlib Require Import Ascii String DecimalString.
From Stdlib Require Import Reals Lra Lia ZArith Bool Arith List.
Import ListNotations.
Open Scope R_scope.

(** ** Exceptions and the error monad *)

Inductive exn : Type :=
| ValueError
| IndexError
| TypeError
| AttributeError
| ZeroDivisionError
| IOError
| NotImplementedError.

Inductive result (A : Type) : Type :=
| Ok (a : A)
| Raise (e : exn).

Arguments Ok {A} a.
Arguments Raise {A} e.

Definition bind {A B : Type} (m : result A) (k : A -> result B) : result B :=
  match m with
  | Ok a => k a
  | Raise e => Raise e
  end.

Notation "x <- m ;; k" := (bind m (fun x => k))
  (at level 61, m at next level, right associativity).

(** ** numpy primitives

    These are library routines, not code of the repository; they are
    modelled after numpy's implementation and documentation. *)

Module Np.

(** Exact comparison [x < y] as a boolean. *)
Definition ltb (x y : R) : bool := if Rlt_dec x y then true else false.

(** Python coerces [True] to 1 and [False] to 0 in integer arithmetic. *)
Definition int_of_bool (b : bool) : Z := if b then 1%Z else 0%Z.

(** [a[i]] on a one-dimensional array: a negative [i] counts from the end,
    an index out of range raises [IndexError]. *)
Definition getitem {A : Type} (a : list A) (i : Z) : result A :=
  let n := Z.of_nat (length a) in
  let j := if (i <? 0)%Z then (i + n)%Z else i in
  if ((0 <=? j) && (j <? n))%Z
  then match nth_error a (Z.to_nat j) with
       | Some x => Ok x
       | None => Raise IndexError
       end
  else Raise IndexError.

(** [np.clip(a, a_min, a_max)] is [minimum(a_max, maximum(a, a_min))]. *)
Definition clip (a a_min a_max : Z) : Z := Z.min a_max (Z.max a a_min).

(** The binary search of [ndarray.searchsorted] with [side='left']:
    [min_idx] and [max_idx] close in on the insertion point.  The interval
    at least halves at each turn, so [length a] turns are enough. *)
Fixpoint binsearch_left (fuel : nat) (a : list R) (key : R)
    (min_idx max_idx : nat) : nat :=
  match fuel with
  | O => min_idx
  | S fuel' =>
      if (min_idx <? max_idx)%nat then
        let mid_idx := (min_idx + (max_idx - min_idx) / 2)%nat in
        if ltb (nth mid_idx a 0) key
        then binsearch_left fuel' a key (S mid_idx) max_idx
        else binsearch_left fuel' a key min_idx mid_idx
      else min_idx
  end.

Definition searchsorted (a : list R) (v : R) : nat :=
  binsearch_left (length a) a v 0 (length a).

(** [np.min] and [np.max] raise [ValueError] on an empty array. *)
Definition min (a : list R) : result R :=
  match a with
  | [] => Raise ValueError
  | x :: t => Ok (fold_left Rmin t x)
  end.

Definition max (a : list R) : result R :=
  match a with
  | [] => Raise ValueError
  | x :: t => Ok (fold_left Rmax t x)
  end.

(** A basic slice [a[start:stop]] with non-negative bounds. *)
Definition slice {A : Type} (a : list A) (start stop : nat) : list A :=
  firstn (stop - start) (skipn start a).

(** A basic slice [a[start:stop]] with integer bounds: a negative bound
    counts from the end, and bounds are clamped to the array. *)
Definition slice_Z {A : Type} (a : list A) (start stop : Z) : list A :=
  let n := Z.of_nat (length a) in
  let norm i := Z.to_nat (Z.min n (Z.max 0 (if (i <? 0)%Z then i + n else i))) in
  slice a (norm start) (norm stop).

(** [np.sum] and [np.mean] of a one-dimensional array. *)
Definition sum (a : list R) : R := fold_right Rplus 0 a.

Definition mean (a : list R) : R := sum a / INR (length a).

(** Element-wise binary operation on two one-dimensional arrays: the
    lengths must agree, unless one of the arrays has a single element, which
    is then broadcast. *)
Definition ufunc2 (f : R -> R -> R) (a b : list R) : result (list R) :=
  if (length a =? length b)%nat
  then Ok (map (fun p => f (fst p) (snd p)) (combine a b))
  else if (length a =? 1)%nat then Ok (map (f (hd 0 a)) b)
  else if (length b =? 1)%nat then Ok (map (fun x => f x (hd 0 b)) a)
  else Raise ValueError.






(** Reduction of a two-dimensional array along [axis=0]: [g] is applied to
    each column.  The width is that of the first row. *)
Definition axis0 (g : list R -> R) (rows : list (list R)) : list R :=
  match rows with
  | [] => []
  | r :: _ => map (fun j => g (map (fun row => nth j row 0) rows))
                  (seq 0 (length r))
  end.

(** The two-row arrays [np.array([side0, side1])] of a spectrum, one row per
    side of the detector.  When the rows have the same length numpy builds a
    two-dimensional float array, otherwise an array of two row objects; in
    both layouts arithmetic between two such arrays of one spectrum acts row
    by row. *)
Definition rows : Type := (list R * list R)%type.

Definition is_2d (a : rows) : bool := (length (fst a) =? length (snd a))%nat.

Definition row (a : rows) (ind : nat) : result (list R) :=
  match ind with
  | 0%nat => Ok (fst a)
  | 1%nat => Ok (snd a)
  | _ => Raise IndexError
  end.

Definition rows_map (f : R -> R) (a : rows) : rows :=
  (map f (fst a), map f (snd a)).

Definition rows_ufunc2 (f : R -> R -> R) (a b : rows) : result rows :=
  r0 <- ufunc2 f (fst a) (fst b) ;;
  r1 <- ufunc2 f (snd a) (snd b) ;;
  Ok (r0, r1).

(** [a / v] for a two-row array and a vector [v] of two numbers: in the
    two-dimensional layout [v] is broadcast along each row; in the other
    layout row [k] is divided by [v[k]]. *)
Definition rows_div_vector (a : rows) (v : R * R) : result rows :=
  if is_2d a then
    r0 <- ufunc2 Rdiv (fst a) [fst v; snd v] ;;
    r1 <- ufunc2 Rdiv (snd a) [fst v; snd v] ;;
    Ok (r0, r1)
  else Ok (map (fun x => x / fst v) (fst a), map (fun x => x / snd v) (snd a)).

(** [a[k] = r]: in the two-dimensional layout the new row is copied into the
    old one and must fit it; in the other layout it replaces the old row.
    The layout is that of the array when it was built. *)
Definition set_row (two_d : bool) (a : rows) (k : nat) (r : list R)
    : result rows :=
  let old := match k with 0%nat => fst a | _ => snd a end in
  new <- (if two_d then
            if (length r =? length old)%nat then Ok r
            else if (length r =? 1)%nat then Ok (map (fun _ => hd 0 r) old)
            else Raise ValueError
          else Ok r) ;;
  match k with
  | 0%nat => Ok (new, snd a)
  | 1%nat => Ok (fst a, new)
  | _ => Raise IndexError
  end.

(** Sum along [axis=0] of a stack of rows, adding row to row. *)
Fixpoint sum_rows_from (acc : list R) (l : list (list R)) : result (list R) :=
  match l with
  | [] => Ok acc
  | r :: t => acc' <- ufunc2 Rplus acc r ;; sum_rows_from acc' t
  end.

Definition sum_rows (l : list (list R)) : result (list R) :=
  match l with
  | [] => Raise ValueError
  | r :: t => sum_rows_from r t
  end.

(** [np.poly1d(coeff)(x)]: Horner evaluation, highest degree first. *)
Definition polyval (coeff : list R) (x : R) : R :=
  fold_left (fun y c => y * x + c) coeff 0.

(** Reduction along [axis=0] of an array of shape [(len(rows), width)]. *)
Definition axis0_width (g : list R -> R) (width : nat) (rows : list (list R))
    : list R :=
  map (fun j => g (map (fun row => nth j row 0) rows)) (seq 0 width).

(** [np.reshape(a, (n_rows, n_cols))] of a flat array of that size. *)
Definition reshape (a : list R) (n_rows n_cols : nat) : list (list R) :=
  map (fun i => slice a (i * n_cols) (i * n_cols + n_cols)) (seq 0 n_rows).

(** [acc += a] on two-row arrays of one layout.  In the two-dimensional
    layout the sum is written into [acc], so [a] may be broadcast to [acc]
    but not the reverse; in the other layout each row is replaced by the
    sum of the two rows. *)
Definition iadd_row (acc a : list R) : result (list R) :=
  if (length a =? length acc)%nat
  then Ok (map (fun p => fst p + snd p) (combine acc a))
  else if (length a =? 1)%nat then Ok (map (fun x => x + hd 0 a) acc)
  else Raise ValueError.

Definition rows_iadd (acc a : rows) : result rows :=
  if is_2d acc then
    r0 <- iadd_row (fst acc) (fst a) ;;
    r1 <- iadd_row (snd acc) (snd a) ;;
    Ok (r0, r1)
  else rows_ufunc2 Rplus acc a.




End Np.

(** ** scipy and astropy routines

    Library routines again, modelled after their implementation and
    documentation.  The numerical values that do not matter here (the value
    of Simpson's rule, the polynomial fit, the Poisson confidence interval,
    the bootstrap draw) are parameters of the functions that call them; the
    checks of their arguments are written out. *)

Module Scipy.

(** Insertion of a knot in front of a list of knots sorted by abscissa: it
    stays ahead of the knots with the same abscissa, which keeps the sort
    stable. *)
Fixpoint insert_knot (p : R * R) (l : list (R * R)) : list (R * R) :=
  match l with
  | [] => [p]
  | q :: t => if Np.ltb (fst q) (fst p) then q :: insert_knot p t
              else p :: q :: t
  end.

(** [interp1d] sorts the knots by abscissa with a stable sort
    ([assume_sorted=False]). *)
Definition sort_knots (l : list (R * R)) : list (R * R) :=
  fold_right insert_knot [] l.

(** The interpolant built by
    [interp1d(x, y, kind='linear', bounds_error=False, fill_value=fill)]. *)
Record interp1d : Type := {
  interp_x : list R;
  interp_y : list R;
  interp_fill : R
}.

Definition interp1d_new (x y : list R) (fill_value : R) : result interp1d :=
  if negb (length x =? length y)%nat then Raise ValueError
  else if (length x <? 2)%nat then Raise ValueError
  else let knots := sort_knots (combine x y) in
       Ok {| interp_x := map fst knots;
             interp_y := map snd knots;
             interp_fill := fill_value |}.

(** Evaluation at one point: outside the knots the fill value; inside, the
    chord through the two knots around the point, found as in
    [nearest_index] by a search and a clip. *)
Definition interp1d_call (f : interp1d) (x_new : R) : result R :=
  let x := interp_x f in
  let y := interp_y f in
  x_first <- Np.getitem x 0 ;;
  x_last <- Np.getitem x (-1) ;;
  if Np.ltb x_new x_first || Np.ltb x_last x_new then Ok (interp_fill f)
  else
    let hi := Np.clip (Z.of_nat (Np.searchsorted x x_new)) 1
                      (Z.of_nat (length x) - 1) in
    let lo := (hi - 1)%Z in
    x_lo <- Np.getitem x lo ;;
    x_hi <- Np.getitem x hi ;;
    y_lo <- Np.getitem y lo ;;
    y_hi <- Np.getitem y hi ;;
    let slope := (y_hi - y_lo) / (x_hi - x_lo) in
    Ok (slope * (x_new - x_lo) + y_lo).

(** Evaluation on an array of points. *)
Fixpoint interp1d_eval (f : interp1d) (x_new : list R) : result (list R) :=
  match x_new with
  | [] => Ok []
  | v :: t =>
      y <- interp1d_call f v ;;
      ys <- interp1d_eval f t ;;
      Ok (y :: ys)
  end.








(** [simps(y, x=x)]: the value of Simpson's rule on one sample or more is
    the parameter [rule].  Arrays of different lengths are rejected, and on
    empty arrays the read of the last abscissa raises [IndexError]. *)
Definition simps (rule : list R -> list R -> R) (y x : list R) : result R :=
  if negb (length x =? length y)%nat then Raise ValueError
  else if (length y =? 0)%nat then Raise IndexError
  else Ok (rule y x).

(** Evaluation with [fill_value='extrapolate']: the chord of the first or of
    the last two knots is prolonged, no bound is checked. *)
Definition linear_call (f : interp1d) (x_new : R) : result R :=
  let x := interp_x f in
  let y := interp_y f in
  let hi := Np.clip (Z.of_nat (Np.searchsorted x x_new)) 1
                    (Z.of_nat (length x) - 1) in
  let lo := (hi - 1)%Z in
  x_lo <- Np.getitem x lo ;;
  x_hi <- Np.getitem x hi ;;
  y_lo <- Np.getitem y lo ;;
  y_hi <- Np.getitem y hi ;;
  let slope := (y_hi - y_lo) / (x_hi - x_lo) in
  Ok (slope * (x_new - x_lo) + y_lo).

Fixpoint linear_eval (f : interp1d) (x_new : list R) : result (list R) :=
  match x_new with
  | [] => Ok []
  | v :: t =>
      y <- linear_call f v ;;
      ys <- linear_eval f t ;;
      Ok (y :: ys)
  end.

End Scipy.

(** ** [tools.py] *)

Module Tools.

(** [nearest_index(array, target_value)] *)
Definition nearest_index (array : list R) (target_value : R) : result Z :=
  let index := Z.of_nat (Np.searchsorted array target_value) in
  let index := Np.clip index 1 (Z.of_nat (length array) - 1) in
  left <- Np.getitem array (index - 1) ;;
  right <- Np.getitem array index ;;
  Ok (index - Np.int_of_bool (Np.ltb (target_value - left) (right - target_value)))%Z.

(** [pick_side(wavelength_array, wavelength_range)]: [wavelength_array] holds
    the wavelengths of the two sides of the detector.  Python's [and]
    evaluates its right operand only when the left one holds. *)
Definition pick_side (wavelength_array : list R * list R)
    (wavelength_range : R * R) : result nat :=
  let '(range0, range1) := wavelength_range in
  cond0 <- (lo <- Np.min (fst wavelength_array) ;;
            if Np.ltb lo range0
            then hi <- Np.max (fst wavelength_array) ;; Ok (Np.ltb range1 hi)
            else Ok false) ;;
  if cond0 then Ok 0%nat
  else
    cond1 <- (lo <- Np.min (snd wavelength_array) ;;
              if Np.ltb lo range0
              then hi <- Np.max (snd wavelength_array) ;; Ok (Np.ltb range1 hi)
              else Ok false) ;;
    if cond1 then Ok 1%nat
    else Raise ValueError.

(** The speed of light in km/s, [c.c.to(u.km / u.s).value]. *)
Definition light_speed : R := 299792.458.

(** Loop [for x in l] whose body may raise. *)
Fixpoint for_each {A B : Type} (body : A -> result B) (l : list A)
    : result (list B) :=
  match l with
  | [] => Ok []
  | x :: t =>
      y <- body x ;;
      ys <- for_each body t ;;
      Ok (y :: ys)
  end.


(** [combine_spectra(wavelength_list, flux_list, uncertainty_list,
    ref_wavelength=None, wavelength_grid=None)].  The result is
    [(wavelength, flux, f_unc)], with the velocity in addition when a
    reference wavelength is given. *)
Definition combine_spectra
    (wavelength_list flux_list uncertainty_list : list (list R))
    (ref_wavelength : option R) (wavelength_grid : option (list R))
    : result (list R * option (list R) * list R * list R) :=
  let n_spectra := length wavelength_list in
  wavelength <- match wavelength_grid with
                | None => Np.getitem wavelength_list 0
                | Some grid => Ok grid
                end ;;
  resampled <- for_each
    (fun i =>
       w_i <- Np.getitem wavelength_list (Z.of_nat i) ;;
       f_i <- Np.getitem flux_list (Z.of_nat i) ;;
       ff <- Scipy.interp1d_new w_i f_i 1e-18 ;;
       u_i <- Np.getitem uncertainty_list (Z.of_nat i) ;;
       fu <- Scipy.interp1d_new w_i u_i 1e-18 ;;
       fi <- Scipy.interp1d_eval ff wavelength ;;
       ui <- Scipy.interp1d_eval fu wavelength ;;
       Ok (fi, ui))
    (seq 0 n_spectra) ;;
  let flux := Np.axis0 Np.mean (map fst resampled) in
  let f_unc := map (fun s => sqrt s / INR n_spectra)
                   (Np.axis0 Np.sum (map (fun r => map (fun x => x ^ 2) (snd r)) resampled)) in
  match ref_wavelength with
  | Some ref =>
      let velocity := map (fun w => (w - ref) / ref * light_speed) wavelength in
      Ok (wavelength, Some velocity, flux, f_unc)
  | None => Ok (wavelength, None, flux, f_unc)
  end.

(** [make_bins(array)] *)
Definition make_bins (array : list R) : result (list R) :=
  sums <- Np.ufunc2 Rplus (Np.slice_Z array 0 (-1))
                          (Np.slice_Z array 1 (Z.of_nat (length array))) ;;
  let bin_array := map (fun x => x / 2) sums in
  b1 <- Np.getitem bin_array 1 ;;
  b0 <- Np.getitem bin_array 0 ;;
  let spacing := b1 - b0 in
  let bin_array := map (fun x => x - spacing) bin_array in
  last <- Np.getitem bin_array (-1) ;;
  let bin_array := bin_array ++ [last + spacing] in
  last <- Np.getitem bin_array (-1) ;;
  let bin_array := bin_array ++ [last + spacing] in
  Ok bin_array.

(** [gaussian(x, center, width, amplitude=None)] at one abscissa, for a
    width other than zero: at zero Python floats raise
    [ZeroDivisionError] and numpy floats give [inf] or [nan]. *)
Definition gaussian (x center width : R) (amplitude : option R) : R :=
  match amplitude with
  | Some amplitude => amplitude * exp (- (x - center) ^ 2 / (2 * width ^ 2))
  | None =>
      let term_1 := 1 / width / sqrt (2 * PI) in
      let term_2 := exp (- 0.5 * ((x - center) / width) ^ 2) in
      term_1 * term_2
  end.

(** [doppler_shift(velocity, ref_wl, wavelength, flux, uncertainty,
    interp_type='linear', fill_value='extrapolate')] for a velocity in km/s
    and the linear interpolation; [None] stands for ['extrapolate']. *)
Definition doppler_shift (velocity ref_wl : R)
    (wavelength flux uncertainty : list R) (fill_value : option R)
    : result (list R * list R) :=
  let l_speed := light_speed in
  let dv := velocity in
  let shift := dv / l_speed * ref_wl in
  let old_wavelength := wavelength in
  let old_flux := flux in
  let old_error := uncertainty in
  let new_wv := map (fun w => w + shift) wavelength in
  match fill_value with
  | Some c =>
      func0 <- Scipy.interp1d_new new_wv old_flux c ;;
      func1 <- Scipy.interp1d_new new_wv old_error c ;;
      new_flux <- Scipy.interp1d_eval func0 old_wavelength ;;
      new_uncertainty <- Scipy.interp1d_eval func1 old_wavelength ;;
      Ok (new_flux, new_uncertainty)
  | None =>
      func0 <- Scipy.interp1d_new new_wv old_flux 0 ;;
      func1 <- Scipy.interp1d_new new_wv old_error 0 ;;
      new_flux <- Scipy.linear_eval func0 old_wavelength ;;
      new_uncertainty <- Scipy.linear_eval func1 old_wavelength ;;
      Ok (new_flux, new_uncertainty)
  end.

End Tools.

(** ** [hst_observation.py] of the [sunburn] package *)

Module Sunburn.

(** *** The files read *)

(** The [SCI] table of an [_x1d.fits] file: one row per side, and the
    header of extension 3 of a [_corrtag_a.fits] file. *)
Record X1D : Type := {
  WAVELENGTH : Np.rows;
  FLUX : Np.rows;
  ERROR : Np.rows;
  GCOUNTS : Np.rows;
  BACKGROUND : Np.rows;
  NET : Np.rows;
  EXPTIME : R * R
}.

Record Corrtag : Type := {
  EXPSTRTJ : R;
  EXPENDJ : R
}.

(** The files at hand, by path, and the answer of [glob.glob] to a
    pattern. *)
Record Files : Type := {
  x1d_files : string -> option X1D;
  corrtag_files : string -> option Corrtag;
  glob : string -> list string
}.

(** Code that opens files: the paths opened are logged in order. *)
Definition io (A : Type) : Type := list string -> result A * list string.

Definition io_ret {A : Type} (a : A) : io A := fun log => (Ok a, log).

Definition io_lift {A : Type} (r : result A) : io A := fun log => (r, log).

Definition io_bind {A B : Type} (m : io A) (k : A -> io B) : io B :=
  fun log =>
    match m log with
    | (Ok a, log') => k a log'
    | (Raise e, log') => (Raise e, log')
    end.

Notation "x <~ m ;; k" := (io_bind m (fun x => k))
  (at level 61, m at next level, right associativity).

Definition open_x1d (fs : Files) (path : string) : io X1D :=
  fun log =>
    (match x1d_files fs path with Some d => Ok d | None => Raise IOError end,
     log ++ [path]).

Definition open_corrtag (fs : Files) (path : string) : io Corrtag :=
  fun log =>
    (match corrtag_files fs path with Some d => Ok d | None => Raise IOError end,
     log ++ [path]).

Fixpoint io_for_each {A B : Type} (body : A -> io B) (l : list A)
    : io (list B) :=
  match l with
  | [] => io_ret []
  | x :: t =>
      y <~ body x ;;
      ys <~ io_for_each body t ;;
      io_ret (y :: ys)
  end.

(** *** [UVSpectrum] *)

Definition limits : Type := ((Z * Z) * (Z * Z))%type.

(** Times are Julian Dates, in days.  The [units] attribute is left out. *)
Record UVSpectrum : Type := {
  dataset_name : string;
  prefix : string;
  gpl : limits;
  wavelength : Np.rows;
  flux : Np.rows;
  error : Np.rows;
  gross_counts : Np.rows;
  background : Np.rows;
  net : Np.rows;
  exp_time : R;
  start_JD : R;
  end_JD : R
}.

Definition UVSpectrum_init (fs : Files) (dataset_name : string)
    (good_pixel_limits : option limits) (prefix : option string)
    : io UVSpectrum :=
  let x1d := (dataset_name ++ "_x1d.fits")%string in
  let corrtag_a := (dataset_name ++ "_corrtag_a.fits")%string in
  let prefix := match prefix with None => ""%string | Some p => p end in
  data <~ open_x1d fs (prefix ++ x1d)%string ;;
  tag <~ open_corrtag fs (prefix ++ corrtag_a)%string ;;
  let gpl := match good_pixel_limits with
             | None => ((0, -1), (0, -1))%Z
             | Some g => g
             end in
  let i00 := fst (fst gpl) in
  let i01 := snd (fst gpl) in
  let i10 := fst (snd gpl) in
  let i11 := snd (snd gpl) in
  let cut (column : Np.rows) : Np.rows :=
    (Np.slice_Z (fst column) i00 i01, Np.slice_Z (snd column) i10 i11) in
  io_ret {| dataset_name := dataset_name;
            prefix := prefix;
            gpl := gpl;
            wavelength := cut (WAVELENGTH data);
            flux := cut (FLUX data);
            error := cut (ERROR data);
            gross_counts := cut (GCOUNTS data);
            background := cut (BACKGROUND data);
            net := cut (NET data);
            exp_time := fst (EXPTIME data);
            start_JD := EXPSTRTJ tag;
            end_JD := EXPENDJ tag |}.

(** The slices [wavelength[ind][min_wl:max_wl]], [flux[ind][min_wl:max_wl]],
    [error[ind][min_wl:max_wl]] and [delta_wl[min_wl:max_wl]] that
    [integrated_flux] and the plotting methods take for a range. *)
Record window : Type := {
  window_wavelength : list R;
  window_flux : list R;
  window_error : list R;
  window_delta_wl : list R
}.

Definition extract_window (self : UVSpectrum) (wavelength_range : R * R)
    : result window :=
  ind <- Tools.pick_side (wavelength self) wavelength_range ;;
  w <- Np.row (wavelength self) ind ;;
  min_wl <- Tools.nearest_index w (fst wavelength_range) ;;
  max_wl <- Tools.nearest_index w (snd wavelength_range) ;;
  delta_wl <- Np.ufunc2 Rminus (Np.slice_Z w 1 (Z.of_nat (length w)))
                               (Np.slice_Z w 0 (-1)) ;;
  f <- Np.row (flux self) ind ;;
  e <- Np.row (error self) ind ;;
  Ok {| window_wavelength := Np.slice_Z w min_wl max_wl;
        window_flux := Np.slice_Z f min_wl max_wl;
        window_error := Np.slice_Z e min_wl max_wl;
        window_delta_wl := Np.slice_Z delta_wl min_wl max_wl |}.

(** [UVSpectrum.integrated_flux].  The value of Simpson's rule and the
    standard deviation of the bootstrap draw are parameters.  Ranges are
    tuples: without a wavelength range the statement
    [velocity_range += rv_correction] adds a float to a tuple, or to
    [None], which is a [TypeError] (the [assert] before it tests a tuple
    that is not empty and never fails).  The bootstrap draws from normal
    laws whose scales are the errors, and a negative scale is rejected. *)
Definition integrated_flux
    (simps : list R -> list R -> R)
    (bootstrap : list R -> list R -> list R -> R)
    (self : UVSpectrum)
    (wavelength_range : option (R * R)) (velocity_range : option (R * R))
    (reference_wl : option R) (rv_correction : R)
    (uncertainty_method : string) : result (R * R) :=
  wavelength_range <-
    match wavelength_range with
    | Some r => Ok r
    | None => Raise TypeError
    end ;;
  win <- extract_window self wavelength_range ;;
  int_flux <- Scipy.simps simps (window_flux win) (window_wavelength win) ;;
  if String.eqb uncertainty_method "quadratic_sum" then
    prod <- Np.ufunc2 Rmult (window_delta_wl win) (window_error win) ;;
    Ok (int_flux, sqrt (Np.sum (map (fun x => x ^ 2) prod)))
  else if String.eqb uncertainty_method "bootstrap" then
    if existsb (fun scale => Np.ltb scale 0) (window_error win)
    then Raise ValueError
    else Ok (int_flux,
             bootstrap (window_flux win) (window_error win)
               (window_wavelength win))
  else Raise ValueError.

(** [UVSpectrum.extract_wl] *)
Definition extract_wl (self : UVSpectrum) (wavelength_range : R * R)
    : result (list R) :=
  ind <- Tools.pick_side (wavelength self) wavelength_range ;;
  w <- Np.row (wavelength self) ind ;;
  min_wl <- Tools.nearest_index w (fst wavelength_range) ;;
  max_wl <- Tools.nearest_index w (snd wavelength_range) ;;
  let wl_array := Np.slice_Z w min_wl (max_wl + 1) in
  Ok wl_array.

(** *** [COSSpectrum] *)

(** The dictionary [_systematics] once [verify_systematic] has filled it. *)
Record Systematics : Type := {
  sys_time : list R;
  sys_flux : list R;
  sys_f_unc : list R
}.

(** A [COSSpectrum] is a [UVSpectrum] with more attributes; [split] holds
    the time-tag splits, themselves [COSSpectrum] objects.  The attribute
    [ccf] is left out. *)
#[warnings="-register-all"] Inductive COSSpectrum : Type := Build_COSSpectrum {
  uv : UVSpectrum;
  sensitivity : option Np.rows;
  split : option (list COSSpectrum);
  _systematics : option Systematics
}.

Definition default_good_pixel_limits : limits :=
  ((1260, 15170), (1025, 15020))%Z.

(** [COSSpectrum.__init__]; a caller that leaves [good_pixel_limits] out
    passes [Some default_good_pixel_limits]. *)
Definition COSSpectrum_init (fs : Files) (dataset_name : string)
    (good_pixel_limits : option limits) (prefix : option string)
    : io COSSpectrum :=
  base <~ UVSpectrum_init fs dataset_name good_pixel_limits prefix ;;
  io_ret {| uv := base; sensitivity := None; split := None;
            _systematics := None |}.

Definition set_flux (s : UVSpectrum) (v : Np.rows) : UVSpectrum :=
  {| dataset_name := dataset_name s; prefix := prefix s; gpl := gpl s;
     wavelength := wavelength s; flux := v; error := error s;
     gross_counts := gross_counts s; background := background s;
     net := net s; exp_time := exp_time s;
     start_JD := start_JD s; end_JD := end_JD s |}.

Definition set_error (s : UVSpectrum) (v : Np.rows) : UVSpectrum :=
  {| dataset_name := dataset_name s; prefix := prefix s; gpl := gpl s;
     wavelength := wavelength s; flux := flux s; error := v;
     gross_counts := gross_counts s; background := background s;
     net := net s; exp_time := exp_time s;
     start_JD := start_JD s; end_JD := end_JD s |}.

Definition set_JD (s : UVSpectrum) (start_jd end_jd : R) : UVSpectrum :=
  {| dataset_name := dataset_name s; prefix := prefix s; gpl := gpl s;
     wavelength := wavelength s; flux := flux s; error := error s;
     gross_counts := gross_counts s; background := background s;
     net := net s; exp_time := exp_time s;
     start_JD := start_jd; end_JD := end_jd |}.

(** [COSSpectrum.compute_proper_error(shift_net=1E-7)]; [None] stands for
    an omitted argument. *)
Definition default_shift_net : R := 1e-7.

Definition compute_proper_error (self : COSSpectrum) (shift_net : option R)
    : result COSSpectrum :=
  let shift_net := match shift_net with
                   | Some v => v
                   | None => default_shift_net
                   end in
  let s := uv self in
  ratio <- Np.rows_ufunc2 Rdiv (flux s)
             (Np.rows_map (fun x => x + shift_net) (net s)) ;;
  let sensitivity := Np.rows_map (fun x => x / exp_time s) ratio in
  error <- Np.rows_ufunc2 Rmult
             (Np.rows_map (fun g => sqrt (g + 1)) (gross_counts s))
             sensitivity ;;
  Ok {| uv := set_error s error;
        sensitivity := Some sensitivity;
        split := split self;
        _systematics := _systematics self |}.

(** Seconds to days, [(t * u.s).to(u.d)]. *)
Definition seconds_to_days (t : R) : R := t / 86400.

(** The two statements that set the times of split [i]. *)
Definition stamp_split (time_step : R) (n_splits i : nat)
    (split_obs : COSSpectrum) : COSSpectrum :=
  let s := uv split_obs in
  {| uv := set_JD s (start_JD s + INR i * time_step)
                    (end_JD s - time_step * INR (n_splits - i - 1));
     sensitivity := sensitivity split_obs;
     split := split split_obs;
     _systematics := _systematics split_obs |}.

Definition string_of_nat (n : nat) : string :=
  NilZero.string_of_uint (Nat.to_uint n).

(** [if path[-1] != '/': path = path + '/'], which raises on an empty
    string. *)
Definition with_slash (path : string) : result string :=
  match String.get (String.length path - 1) path with
  | Some "/"%char => Ok path
  | Some _ => Ok (path ++ "/")%string
  | None => Raise IndexError
  end.

(** [COSSpectrum.time_tag_split] called with a number of splits and
    [auto_extract=True].  The calls to [splittag], [x1dcorr] and
    [concatenateSegments] and the renaming of their files are outside the
    model: [fs] holds the files as they are once these have run.  What
    remains is the check of the directory name ([os.mkdir] fails on an
    empty name) and the final loop, which loads each split and sets its
    times. *)
Definition time_tag_split (fs : Files) (self : COSSpectrum) (n_splits : nat)
    (out_dir : string) : io COSSpectrum :=
  out_dir <~ io_lift (if String.eqb out_dir "" then Raise IOError
                      else with_slash out_dir) ;;
  let out_dir := (prefix (uv self) ++ out_dir)%string in
  let time_step := seconds_to_days (exp_time (uv self) / INR n_splits) in
  splits <~ io_for_each
    (fun i =>
       let dataset_name :=
         (dataset_name (uv self) ++ "_" ++ string_of_nat (i + 1))%string in
       split_obs <~ COSSpectrum_init fs dataset_name
                      (Some default_good_pixel_limits) (Some out_dir) ;;
       io_ret (stamp_split time_step n_splits i split_obs))
    (seq 0 n_splits) ;;
  io_ret {| uv := uv self; sensitivity := sensitivity self;
            split := Some splits; _systematics := _systematics self |}.

(** [COSSpectrum.assign_splits(path)] *)
Definition assign_splits (fs : Files) (self : COSSpectrum) (path : string)
    : io COSSpectrum :=
  path <~ io_lift (with_slash path) ;;
  let split_list :=
    glob fs (path ++ dataset_name (uv self) ++ "_?_x1d.fits")%string in
  let n_splits := length split_list in
  let time_step := seconds_to_days (exp_time (uv self) / INR n_splits) in
  splits <~ io_for_each
    (fun i =>
       let offset := String.length path in
       item <~ io_lift (Np.getitem split_list (Z.of_nat i)) ;;
       let dataset_name := String.substring offset 11 item in
       split_obs <~ COSSpectrum_init fs dataset_name
                      (Some default_good_pixel_limits) (Some path) ;;
       io_ret (stamp_split time_step n_splits i split_obs))
    (seq 0 n_splits) ;;
  io_ret {| uv := uv self; sensitivity := sensitivity self;
            split := Some splits; _systematics := _systematics self |}.

(** A spectral line of a line list.  The class is defined in
    [spectroscopy.py], which is not among the sources at hand; only the two
    attributes read here are kept. *)
Record Line : Type := {
  central_wavelength : R;
  wavelength_range : R * R
}.

Definition set_systematics (self : COSSpectrum) (v : option Systematics)
    : COSSpectrum :=
  {| uv := uv self; sensitivity := sensitivity self; split := split self;
     _systematics := v |}.

Definition set_cos_flux (self : COSSpectrum) (v : Np.rows) : COSSpectrum :=
  {| uv := set_flux (uv self) v; sensitivity := sensitivity self;
     split := split self; _systematics := _systematics self |}.

Definition set_split (self : COSSpectrum) (v : option (list COSSpectrum))
    : COSSpectrum :=
  {| uv := uv self; sensitivity := sensitivity self; split := v;
     _systematics := _systematics self |}.

Section Systematics.

Variable simps : list R -> list R -> R.
Variable bootstrap : list R -> list R -> list R -> R.

(** [np.polyfit(x, y, deg)] returns the coefficients, highest degree
    first; it rejects an empty [x] and arrays of unequal lengths. *)
Variable polyfit : list R -> list R -> nat -> list R.

(** [COSSpectrum.verify_systematic(line_list, plot=False)], which returns
    the updated object and [norm].  The line list maps a species to its
    lines.  [integrated_flux] has no parameter [rv_range], so the calls made
    when [rv_range] is given raise [TypeError]. *)
Definition verify_systematic (self : COSSpectrum)
    (line_list : list (string * list Line)) (rv_range : option (R * R))
    : result (COSSpectrum * R) :=
  match split self with
  | None => Raise ValueError
  | Some splits =>
      measures <- Tools.for_each
        (fun species =>
           Tools.for_each
             (fun line =>
                match rv_range with
                | Some _ =>
                    Tools.for_each (fun _ : COSSpectrum => Raise TypeError) splits
                | None =>
                    let wl_range := wavelength_range line in
                    Tools.for_each
                      (fun sp => integrated_flux simps bootstrap (uv sp)
                                   (Some wl_range) None None 0 "quadratic_sum")
                      splits
                end)
             (snd species))
        line_list ;;
      let flux := map fst (concat (concat measures)) in
      let f_unc := map snd (concat (concat measures)) in
      let n_splits := length splits in
      let time := map (fun sp => (start_JD (uv sp) + end_JD (uv sp)) / 2) splits in
      if (n_splits =? 0)%nat then Raise ZeroDivisionError
      else
        let n_lines := (length flux / n_splits)%nat in
        let total_flux :=
          Np.axis0_width Np.sum n_splits (Np.reshape flux n_lines n_splits) in
        let total_unc :=
          map sqrt (Np.axis0_width Np.sum n_splits
                      (Np.reshape (map (fun x => x ^ 2) f_unc) n_lines n_splits)) in
        let norm := Np.mean total_flux in
        Ok (set_systematics self
              (Some {| sys_time := time; sys_flux := total_flux;
                       sys_f_unc := total_unc |}),
            norm)
  end.

(** [COSSpectrum.correct_systematic(line_list, baseline_level, poly_deg=1,
    temp_jd_shift=2.45E6, recompute_errors=False)] *)
Definition correct_systematic (self : COSSpectrum)
    (line_list : list (string * list Line)) (baseline_level : R)
    (poly_deg : nat) (temp_jd_shift : R) (recompute_errors : bool)
    : result COSSpectrum :=
  self <- match _systematics self with
          | None => r <- verify_systematic self line_list None ;; Ok (fst r)
          | Some _ => Ok self
          end ;;
  sys <- match _systematics self with
         | Some sys => Ok sys
         | None => Raise TypeError
         end ;;
  let time := sys_time sys in
  let total_flux := sys_flux sys in
  let norm := baseline_level in
  splits <- match split self with
            | Some l => Ok l
            | None => Raise TypeError
            end ;;
  let n_splits := length splits in
  let mod_jd := map (fun t => t - temp_jd_shift) time in
  if (length mod_jd =? 0)%nat || negb (length mod_jd =? length total_flux)%nat
  then Raise TypeError
  else
    let coeff := polyfit mod_jd (map (fun f => f / norm) total_flux) poly_deg in
    let corr_factor := map (Np.polyval coeff) mod_jd in
    splits <- Tools.for_each
      (fun i =>
         sp <- Np.getitem splits (Z.of_nat i) ;;
         c <- Np.getitem corr_factor (Z.of_nat i) ;;
         let sp := set_cos_flux sp (Np.rows_map (fun x => x / c) (flux (uv sp))) in
         if recompute_errors then compute_proper_error sp None else Ok sp)
      (seq 0 n_splits) ;;
    let self := set_split self (Some splits) in
    let two_d := Np.is_2d (flux (uv self)) in
    let parent_row (self : COSSpectrum) (k : nat) : result COSSpectrum :=
      sum_split_flux <- Tools.for_each (fun sp => Np.row (flux (uv sp)) k) splits ;;
      total <- Np.sum_rows sum_split_flux ;;
      let mean_flux := map (fun x => x / INR n_splits) total in
      new_flux <- Np.set_row two_d (flux (uv self)) k mean_flux ;;
      let self := set_cos_flux self new_flux in
      if recompute_errors then compute_proper_error self None else Ok self in
    self <- parent_row self 0%nat ;;
    parent_row self 1%nat.

End Systematics.

(** *** [Visit] *)

(** A Python dictionary, in insertion order. *)
Fixpoint dict_set {V : Type} (d : list (string * V)) (key : string) (v : V)
    : list (string * V) :=
  match d with
  | [] => [(key, v)]
  | (k, x) :: t =>
      if String.eqb k key then (k, v) :: t else (k, x) :: dict_set t key v
  end.

(** The attributes [split] and [coadd_*] start empty and are left out. *)
Record Visit : Type := {
  orbit : list (string * COSSpectrum);
  instrument : string;
  n_orbit : nat
}.

(** The loop of [Visit.__init__] over the dataset names. *)
Fixpoint Visit_init_loop (fs : Files) (names : list string)
    (instrument : string) (good_pixel_limits : option limits)
    (prefix : option string) (compute_error : bool)
    (orbit : list (string * COSSpectrum)) : io (list (string * COSSpectrum)) :=
  match names with
  | [] => io_ret orbit
  | name :: rest =>
      orbit <~ (if String.eqb instrument "cos" then
                  spectrum <~ COSSpectrum_init fs name good_pixel_limits prefix ;;
                  spectrum <~ (if compute_error
                               then io_lift (compute_proper_error spectrum None)
                               else io_ret spectrum) ;;
                  io_ret (dict_set orbit name spectrum)
                else if String.eqb instrument "stis" then
                  io_lift (Raise NotImplementedError)
                else io_ret orbit) ;;
      Visit_init_loop fs rest instrument good_pixel_limits prefix compute_error orbit
  end.

(** [Visit(dataset_name, instrument, good_pixel_limits=None, prefix=None,
    compute_proper_error=True)] *)
Definition Visit_init (fs : Files) (dataset_name : list string)
    (instrument : string) (good_pixel_limits : option limits)
    (prefix : option string) (compute_error : bool) : io Visit :=
  orbit <~ Visit_init_loop fs dataset_name instrument good_pixel_limits prefix
             compute_error [] ;;
  io_ret {| orbit := orbit; instrument := instrument;
            n_orbit := length dataset_name |}.

(** *** [Visit.time_tag_split] and [Visit.assign_splits] *)

(** [for i in range(n_splits): self.split[i].compute_proper_error()] *)
Definition recompute_split_errors (self : COSSpectrum) (n_splits : nat)
    : result COSSpectrum :=
  match split self with
  | None => if (n_splits =? 0)%nat then Ok self else Raise TypeError
  | Some l =>
      done <- Tools.for_each
        (fun i => sp <- Np.getitem l (Z.of_nat i) ;; compute_proper_error sp None)
        (seq 0 n_splits) ;;
      Ok (set_split self (Some (done ++ skipn n_splits l)))
  end.

(** The loop over the datasets of the visit, in the order of the
    dictionary; each dataset is put back under its key. *)
Fixpoint Visit_split_loop (step : COSSpectrum -> io (COSSpectrum * nat))
    (todo : list (string * COSSpectrum)) : io (list (string * COSSpectrum)) :=
  match todo with
  | [] => io_ret []
  | (name, spectrum) :: rest =>
      r <~ step spectrum ;;
      spectrum <~ io_lift (recompute_split_errors (fst r) (snd r)) ;;
      rest <~ Visit_split_loop step rest ;;
      io_ret ((name, spectrum) :: rest)
  end.

(** [Visit.time_tag_split(n_splits, path_calibration_files, out_dir)] *)
Definition Visit_time_tag_split (fs : Files) (self : Visit) (n_splits : nat)
    (out_dir : string) : io Visit :=
  if negb (String.eqb (instrument self) "cos") then io_lift (Raise ValueError)
  else
    orbit <~ Visit_split_loop
               (fun spectrum =>
                  spectrum <~ time_tag_split fs spectrum n_splits out_dir ;;
                  io_ret (spectrum, n_splits))
               (orbit self) ;;
    io_ret {| orbit := orbit; instrument := instrument self;
              n_orbit := n_orbit self |}.

(** [Visit.assign_splits(path)] *)
Definition Visit_assign_splits (fs : Files) (self : Visit) (path : string)
    : io Visit :=
  if negb (String.eqb (instrument self) "cos") then io_lift (Raise ValueError)
  else
    orbit <~ Visit_split_loop
               (fun spectrum =>
                  spectrum <~ assign_splits fs spectrum path ;;
                  n_splits <~ io_lift (match split spectrum with
                                       | Some l => Ok (length l)
                                       | None => Raise TypeError
                                       end) ;;
                  io_ret (spectrum, n_splits))
               (orbit self) ;;
    io_ret {| orbit := orbit; instrument := instrument self;
              n_orbit := n_orbit self |}.

(** *** [CombinedSpectra] *)

(** What the constructor of [CombinedSpectra] can raise: an exception of
    [exn], or the [NameError] of the loop variable [o], which is read after
    the loop and is unbound when the visit has no orbit. *)
Inductive raised : Type :=
| Builtin (e : exn)
| NameError.

Module CombinedSpectra.

Record t : Type := {
  _orbits : list COSSpectrum;
  _n_orbit : nat;
  flux : Np.rows;
  f_unc : Np.rows;
  start_JD : list R;
  end_JD : list R;
  wavelength : Np.rows
}.

(** [acc += a], where [acc] starts as the integer 0 ([None]). *)
Definition add_to (acc : option Np.rows) (a : Np.rows) : result Np.rows :=
  match acc with
  | None => Ok (Np.rows_map (fun x => 0 + x) a)
  | Some s => Np.rows_iadd s a
  end.

(** The state of the loop: the two sums and the orbit bound to [o]. *)
Fixpoint init_loop (todo : list (string * COSSpectrum))
    (flux f_unc : option Np.rows) (o : option COSSpectrum)
    : result (option Np.rows * option Np.rows * option COSSpectrum) :=
  match todo with
  | [] => Ok (flux, f_unc, o)
  | (_, spectrum) :: rest =>
      flux <- add_to flux (Sunburn.flux (uv spectrum)) ;;
      f_unc <- add_to f_unc
                 (Np.rows_map (fun x => x ^ 2) (Sunburn.error (uv spectrum))) ;;
      init_loop rest (Some flux) (Some f_unc) (Some spectrum)
  end.

(** [CombinedSpectra(visit)] *)
Definition init (visit : Visit) : t + raised :=
  let n := length (orbit visit) in
  match init_loop (orbit visit) None None None with
  | Raise e => inr (Builtin e)
  | Ok (_, _, None) => inr NameError
  | Ok (flux, f_unc, Some o) =>
      let flux := match flux with
                  | Some a => Np.rows_map (fun x => x / INR n) a
                  | None => ([], [])
                  end in
      let f_unc := match f_unc with
                   | Some a => Np.rows_map (fun x => sqrt x / INR n) a
                   | None => ([], [])
                   end in
      inl {| _orbits := map snd (orbit visit);
             _n_orbit := n;
             flux := flux;
             f_unc := f_unc;
             start_JD := map (fun p => Sunburn.start_JD (uv (snd p))) (orbit visit);
             end_JD := map (fun p => Sunburn.end_JD (uv (snd p))) (orbit visit);
             wavelength := Sunburn.wavelength (uv o) |}
  end.

End CombinedSpectra.

(** *** [AirglowTemplate] *)

Module AirglowTemplate.

(** The template is built with its uncertainties given. *)
Record t : Type := {
  wavelength : list R;
  flux : list R;
  f_unc : list R;
  ref_wl : R;
  velocity : list R
}.

(** [AirglowTemplate(wavelength, flux, uncertainties,
    reference_wavelength=None)] *)
Definition init (wavelength flux uncertainties : list R)
    (reference_wavelength : option R) : t :=
  let _ls := Tools.light_speed in
  let ref_wl := match reference_wavelength with
                | Some r => r
                | None => Np.mean wavelength
                end in
  {| wavelength := wavelength;
     flux := flux;
     f_unc := uncertainties;
     ref_wl := ref_wl;
     velocity := map (fun w => (w - ref_wl) * _ls / ref_wl) wavelength |}.

(** [adjust_spectrum(doppler_shift, scale_flux=1.0,
    interpolation_type='linear', fill_value=0.0, update_spectrum=False)] for
    a shift in km/s; [None] as fill value stands for ['extrapolate'].  It
    returns the two arrays, or nothing when it updates the template. *)
Definition adjust_spectrum (self : t) (doppler_shift scale_flux : R)
    (fill_value : option R) (update_spectrum : bool)
    : result (t * option (list R * list R)) :=
  r <- Tools.doppler_shift doppler_shift (ref_wl self) (wavelength self)
         (flux self) (f_unc self) fill_value ;;
  let new_flux := map (fun x => x * scale_flux) (fst r) in
  let new_f_unc := map (fun x => x * scale_flux) (snd r) in
  if update_spectrum then
    Ok ({| wavelength := wavelength self;
           flux := new_flux;
           f_unc := new_f_unc;
           ref_wl := ref_wl self;
           velocity := velocity self |}, None)
  else Ok (self, Some (new_flux, new_f_unc)).

(** [interpolate_to(wavelength, interpolation_type='linear')] *)
Definition interpolate_to (self : t) (wavelength_new : list R)
    : result (list R * list R) :=
  let x := wavelength self in
  let y1 := flux self in
  let y2 := f_unc self in
  f1 <- Scipy.interp1d_new x y1 0 ;;
  f2 <- Scipy.interp1d_new x y2 0 ;;
  new_flux <- Scipy.linear_eval f1 wavelength_new ;;
  new_f_unc <- Scipy.linear_eval f2 wavelength_new ;;
  Ok (new_flux, new_f_unc).

End AirglowTemplate.

End Sunburn.

(** ** [hst_observation.py] of the [blastoise] package, the older copy *)

Module Blastoise.

(** Here the exposure time is kept for each side,
    [np.array([EXPTIME[0], EXPTIME[1]])]. *)
Record COSSpectrum : Type := {
  dataset_name : string;
  gpl : Sunburn.limits;
  wavelength : Np.rows;
  flux : Np.rows;
  error : Np.rows;
  gross_counts : Np.rows;
  background : Np.rows;
  net : Np.rows;
  exp_time : R * R;
  start_JD : R;
  end_JD : R;
  sensitivity : option Np.rows
}.

(** [COSSpectrum(dataset_name, good_pixel_limits)], with the constructor of
    [UVSpectrum] it calls; the second file is [_corrtag_a.fits]. *)
Definition COSSpectrum_init (fs : Sunburn.Files) (dataset_name : string)
    (good_pixel_limits : option Sunburn.limits) : Sunburn.io COSSpectrum :=
  let x1d := (dataset_name ++ "_x1d.fits")%string in
  let corrtag := (dataset_name ++ "_corrtag_a.fits")%string in
  Sunburn.io_bind (Sunburn.open_x1d fs x1d) (fun data =>
  Sunburn.io_bind (Sunburn.open_corrtag fs corrtag) (fun tag =>
  let gpl := match good_pixel_limits with
             | None => ((0, -1), (0, -1))%Z
             | Some g => g
             end in
  let i00 := fst (fst gpl) in
  let i01 := snd (fst gpl) in
  let i10 := fst (snd gpl) in
  let i11 := snd (snd gpl) in
  let cut (column : Np.rows) : Np.rows :=
    (Np.slice_Z (fst column) i00 i01, Np.slice_Z (snd column) i10 i11) in
  Sunburn.io_ret
    {| dataset_name := dataset_name;
       gpl := gpl;
       wavelength := cut (Sunburn.WAVELENGTH data);
       flux := cut (Sunburn.FLUX data);
       error := cut (Sunburn.ERROR data);
       gross_counts := cut (Sunburn.GCOUNTS data);
       background := cut (Sunburn.BACKGROUND data);
       net := cut (Sunburn.NET data);
       exp_time := Sunburn.EXPTIME data;
       start_JD := Sunburn.EXPSTRTJ tag;
       end_JD := Sunburn.EXPENDJ tag;
       sensitivity := None |})).

(** [COSSpectrum.compute_proper_error()] *)
Definition compute_proper_error (self : COSSpectrum) : result COSSpectrum :=
  ratio <- Np.rows_ufunc2 Rdiv (flux self) (net self) ;;
  sensitivity <- Np.rows_div_vector ratio (exp_time self) ;;
  error <- Np.rows_ufunc2 Rmult
             (Np.rows_map (fun g => sqrt (g + 1)) (gross_counts self))
             sensitivity ;;
  Ok {| dataset_name := dataset_name self; gpl := gpl self;
        wavelength := wavelength self; flux := flux self; error := error;
        gross_counts := gross_counts self; background := background self;
        net := net self; exp_time := exp_time self;
        start_JD := start_JD self; end_JD := end_JD self;
        sensitivity := Some sensitivity |}.

(** [STISSpectrum]: its constructor takes no argument and sets no
    attribute. *)
Inductive STISSpectrum : Type := STISSpectrum_init.

Inductive spectrum : Type :=
| COS (s : COSSpectrum)
| STIS (s : STISSpectrum).

(** [Visit()] and [Visit.append_orbit(spectrum)], which reads
    [spectrum.dataset_name]. *)
Record Visit : Type := { orbit : list (string * spectrum) }.

Definition Visit_init : Visit := {| orbit := [] |}.

Definition append_orbit (self : Visit) (sp : spectrum) : result Visit :=
  match sp with
  | COS s => Ok {| orbit := Sunburn.dict_set (orbit self) (dataset_name s) sp |}
  | STIS _ => Raise AttributeError
  end.

End Blastoise.

(** ** Specification vocabulary *)

(** Two-row arrays whose rows have the same lengths, row by row. *)
Definition same_shape (a b : Np.rows) : Prop :=
  length (fst a) = length (fst b) /\ length (snd a) = length (snd b).

(** Pixel [i] of side [k]. *)
Definition pixel (a : Np.rows) (k i : nat) : R :=
  nth i (match k with 0%nat => fst a | _ => snd a end) 0.

Definition side_length (a : Np.rows) (k : nat) : nat :=
  length (match k with 0%nat => fst a | _ => snd a end).



(** An array sorted in ascending order (equal neighbours allowed). *)
Fixpoint ascending (a : list R) : Prop :=
  match a with
  | [] => True
  | x :: t =>
      match t with
      | [] => True
      | y :: _ => x <= y /\ ascending t
      end
  end.

(** An array sorted in strictly ascending order. *)
Fixpoint strictly_ascending (a : list R) : Prop :=
  match a with
  | [] => True
  | x :: t =>
      match t with
      | [] => True
      | y :: _ => x < y /\ strictly_ascending t
      end
  end.

(** The same, by indices. *)
Definition monotone (a : list R) : Prop :=
  forall i j, (i <= j < length a)%nat -> nth i a 0 <= nth j a 0.

(** The insertion point after clipping, as a natural number. *)
Definition clipped_point (array : list R) (v : R) : nat :=
  Nat.min (length array - 1) (Nat.max (Np.searchsorted array v) 1).

(** The index that [nearest_index] returns on an array of two elements or
    more, as a natural number. *)
Definition nearest (array : list R) (v : R) : nat :=
  let k := clipped_point array v in
  if Np.ltb (v - nth (k - 1) array 0) (nth k array 0 - v) then (k - 1)%nat else k.

(** A range lies strictly inside a side when some wavelength of the side is
    below its lower end and some wavelength of the side is above its upper
    end. *)
Definition inside (side : list R) (wavelength_range : R * R) : Prop :=
  (exists x, In x side /\ x < fst wavelength_range) /\
  (exists y, In y side /\ snd wavelength_range < y).

(** The files of the dataset [name] are present under [prefix] and the
    header of its event file carries the start [t0] and the end [t1]. *)
Definition files_stamped (fs : Sunburn.Files) (prefix name : string)
    (t0 t1 : R) : Prop :=
  Sunburn.x1d_files fs (prefix ++ name ++ "_x1d.fits")%string <> None /\
  Sunburn.corrtag_files fs (prefix ++ name ++ "_corrtag_a.fits")%string
  = Some {| Sunburn.EXPSTRTJ := t0; Sunburn.EXPENDJ := t1 |}.

(** Start and end of a spectrum as offsets in seconds from a reference
    date, and its duration in seconds. *)
Definition start_offset (t_ref : R) (sp : Sunburn.COSSpectrum) : R :=
  (Sunburn.start_JD (Sunburn.uv sp) - t_ref) * 86400.

Definition end_offset (t_ref : R) (sp : Sunburn.COSSpectrum) : R :=
  (Sunburn.end_JD (Sunburn.uv sp) - t_ref) * 86400.

Definition duration (sp : Sunburn.COSSpectrum) : R :=
  (Sunburn.end_JD (Sunburn.uv sp) - Sunburn.start_JD (Sunburn.uv sp)) * 86400.


(** What the code does: the start is counted from the start of the event
    file, the end is counted back from its end [t1]. *)
Definition stamped_from_both_ends (t0 t1 t : R) (n : nat)
    (splits : list Sunburn.COSSpectrum) : Prop :=
  length splits = n /\
  (forall i, (i < n)%nat ->
     exists sp, nth_error splits i = Some sp /\
       start_offset t0 sp = INR i * (t / INR n) /\
       end_offset t0 sp = (t1 - t0) * 86400 - INR (n - i - 1) * (t / INR n) /\
       duration sp = (t1 - t0) * 86400 - INR (n - 1) * (t / INR n)).

(** The errors of several spectra combined in quadrature and divided by
    their number, pixel by pixel, as [combine_spectra] and
    [CombinedSpectra] do. *)
Definition quadrature_mean (rows : list (list R)) : list R :=
  map (fun s => sqrt s / INR (length rows))
      (Np.axis0 Np.sum (map (map (fun x => x ^ 2)) rows)).

(** The mean of several rows, pixel by pixel. *)
Definition mean_rows (rows : list (list R)) : list R :=
  Np.axis0 Np.mean rows.



(** The files that the constructor of a COS visit opens, in order. *)
Definition opened_files (prefix : option string) (names : list string)
    : list string :=
  let p := match prefix with None => ""%string | Some p => p end in
  concat (map (fun name => [(p ++ name ++ "_x1d.fits")%string;
                            (p ++ name ++ "_corrtag_a.fits")%string])
              names).

(** ** Concrete spectra *)

(** A spectrum with one pixel on side 0 and two on side 1, every pixel with
    no gross count, flux [1e-14], net count rate [1e-15], and an exposure
    of 1000 s: the values of the scenario of the specification. *)
Definition scenario_blastoise : Blastoise.COSSpectrum :=
  {| Blastoise.dataset_name := "obs";
     Blastoise.gpl := Sunburn.default_good_pixel_limits;
     Blastoise.wavelength := ([1300], [1100; 1101]);
     Blastoise.flux := ([1e-14], [1e-14; 1e-14]);
     Blastoise.error := ([0], [0; 0]);
     Blastoise.gross_counts := ([0], [0; 0]);
     Blastoise.background := ([0], [0; 0]);
     Blastoise.net := ([1e-15], [1e-15; 1e-15]);
     Blastoise.exp_time := (1000, 1000);
     Blastoise.start_JD := 2458000;
     Blastoise.end_JD := 2458000 + 1000 / 86400;
     Blastoise.sensitivity := None |}.

Definition scenario_uv : Sunburn.UVSpectrum :=
  {| Sunburn.dataset_name := "obs";
     Sunburn.prefix := "";
     Sunburn.gpl := Sunburn.default_good_pixel_limits;
     Sunburn.wavelength := ([1300], [1100; 1101]);
     Sunburn.flux := ([1e-14], [1e-14; 1e-14]);
     Sunburn.error := ([0], [0; 0]);
     Sunburn.gross_counts := ([0], [0; 0]);
     Sunburn.background := ([0], [0; 0]);
     Sunburn.net := ([1e-15], [1e-15; 1e-15]);
     Sunburn.exp_time := 1000;
     Sunburn.start_JD := 2458000;
     Sunburn.end_JD := 2458000 + 1000 / 86400 |}.

Definition scenario_sunburn : Sunburn.COSSpectrum :=
  {| Sunburn.uv := scenario_uv;
     Sunburn.sensitivity := None;
     Sunburn.split := None;
     Sunburn._systematics := None |}.

(** Files in which every dataset exists, with a small table and an event
    file that carries the times [t0] and [t1]; [glob] finds three splits. *)
Definition example_x1d : Sunburn.X1D :=
  {| Sunburn.WAVELENGTH := ([1300; 1301], [1100; 1101]);
     Sunburn.FLUX := ([1e-14; 1e-14], [1e-14; 1e-14]);
     Sunburn.ERROR := ([1e-15; 1e-15], [1e-15; 1e-15]);
     Sunburn.GCOUNTS := ([4; 4], [4; 4]);
     Sunburn.BACKGROUND := ([0; 0], [0; 0]);
     Sunburn.NET := ([1e-2; 1e-2], [1e-2; 1e-2]);
     Sunburn.EXPTIME := (400, 400) |}.

Definition example_files (t0 t1 : R) : Sunburn.Files :=
  {| Sunburn.x1d_files := fun _ => Some example_x1d;
     Sunburn.corrtag_files :=
       fun _ => Some {| Sunburn.EXPSTRTJ := t0; Sunburn.EXPENDJ := t1 |};
     Sunburn.glob :=
       fun _ => ["splits/ldxr01abq_1_x1d.fits"; "splits/ldxr01abq_2_x1d.fits";
                 "splits/ldxr01abq_3_x1d.fits"]%string |}.

(** A parent exposed for [t] seconds whose event file spans [window]
    seconds from the Julian Date 2458000. *)
Definition example_parent (t window : R) : Sunburn.COSSpectrum :=
  {| Sunburn.uv :=
       {| Sunburn.dataset_name := "ldxr01abq";
          Sunburn.prefix := "";
          Sunburn.gpl := Sunburn.default_good_pixel_limits;
          Sunburn.wavelength := ([1300; 1301], [1100; 1101]);
          Sunburn.flux := ([1e-14; 1e-14], [1e-14; 1e-14]);
          Sunburn.error := ([1e-15; 1e-15], [1e-15; 1e-15]);
          Sunburn.gross_counts := ([12; 12], [12; 12]);
          Sunburn.background := ([0; 0], [0; 0]);
          Sunburn.net := ([1e-2; 1e-2], [1e-2; 1e-2]);
          Sunburn.exp_time := t;
          Sunburn.start_JD := 2458000;
          Sunburn.end_JD := 2458000 + window / 86400 |};
     Sunburn.sensitivity := None;
     Sunburn.split := None;
     Sunburn._systematics := None |}.

(** A spectrum with six pixels on side 0 (1260 to 1270) and three on
    side 1 (1025 to 1035). *)
Definition example_uv : Sunburn.UVSpectrum :=
  {| Sunburn.dataset_name := "ldxr01abq";
     Sunburn.prefix := "";
     Sunburn.gpl := ((0, -1), (0, -1))%Z;
     Sunburn.wavelength := ([1260; 1262; 1264; 1266; 1268; 1270],
                            [1025; 1030; 1035]);
     Sunburn.flux := ([1; 2; 3; 4; 5; 6], [7; 8; 9]);
     Sunburn.error := ([0.1; 0.2; 0.3; 0.4; 0.5; 0.6], [0.7; 0.8; 0.9]);
     Sunburn.gross_counts := ([10; 20; 30; 40; 50; 60], [70; 80; 90]);
     Sunburn.background := ([0; 0; 0; 0; 0; 0], [0; 0; 0]);
     Sunburn.net := ([1; 2; 3; 4; 5; 6], [7; 8; 9]);
     Sunburn.exp_time := 1000;
     Sunburn.start_JD := 2458000;
     Sunburn.end_JD := 2458000 + 1000 / 86400 |}.

(** A parent with two time-tag splits on which [verify_systematic] has
    run.  The errors of the splits are 3 and 4 on every pixel, the error of
    the parent is 3. *)
Definition example_split (f0 f1 e0 e1 : list R) (t0 t1 : R)
    : Sunburn.COSSpectrum :=
  {| Sunburn.uv :=
       {| Sunburn.dataset_name := "ldxr01abq_1";
          Sunburn.prefix := "splits/";
          Sunburn.gpl := Sunburn.default_good_pixel_limits;
          Sunburn.wavelength := ([1300; 1301], [1100; 1101]);
          Sunburn.flux := (f0, f1);
          Sunburn.error := (e0, e1);
          Sunburn.gross_counts := ([6; 6], [6; 6]);
          Sunburn.background := ([0; 0], [0; 0]);
          Sunburn.net := ([1e-2; 1e-2], [1e-2; 1e-2]);
          Sunburn.exp_time := 600;
          Sunburn.start_JD := t0;
          Sunburn.end_JD := t1 |};
     Sunburn.sensitivity := None;
     Sunburn.split := None;
     Sunburn._systematics := None |}.

Definition split_a : Sunburn.COSSpectrum :=
  example_split [2; 4] [6; 8] [3; 3] [3; 3] 2458000 (2458000 + 600 / 86400).

Definition split_b : Sunburn.COSSpectrum :=
  example_split [4; 8] [12; 16] [4; 4] [4; 4]
    (2458000 + 600 / 86400) (2458000 + 1200 / 86400).

Definition systematics_parent : Sunburn.COSSpectrum :=
  {| Sunburn.uv :=
       {| Sunburn.dataset_name := "ldxr01abq";
          Sunburn.prefix := "";
          Sunburn.gpl := Sunburn.default_good_pixel_limits;
          Sunburn.wavelength := ([1300; 1301], [1100; 1101]);
          Sunburn.flux := ([3; 6], [9; 12]);
          Sunburn.error := ([3; 3], [3; 3]);
          Sunburn.gross_counts := ([12; 12], [12; 12]);
          Sunburn.background := ([0; 0], [0; 0]);
          Sunburn.net := ([1e-2; 1e-2], [1e-2; 1e-2]);
          Sunburn.exp_time := 1200;
          Sunburn.start_JD := 2458000;
          Sunburn.end_JD := 2458000 + 1200 / 86400 |};
     Sunburn.sensitivity := None;
     Sunburn.split := Some [split_a; split_b];
     Sunburn._systematics :=
       Some {| Sunburn.sys_time := [2458000 + 300 / 86400; 2458000 + 900 / 86400];
               Sunburn.sys_flux := [10; 12];
               Sunburn.sys_f_unc := [1; 1] |} |}.

(** A spectrum with distinct values on every pixel. *)
Definition example_cos_for_error : Sunburn.COSSpectrum :=
  {| Sunburn.uv := example_uv;
     Sunburn.sensitivity := None;
     Sunburn.split := None;
     Sunburn._systematics := None |}.

(** A faint spectrum: the first pixel of side 0 has a negative flux and a
    slightly negative net count rate. *)
Definition faint_spectrum : Sunburn.COSSpectrum :=
  {| Sunburn.uv :=
       {| Sunburn.dataset_name := "ldxr01abq";
          Sunburn.prefix := "";
          Sunburn.gpl := Sunburn.default_good_pixel_limits;
          Sunburn.wavelength := ([1300; 1301], [1100; 1101]);
          Sunburn.flux := ([-1e-14; 1e-14], [1e-14; 1e-14]);
          Sunburn.error := ([1e-15; 1e-15], [1e-15; 1e-15]);
          Sunburn.gross_counts := ([0; 3], [3; 3]);
          Sunburn.background := ([0; 0], [0; 0]);
          Sunburn.net := ([-5e-8; 1e-3], [1e-3; 1e-3]);
          Sunburn.exp_time := 1000;
          Sunburn.start_JD := 2458000;
          Sunburn.end_JD := 2458000 + 1000 / 86400 |};
     Sunburn.sensitivity := None;
     Sunburn.split := None;
     Sunburn._systematics := None |}.

(** A spectrum of the older copy with three pixels on each side. *)
Definition equal_sides_blastoise : Blastoise.COSSpectrum :=
  {| Blastoise.dataset_name := "obs";
     Blastoise.gpl := ((0, -1), (0, -1))%Z;
     Blastoise.wavelength := ([1300; 1301; 1302], [1100; 1101; 1102]);
     Blastoise.flux := ([1; 2; 3], [4; 5; 6]);
     Blastoise.error := ([0; 0; 0], [0; 0; 0]);
     Blastoise.gross_counts := ([1; 2; 3], [4; 5; 6]);
     Blastoise.background := ([0; 0; 0], [0; 0; 0]);
     Blastoise.net := ([1; 2; 3], [4; 5; 6]);
     Blastoise.exp_time := (1000, 1000);
     Blastoise.start_JD := 2458000;
     Blastoise.end_JD := 2458000 + 1000 / 86400;
     Blastoise.sensitivity := None |}.

(** A spectrum of the older copy with sides of different lengths and a
    different exposure time on each side. *)
Definition ragged_blastoise : Blastoise.COSSpectrum :=
  {| Blastoise.dataset_name := "obs";
     Blastoise.gpl := ((0, -1), (0, -1))%Z;
     Blastoise.wavelength := ([1300; 1301; 1302], [1100; 1101]);
     Blastoise.flux := ([1; 2; 3], [4; 5]);
     Blastoise.error := ([0; 0; 0], [0; 0]);
     Blastoise.gross_counts := ([8; 15; 24], [35; 48]);
     Blastoise.background := ([0; 0; 0], [0; 0]);
     Blastoise.net := ([2; 4; 6], [8; 10]);
     Blastoise.exp_time := (1000, 2000);
     Blastoise.start_JD := 2458000;
     Blastoise.end_JD := 2458000 + 1000 / 86400;
     Blastoise.sensitivity := None |}.

(** A visit of two orbits with spectra of one shape. *)
Definition second_orbit : Sunburn.COSSpectrum :=
  {| Sunburn.uv :=
       Sunburn.set_flux example_uv ([3; 4; 5; 6; 7; 8], [9; 10; 11]);
     Sunburn.sensitivity := None;
     Sunburn.split := None;
     Sunburn._systematics := None |}.

Definition example_visit : Sunburn.Visit :=
  {| Sunburn.orbit := [("ldxr01abq"%string, example_cos_for_error);
                       ("ldxr01acq"%string, second_orbit)];
     Sunburn.instrument := "cos";
     Sunburn.n_orbit := 2 |}.

(** A spectrum to which an empty list of splits was assigned, and one with
    a single split; a line list with one line. *)
Definition no_split_parent : Sunburn.COSSpectrum :=
  {| Sunburn.uv := example_uv;
     Sunburn.sensitivity := None;
     Sunburn.split := Some [];
     Sunburn._systematics := None |}.

Definition one_split_parent : Sunburn.COSSpectrum :=
  {| Sunburn.uv := example_uv;
     Sunburn.sensitivity := None;
     Sunburn.split := Some [example_cos_for_error];
     Sunburn._systematics := None |}.

Definition example_line_list : list (string * list Sunburn.Line) :=
  [("Si III"%string, []);
   ("O V"%string,
    [{| Sunburn.central_wavelength := 1265;
        Sunburn.wavelength_range := (1261.5, 1268.5) |}])].

(** * Proofs *)

(** ** Comparisons and array access *)

Lemma ltb_true (x y : R) : Np.ltb x y = true <-> x < y.
Proof. unfold Np.ltb. destruct (Rlt_dec x y); split; intros; try easy; lra. Qed.

Lemma ltb_false (x y : R) : Np.ltb x y = false <-> y <= x.
Proof. unfold Np.ltb. destruct (Rlt_dec x y); split; intros; try easy; lra. Qed.

Ltac by_cases_ltb x y :=
  let H := fresh "Hcmp" in
  destruct (Np.ltb x y) eqn:H;
  [ apply ltb_true in H | apply ltb_false in H ].

Lemma getitem_nat {A : Type} (a : list A) (d : A) (j : nat) :
  (j < length a)%nat -> Np.getitem a (Z.of_nat j) = Ok (nth j a d).
Proof.
  intros Hj. unfold Np.getitem.
  assert (H0 : (Z.of_nat j <? 0)%Z = false) by (apply Z.ltb_ge; lia).
  rewrite H0.
  assert (H1 : ((0 <=? Z.of_nat j) && (Z.of_nat j <? Z.of_nat (length a)))%Z = true).
  { apply andb_true_iff. split; [apply Z.leb_le | apply Z.ltb_lt]; lia. }
  rewrite H1, Nat2Z.id.
  now rewrite (nth_error_nth' a d Hj).
Qed.

Lemma ascending_tail (x : R) (t : list R) : ascending (x :: t) -> ascending t.
Proof. destruct t; simpl; tauto. Qed.

Lemma ascending_head_le (x : R) (t : list R) (j : nat) :
  ascending (x :: t) -> (j < length t)%nat -> x <= nth j t 0.
Proof.
  revert x j. induction t as [|y t IH]; intros x j Hs Hj; simpl in Hj; [lia|].
  destruct Hs as [Hxy Hs]. destruct j as [|j]; simpl; [exact Hxy|].
  apply Rle_trans with y; [exact Hxy|]. apply IH; [exact Hs | lia].
Qed.

Lemma ascending_monotone (a : list R) : ascending a -> monotone a.
Proof.
  induction a as [|x t IH]; intros Hs i j Hij; simpl in Hij; [lia|].
  destruct i as [|i], j as [|j]; simpl; try lra; try lia.
  - apply ascending_head_le; [exact Hs | lia].
  - apply IH; [eapply ascending_tail; eauto | lia].
Qed.

(** ** The binary search *)

Lemma mid_between (lo hi : nat) :
  (lo < hi)%nat -> (lo <= lo + (hi - lo) / 2 < hi)%nat.
Proof.
  intros H. split; [lia|].
  assert ((hi - lo) / 2 < hi - lo)%nat by (apply Nat.div_lt; lia).
  lia.
Qed.

Lemma binsearch_range (fuel : nat) (a : list R) (key : R) (lo hi : nat) :
  (lo <= hi)%nat ->
  (lo <= Np.binsearch_left fuel a key lo hi <= hi)%nat.
Proof.
  revert lo hi. induction fuel as [|f IH]; intros lo hi Hle; cbn [Np.binsearch_left]; [lia|].
  destruct (lo <? hi)%nat eqn:Hlt; [|lia].
  apply Nat.ltb_lt in Hlt. pose proof (mid_between lo hi Hlt) as Hm.
  set (mid := (lo + (hi - lo) / 2)%nat) in *.
  destruct (Np.ltb _ key).
  - assert (Hs : (S mid <= hi)%nat) by lia. specialize (IH _ _ Hs). lia.
  - assert (Hs : (lo <= mid)%nat) by lia. specialize (IH _ _ Hs). lia.
Qed.

(** On a sorted array the search separates the elements below the key from
    the others, provided the fuel covers the interval. *)
Lemma binsearch_partition (fuel : nat) (a : list R) (key : R) (lo hi : nat) :
  monotone a ->
  (lo <= hi <= length a)%nat ->
  (hi - lo <= fuel)%nat ->
  (forall i, (i < lo)%nat -> nth i a 0 < key) ->
  (forall i, (hi <= i < length a)%nat -> key <= nth i a 0) ->
  let r := Np.binsearch_left fuel a key lo hi in
  (forall i, (i < r)%nat -> nth i a 0 < key) /\
  (forall i, (r <= i < length a)%nat -> key <= nth i a 0).
Proof.
  intros Hmono. revert lo hi.
  induction fuel as [|f IH]; intros lo hi Hb Hf Hlo Hhi; cbn [Np.binsearch_left].
  - assert (lo = hi) by lia. subst. split; assumption.
  - destruct (lo <? hi)%nat eqn:Hlt.
    + apply Nat.ltb_lt in Hlt. pose proof (mid_between lo hi Hlt) as Hm.
      set (mid := (lo + (hi - lo) / 2)%nat) in *.
      by_cases_ltb (nth mid a 0) key.
      * apply IH; try lia; [|exact Hhi].
        intros i Hi. apply Rle_lt_trans with (nth mid a 0); [|exact Hcmp].
        apply Hmono. lia.
      * apply IH; try lia; [exact Hlo|].
        intros i Hi. apply Rle_trans with (nth mid a 0); [exact Hcmp|].
        apply Hmono. lia.
    + apply Nat.ltb_ge in Hlt. assert (lo = hi) by lia. subst. split; assumption.
Qed.

(** The fuel is never what stops the search: any two amounts that cover
    the interval give the same index. *)
Lemma binsearch_fuel_enough (fuel fuel' : nat) (a : list R) (key : R)
    (lo hi : nat) :
  (hi - lo <= fuel)%nat -> (hi - lo <= fuel')%nat ->
  Np.binsearch_left fuel a key lo hi = Np.binsearch_left fuel' a key lo hi.
Proof.
  revert fuel' lo hi. induction fuel as [|f IH]; intros fuel' lo hi H H'.
  - destruct fuel' as [|f']; [reflexivity|]. cbn [Np.binsearch_left].
    destruct (Nat.ltb_spec lo hi); [lia | reflexivity].
  - destruct fuel' as [|f']; cbn [Np.binsearch_left];
      destruct (Nat.ltb_spec lo hi) as [Hlt|Hge]; try lia; try reflexivity.
    pose proof (mid_between lo hi Hlt) as Hm.
    set (mid := (lo + (hi - lo) / 2)%nat) in *.
    destruct (Np.ltb _ key); apply IH; lia.
Qed.

Lemma searchsorted_le_length (a : list R) (v : R) :
  (Np.searchsorted a v <= length a)%nat.
Proof. unfold Np.searchsorted. pose proof (binsearch_range (length a) a v 0 (length a)). lia. Qed.

Lemma searchsorted_partition (a : list R) (v : R) :
  monotone a ->
  (forall i, (i < Np.searchsorted a v)%nat -> nth i a 0 < v) /\
  (forall i, (Np.searchsorted a v <= i < length a)%nat -> v <= nth i a 0).
Proof.
  intros Hmono. unfold Np.searchsorted.
  apply binsearch_partition; try lia; try exact Hmono; intros i Hi; lia.
Qed.

(** Without any order on the array: if no element is below the key the
    search stays at its left end, if all are it runs to its right end. *)
Lemma binsearch_none_below (fuel : nat) (a : list R) (key : R) (lo hi : nat) :
  (forall i, (lo <= i < hi)%nat -> key <= nth i a 0) ->
  Np.binsearch_left fuel a key lo hi = lo.
Proof.
  revert hi. induction fuel as [|f IH]; intros hi Hall; cbn [Np.binsearch_left]; [reflexivity|].
  destruct (lo <? hi)%nat eqn:Hlt; [|reflexivity].
  apply Nat.ltb_lt in Hlt. pose proof (mid_between lo hi Hlt) as Hm.
  by_cases_ltb (nth (lo + (hi - lo) / 2) a 0) key.
  - specialize (Hall _ Hm). lra.
  - apply IH. intros i Hi. apply Hall. lia.
Qed.

Lemma binsearch_all_below (fuel : nat) (a : list R) (key : R) (lo hi : nat) :
  (lo <= hi)%nat ->
  (hi - lo <= fuel)%nat ->
  (forall i, (lo <= i < hi)%nat -> nth i a 0 < key) ->
  Np.binsearch_left fuel a key lo hi = hi.
Proof.
  revert lo. induction fuel as [|f IH]; intros lo Hle Hf Hall; cbn [Np.binsearch_left]; [lia|].
  destruct (lo <? hi)%nat eqn:Hlt.
  - apply Nat.ltb_lt in Hlt. pose proof (mid_between lo hi Hlt) as Hm.
    by_cases_ltb (nth (lo + (hi - lo) / 2) a 0) key.
    + apply IH; try lia. intros i Hi. apply Hall. lia.
    + specialize (Hall _ Hm). lra.
  - apply Nat.ltb_ge in Hlt. lia.
Qed.

(** ** [nearest_index] *)

Lemma clipped_point_range (array : list R) (v : R) :
  (2 <= length array)%nat ->
  (1 <= clipped_point array v <= length array - 1)%nat.
Proof. unfold clipped_point. lia. Qed.

(** With two elements or more both reads succeed and the function returns
    the clipped insertion point or its left neighbour. *)
Lemma nearest_index_unfold (array : list R) (v : R) :
  (2 <= length array)%nat ->
  let k := clipped_point array v in
  Tools.nearest_index array v =
  Ok (Z.of_nat k -
      Np.int_of_bool (Np.ltb (v - nth (k - 1) array 0%R)%R
                             (nth k array 0%R - v)%R))%Z.
Proof.
  intros Hlen k. pose proof (clipped_point_range array v Hlen) as Hk. fold k in Hk.
  unfold Tools.nearest_index.
  assert (Hclip : Np.clip (Z.of_nat (Np.searchsorted array v)) 1
                    (Z.of_nat (length array) - 1) = Z.of_nat k).
  { unfold Np.clip, k, clipped_point. lia. }
  rewrite Hclip.
  replace (Z.of_nat k - 1)%Z with (Z.of_nat (k - 1)) by lia.
  rewrite (getitem_nat array 0 (k - 1)) by lia.
  rewrite (getitem_nat array 0 k) by lia.
  reflexivity.
Qed.

Lemma last_nth (a : list R) (d : R) : last a d = nth (length a - 1) a d.
Proof.
  induction a as [|x t IH]; [reflexivity|].
  destruct t as [|y t]; [reflexivity|].
  change (last (x :: y :: t) d) with (last (y :: t) d). rewrite IH.
  simpl. now rewrite Nat.sub_0_r.
Qed.

Lemma nth_In_lt (a : list R) (i : nat) : (i < length a)%nat -> In (nth i a 0) a.
Proof. intros H. now apply nth_In. Qed.

(** C9. On every array with at least two elements [nearest_index] returns,
    for any target, an index between 0 and [len(array) - 1]; a target below
    every element gives 0 and a target above every element gives
    [len(array) - 1].  No order on the array is needed. *)
Theorem nearest_index_total (array : list R) (v : R) :
  (2 <= length array)%nat ->
  (exists i : Z, Tools.nearest_index array v = Ok i /\
                 (0 <= i <= Z.of_nat (length array) - 1)%Z) /\
  ((forall x, In x array -> v < x) -> Tools.nearest_index array v = Ok 0%Z) /\
  ((forall x, In x array -> x < v) ->
   Tools.nearest_index array v = Ok (Z.of_nat (length array) - 1)%Z).
Proof.
  intros Hlen. pose proof (nearest_index_unfold array v Hlen) as Hu.
  pose proof (clipped_point_range array v Hlen) as Hk.
  cbv zeta in Hu. split; [|split].
  - eexists. split; [exact Hu|].
    destruct (Np.ltb _ _); simpl; lia.
  - intros Hbelow. rewrite Hu.
    assert (Hs : Np.searchsorted array v = 0%nat).
    { unfold Np.searchsorted. apply binsearch_none_below.
      intros i Hi. left. apply Hbelow. apply nth_In_lt. lia. }
    assert (Hc : clipped_point array v = 1%nat).
    { unfold clipped_point. rewrite Hs. lia. }
    rewrite Hc. simpl (1 - 1)%nat.
    pose proof (Hbelow _ (nth_In_lt array 0 ltac:(lia))).
    pose proof (Hbelow _ (nth_In_lt array 1 ltac:(lia))).
    by_cases_ltb (v - nth 0 array 0) (nth 1 array 0 - v); [reflexivity|lra].
  - intros Habove. rewrite Hu.
    assert (Hs : Np.searchsorted array v = length array).
    { unfold Np.searchsorted. apply binsearch_all_below; try lia.
      intros i Hi. apply Habove. apply nth_In_lt. lia. }
    assert (Hc : clipped_point array v = (length array - 1)%nat).
    { unfold clipped_point. rewrite Hs. lia. }
    rewrite Hc.
    pose proof (Habove _ (nth_In_lt array (length array - 1 - 1) ltac:(lia))).
    pose proof (Habove _ (nth_In_lt array (length array - 1) ltac:(lia))).
    by_cases_ltb (v - nth (length array - 1 - 1) array 0)
                 (nth (length array - 1) array 0 - v); [lra|].
    simpl. f_equal. lia.
Qed.

Lemma nearest_index_total_witness :
  (exists i : Z, Tools.nearest_index [1; 5; 2] 7 = Ok i /\ (0 <= i <= 2)%Z) /\
  Tools.nearest_index [3; 4] 0 = Ok 0%Z /\
  Tools.nearest_index [3; 4; 8] 9 = Ok 2%Z.
Proof.
  split; [|split].
  - apply (proj1 (nearest_index_total [1; 5; 2] 7 ltac:(simpl; lia))).
  - apply (proj1 (proj2 (nearest_index_total [3; 4] 0 ltac:(simpl; lia)))).
    simpl. intros x [H|[H|[]]]; subst; lra.
  - apply (proj2 (proj2 (nearest_index_total [3; 4; 8] 9 ltac:(simpl; lia)))).
    simpl. intros x [H|[H|[H|[]]]]; subst; lra.
Defined.

(** A single-element array is outside that guarantee: the read [array[-1]]
    wraps around and a target below the element yields -1. *)
Lemma nearest_index_singleton (a v : R) :
  Tools.nearest_index [a] v = Ok (if Np.ltb v a then (-1)%Z else 0%Z).
Proof.
  unfold Tools.nearest_index, Np.searchsorted. cbn [length Np.binsearch_left].
  assert (Hc : forall r : nat, Np.clip (Z.of_nat r) 1 (Z.of_nat 1 - 1) = 0%Z)
    by (intros r; unfold Np.clip; lia).
  rewrite Hc. cbn.
  by_cases_ltb (v - a) (a - v); by_cases_ltb v a; try reflexivity; lra.
Qed.

(** An empty array makes it raise. *)
Lemma nearest_index_empty (v : R) : Tools.nearest_index [] v = Raise IndexError.
Proof. reflexivity. Qed.

Lemma Rabs_below (x v : R) : x <= v -> Rabs (x - v) = v - x.
Proof. intros H. rewrite Rabs_left1; lra. Qed.

Lemma Rabs_above (x v : R) : v <= x -> Rabs (x - v) = x - v.
Proof. intros H. rewrite Rabs_right; lra. Qed.

(** C2, as the code has it. For an array sorted in ascending order and a
    value within its range, [nearest_index] returns an index whose element
    is at least as close to the value as every other element; when the value
    lies exactly midway between the two elements that straddle it, the
    index returned is the upper (right) one, because the left one is taken
    only under the strict test [value - left < right - value]. *)
Theorem nearest_index_minimizes (array : list R) (v : R) :
  ascending array ->
  array <> [] ->
  nth 0 array 0 <= v <= last array 0 ->
  exists i : nat,
    Tools.nearest_index array v = Ok (Z.of_nat i) /\
    (i < length array)%nat /\
    (forall j, (j < length array)%nat ->
               Rabs (nth i array 0 - v) <= Rabs (nth j array 0 - v)) /\
    (forall k, (1 <= k < length array)%nat ->
               nth (k - 1) array 0 < v <= nth k array 0 ->
               v - nth (k - 1) array 0 = nth k array 0 - v ->
               i = k).
Proof.
  intros Hasc Hne [Hlo Hhi].
  pose proof (ascending_monotone array Hasc) as Hmono.
  destruct array as [|a0 [|a1 rest]]; [congruence| |].
  - (* one element: the value is that element *)
    simpl in Hlo, Hhi. exists 0%nat. rewrite nearest_index_singleton.
    by_cases_ltb v a0; [lra|]. repeat split; simpl; try lia.
    intros j Hj. assert (j = 0)%nat by lia. subst. lra.
  - set (A := a0 :: a1 :: rest) in *.
    assert (Hlen : (2 <= length A)%nat) by (simpl; lia).
    pose proof (nearest_index_unfold A v Hlen) as Hu. cbv zeta in Hu.
    pose proof (clipped_point_range A v Hlen) as Hk.
    destruct (searchsorted_partition A v Hmono) as [Hbelow Habove].
    pose proof (searchsorted_le_length A v) as Hr.
    rewrite last_nth in Hhi.
    (* the value does not exceed the last element, so the search stops
       before the end *)
    assert (Hr' : (Np.searchsorted A v <= length A - 1)%nat).
    { destruct (Nat.eq_dec (Np.searchsorted A v) (length A)) as [E|E]; [|lia].
      specialize (Hbelow (length A - 1)%nat ltac:(lia)). lra. }
    set (k := clipped_point A v) in *.
    (* the two elements read straddle the value *)
    assert (Hleft : nth (k - 1) A 0 <= v).
    { destruct (Nat.eq_dec (Np.searchsorted A v) 0) as [E|E].
      - assert (k = 1)%nat by (unfold k, clipped_point; lia).
        replace (k - 1)%nat with 0%nat by lia. exact Hlo.
      - left. apply Hbelow. unfold k, clipped_point. lia. }
    assert (Hright : v <= nth k A 0).
    { apply Habove. unfold k, clipped_point. lia. }
    assert (Hunder : forall j, (j <= k - 1)%nat -> nth j A 0 <= nth (k - 1) A 0).
    { intros j Hj. apply Hmono. lia. }
    assert (Hover : forall j, (k <= j < length A)%nat -> nth k A 0 <= nth j A 0).
    { intros j Hj. apply Hmono. lia. }
    assert (Hstraddle : forall k', (1 <= k' < length A)%nat ->
              nth (k' - 1) A 0 < v <= nth k' A 0 -> k' = k).
    { intros k' Hk' [H1 H2].
      assert (~ (Np.searchsorted A v <= k' - 1)%nat).
      { intros Hc. specialize (Habove (k' - 1)%nat ltac:(lia)). lra. }
      assert (~ (k' < Np.searchsorted A v)%nat).
      { intros Hc. specialize (Hbelow k' Hc). lra. }
      unfold k, clipped_point. lia. }
    by_cases_ltb (v - nth (k - 1) A 0) (nth k A 0 - v).
    + exists (k - 1)%nat. split; [|split; [|split]].
      * rewrite Hu. simpl Np.int_of_bool. f_equal. lia.
      * lia.
      * intros j Hj. rewrite (Rabs_below _ _ Hleft).
        destruct (le_lt_dec j (k - 1)) as [Hjk|Hjk].
        -- specialize (Hunder j Hjk). rewrite Rabs_below; lra.
        -- specialize (Hover j ltac:(lia)). rewrite Rabs_above; lra.
      * intros k' Hk' Hs Htie. pose proof (Hstraddle k' Hk' Hs). subst k'. lra.
    + exists k. split; [|split; [|split]].
      * rewrite Hu. simpl Np.int_of_bool. f_equal. lia.
      * lia.
      * intros j Hj. rewrite (Rabs_above _ _ Hright).
        destruct (le_lt_dec j (k - 1)) as [Hjk|Hjk].
        -- specialize (Hunder j Hjk). rewrite Rabs_below; lra.
        -- specialize (Hover j ltac:(lia)). rewrite Rabs_above; lra.
      * intros k' Hk' Hs Htie. symmetry. now apply Hstraddle.
Qed.

Lemma nearest_index_minimizes_witness :
  exists i : nat,
    Tools.nearest_index [1; 2; 4] 3 = Ok (Z.of_nat i) /\
    (i < 3)%nat /\
    (forall j, (j < 3)%nat ->
               Rabs (nth i [1; 2; 4] 0 - 3) <= Rabs (nth j [1; 2; 4] 0 - 3)) /\
    (forall k, (1 <= k < 3)%nat ->
               nth (k - 1) [1; 2; 4] 0 < 3 <= nth k [1; 2; 4] 0 ->
               3 - nth (k - 1) [1; 2; 4] 0 = nth k [1; 2; 4] 0 - 3 ->
               i = k).
Proof.
  apply (nearest_index_minimizes [1; 2; 4] 3).
  - simpl. lra.
  - discriminate.
  - simpl. lra.
Defined.

(** Evaluation on explicit arrays: each comparison of the search, then the
    final one, is settled by linear arithmetic. *)
Ltac settle_ltb x y :=
  let H := fresh "Hcmp" in
  destruct (Np.ltb x y) eqn:H;
  [ apply ltb_true in H | apply ltb_false in H ];
  try (exfalso; simpl in H; lra); clear H.

Ltac eval_searchsorted :=
  unfold Np.searchsorted; cbn [length];
  repeat (cbn [Np.binsearch_left Nat.ltb Nat.leb Nat.sub Nat.add Nat.div
               Nat.divmod fst];
          match goal with
          | |- context [Np.ltb (nth ?m ?a ?d) ?key] => settle_ltb (nth m a d) key
          end).

Ltac eval_nearest_index :=
  rewrite nearest_index_unfold by (simpl; lia);
  unfold clipped_point; eval_searchsorted;
  cbn [length Nat.min Nat.max Nat.sub nth];
  repeat match goal with
         | |- context [Np.ltb ?x ?y] => settle_ltb x y
         end;
  try reflexivity.

(** C2, counterexample to the tie rule as the specification words it: on
    the sorted array [0, 2] the value 1 is midway between the two elements,
    and the index returned is 1, the upper neighbour, not 0. *)
Lemma nearest_index_tie_goes_up :
  ascending [0; 2] /\
  nth 0 [0; 2] 0 <= 1 <= last [0; 2] 0 /\
  1 - nth 0 [0; 2] 0 = nth 1 [0; 2] 0 - 1 /\
  Tools.nearest_index [0; 2] 1 = Ok 1%Z /\
  Tools.nearest_index [0; 2] 1 <> Ok 0%Z.
Proof.
  assert (E : Tools.nearest_index [0; 2] 1 = Ok 1%Z) by eval_nearest_index.
  repeat split; simpl; try lra.
  - exact E.
  - rewrite E. discriminate.
Qed.

(** ** [pick_side] *)

Lemma fold_Rmin_spec (t : list R) (x : R) :
  let m := fold_left Rmin t x in
  In m (x :: t) /\ forall y, In y (x :: t) -> m <= y.
Proof.
  revert x. induction t as [|z t IH]; intros x; simpl.
  - split; [now left|]. intros y [->|[]]. lra.
  - destruct (IH (Rmin x z)) as [Hin Hle]. split.
    + destruct Hin as [Hin|Hin]; [|now right; right].
      rewrite <- Hin. unfold Rmin. destruct (Rle_dec x z); auto.
    + intros y Hy.
      assert (Hm : fold_left Rmin t (Rmin x z) <= Rmin x z) by (apply Hle; now left).
      destruct Hy as [->|[->|Hy]].
      * pose proof (Rmin_l y z). lra.
      * pose proof (Rmin_r x y). lra.
      * apply Hle. now right.
Qed.

Lemma fold_Rmax_spec (t : list R) (x : R) :
  let m := fold_left Rmax t x in
  In m (x :: t) /\ forall y, In y (x :: t) -> y <= m.
Proof.
  revert x. induction t as [|z t IH]; intros x; simpl.
  - split; [now left|]. intros y [->|[]]. lra.
  - destruct (IH (Rmax x z)) as [Hin Hle]. split.
    + destruct Hin as [Hin|Hin]; [|now right; right].
      rewrite <- Hin. unfold Rmax. destruct (Rle_dec x z); auto.
    + intros y Hy.
      assert (Hm : Rmax x z <= fold_left Rmax t (Rmax x z)) by (apply Hle; now left).
      destruct Hy as [->|[->|Hy]].
      * pose proof (Rmax_l y z). lra.
      * pose proof (Rmax_r x y). lra.
      * apply Hle. now right.
Qed.

Lemma np_min_spec (a : list R) (m : R) :
  Np.min a = Ok m <-> In m a /\ forall y, In y a -> m <= y.
Proof.
  destruct a as [|x t]; simpl.
  - split; [discriminate | intros [[] _]].
  - pose proof (fold_Rmin_spec t x) as [Hin Hle]. split.
    + intros E. injection E as <-. split; assumption.
    + intros [Hm Hmle]. f_equal. apply Rle_antisym; [now apply Hle | now apply Hmle].
Qed.

Lemma np_max_spec (a : list R) (m : R) :
  Np.max a = Ok m <-> In m a /\ forall y, In y a -> y <= m.
Proof.
  destruct a as [|x t]; simpl.
  - split; [discriminate | intros [[] _]].
  - pose proof (fold_Rmax_spec t x) as [Hin Hle]. split.
    + intros E. injection E as <-. split; assumption.
    + intros [Hm Hmle]. f_equal. apply Rle_antisym; [now apply Hmle | now apply Hle].
Qed.

Lemma np_min_nonempty (a : list R) : a <> [] -> exists m, Np.min a = Ok m.
Proof. destruct a; [congruence | simpl; eauto]. Qed.

Lemma np_max_nonempty (a : list R) : a <> [] -> exists m, Np.max a = Ok m.
Proof. destruct a; [congruence | simpl; eauto]. Qed.

(** The test made on one side, in terms of its extreme wavelengths. *)
Lemma inside_min_max (side : list R) (range : R * R) (lo hi : R) :
  Np.min side = Ok lo -> Np.max side = Ok hi ->
  (inside side range <-> lo < fst range /\ snd range < hi).
Proof.
  intros Hlo Hhi. apply np_min_spec in Hlo as [Hlo1 Hlo2].
  apply np_max_spec in Hhi as [Hhi1 Hhi2]. unfold inside. split.
  - intros [[x [Hx Hxr]] [y [Hy Hyr]]].
    specialize (Hlo2 x Hx). specialize (Hhi2 y Hy). lra.
  - intros [H1 H2]. split; eauto.
Qed.

Lemma inside_nonempty (side : list R) (range : R * R) : inside side range -> side <> [].
Proof. intros [[x [Hx _]] _] ->. exact Hx. Qed.

(** What [pick_side] computes, when side 0 is not empty. *)
Lemma pick_side_cases (w : list R * list R) (range : R * R) :
  fst w <> [] ->
  (inside (fst w) range /\ Tools.pick_side w range = Ok 0%nat) \/
  (~ inside (fst w) range /\ inside (snd w) range /\
   Tools.pick_side w range = Ok 1%nat) \/
  (~ inside (fst w) range /\ ~ inside (snd w) range /\
   Tools.pick_side w range = Raise ValueError).
Proof.
  intros Hne. destruct range as [r0 r1]. unfold Tools.pick_side.
  destruct (np_min_nonempty _ Hne) as [lo0 Hlo0].
  destruct (np_max_nonempty _ Hne) as [hi0 Hhi0].
  pose proof (inside_min_max (fst w) (r0, r1) lo0 hi0 Hlo0 Hhi0) as Hin0.
  simpl in Hin0. rewrite Hlo0. cbn [bind].
  assert (Hside1 :
    ~ inside (fst w) (r0, r1) ->
    (~ inside (fst w) (r0, r1) /\ inside (snd w) (r0, r1) /\
     (cond1 <- (lo <- Np.min (snd w) ;;
                if Np.ltb lo r0
                then hi <- Np.max (snd w) ;; Ok (Np.ltb r1 hi)
                else Ok false) ;;
      if cond1 then Ok 1%nat else Raise ValueError) = Ok 1%nat) \/
    (~ inside (fst w) (r0, r1) /\ ~ inside (snd w) (r0, r1) /\
     (cond1 <- (lo <- Np.min (snd w) ;;
                if Np.ltb lo r0
                then hi <- Np.max (snd w) ;; Ok (Np.ltb r1 hi)
                else Ok false) ;;
      if cond1 then Ok 1%nat else Raise ValueError) = Raise ValueError)).
  { intros Hout. destruct (snd w) as [|y t] eqn:Hs1.
    - right. split; [assumption|]. split; [|reflexivity].
      intros Hc. now apply inside_nonempty in Hc.
    - assert (Hne1 : y :: t <> []) by discriminate.
      destruct (np_min_nonempty _ Hne1) as [lo1 Hlo1].
      destruct (np_max_nonempty _ Hne1) as [hi1 Hhi1].
      pose proof (inside_min_max (y :: t) (r0, r1) lo1 hi1 Hlo1 Hhi1) as Hin1.
      simpl in Hin1. rewrite Hlo1. cbn [bind].
      by_cases_ltb lo1 r0.
      + rewrite Hhi1. cbn [bind]. by_cases_ltb r1 hi1.
        * left. split; [assumption|]. split; [apply Hin1; lra | reflexivity].
        * right. split; [assumption|]. split; [|reflexivity].
          intros Hc. apply Hin1 in Hc. lra.
      + cbn [bind]. right. split; [assumption|]. split; [|reflexivity].
        intros Hc. apply Hin1 in Hc. lra. }
  by_cases_ltb lo0 r0.
  - rewrite Hhi0. cbn [bind]. by_cases_ltb r1 hi0.
    + left. split; [apply Hin0; lra | reflexivity].
    + right. apply Hside1. intros Hc. apply Hin0 in Hc. lra.
  - cbn [bind]. right. apply Hside1. intros Hc. apply Hin0 in Hc. lra.
Qed.

Ltac eval_min_max :=
  cbn [Np.min Np.max fold_left]; unfold Rmin, Rmax;
  repeat match goal with
         | |- context [Rle_dec ?x ?y] => destruct (Rle_dec x y)
         | H : context [Rle_dec ?x ?y] |- _ => destruct (Rle_dec x y)
         end;
  first [reflexivity | exfalso; lra].

(** C4. [pick_side] always ends, with side 0, side 1 or a [ValueError] (the
    error the source raises for a range that is not covered), and its
    outcome is fixed by the two sides and the range: a range strictly inside
    side 0 only gives 0, a range strictly inside side 1 only gives 1, and a
    range inside neither side, which includes every range that spans both,
    raises.  With side 0 covering 1260 to 1270 and side 1 covering 1025 to
    1035, the ranges (1261, 1269), (1026, 1034) and (1024, 1036) give 0, 1
    and the error. *)
Theorem pick_side_total (w : list R * list R) :
  fst w <> [] ->
  (forall range : R * R,
      (Tools.pick_side w range = Ok 0%nat \/
       Tools.pick_side w range = Ok 1%nat \/
       Tools.pick_side w range = Raise ValueError) /\
      (inside (fst w) range -> ~ inside (snd w) range ->
       Tools.pick_side w range = Ok 0%nat) /\
      (inside (snd w) range -> ~ inside (fst w) range ->
       Tools.pick_side w range = Ok 1%nat) /\
      (~ inside (fst w) range -> ~ inside (snd w) range ->
       Tools.pick_side w range = Raise ValueError)) /\
  (Np.min (fst w) = Ok 1260 -> Np.max (fst w) = Ok 1270 ->
   Np.min (snd w) = Ok 1025 -> Np.max (snd w) = Ok 1035 ->
   Tools.pick_side w (1261, 1269) = Ok 0%nat /\
   Tools.pick_side w (1026, 1034) = Ok 1%nat /\
   Tools.pick_side w (1024, 1036) = Raise ValueError).
Proof.
  intros Hne. split.
  - intros range.
    destruct (pick_side_cases w range Hne) as [[H0 E]|[[H0 [H1 E]]|[H0 [H1 E]]]];
      rewrite E; repeat split; auto; intros; tauto.
  - intros Hlo0 Hhi0 Hlo1 Hhi1.
    pose proof (fun r => inside_min_max (fst w) r _ _ Hlo0 Hhi0) as In0.
    pose proof (fun r => inside_min_max (snd w) r _ _ Hlo1 Hhi1) as In1.
    split; [|split].
    + destruct (pick_side_cases w (1261, 1269) Hne) as [[H0 E]|[[H0 [H1 E]]|[H0 [H1 E]]]];
        try exact E; exfalso; apply H0, In0; simpl; lra.
    + destruct (pick_side_cases w (1026, 1034) Hne) as [[H0 E]|[[H0 [H1 E]]|[H0 [H1 E]]]];
        try exact E; exfalso.
      * apply In0 in H0. simpl in H0. lra.
      * apply H1, In1; simpl; lra.
    + destruct (pick_side_cases w (1024, 1036) Hne) as [[H0 E]|[[H0 [H1 E]]|[H0 [H1 E]]]];
        try exact E; exfalso.
      * apply In0 in H0. simpl in H0. lra.
      * apply In1 in H1. simpl in H1. lra.
Qed.

Lemma pick_side_total_witness :
  Tools.pick_side ([1260; 1265; 1270], [1025; 1030; 1035]) (1261, 1269) = Ok 0%nat /\
  Tools.pick_side ([1260; 1265; 1270], [1025; 1030; 1035]) (1026, 1034) = Ok 1%nat /\
  Tools.pick_side ([1260; 1265; 1270], [1025; 1030; 1035]) (1024, 1036) = Raise ValueError.
Proof.
  apply (proj2 (pick_side_total ([1260; 1265; 1270], [1025; 1030; 1035])
                  ltac:(discriminate))); cbn [fst snd]; eval_min_max.
Defined.

(** The test is strict: a range that reaches the first or the last
    wavelength of a side is not inside it. *)
Lemma pick_side_boundary :
  Tools.pick_side ([1260; 1265; 1270], [1025; 1030; 1035]) (1260, 1270)
  = Raise ValueError.
Proof.
  destruct (pick_side_cases ([1260; 1265; 1270], [1025; 1030; 1035]) (1260, 1270)
              ltac:(discriminate)) as [[H0 E]|[[H0 [H1 E]]|[H0 [H1 E]]]];
    try exact E; exfalso.
  - assert (Hlo : Np.min [1260; 1265; 1270] = Ok 1260) by eval_min_max.
    assert (Hhi : Np.max [1260; 1265; 1270] = Ok 1270) by eval_min_max.
    apply (inside_min_max _ _ _ _ Hlo Hhi) in H0. simpl in H0. lra.
  - assert (Hlo : Np.min [1025; 1030; 1035] = Ok 1025) by eval_min_max.
    assert (Hhi : Np.max [1025; 1030; 1035] = Ok 1035) by eval_min_max.
    apply (inside_min_max _ _ _ _ Hlo Hhi) in H1. simpl in H1. lra.
Qed.

(** An empty side 0 makes [np.min] raise before side 1 is looked at. *)
Lemma pick_side_empty_side0 (side1 : list R) (range : R * R) :
  Tools.pick_side ([], side1) range = Raise ValueError.
Proof. destruct range. reflexivity. Qed.

(** ** Element-wise arithmetic *)

Lemma ufunc2_same_length (f : R -> R -> R) (a b : list R) :
  length a = length b ->
  Np.ufunc2 f a b = Ok (map (fun p => f (fst p) (snd p)) (combine a b)).
Proof. intros H. unfold Np.ufunc2. rewrite H, Nat.eqb_refl. reflexivity. Qed.

Lemma length_map2 (f : R -> R -> R) (a b : list R) :
  length a = length b ->
  length (map (fun p => f (fst p) (snd p)) (combine a b)) = length a.
Proof. intros H. rewrite length_map, length_combine, <- H. apply Nat.min_id. Qed.

Lemma nth_map2 (f : R -> R -> R) (a b : list R) (i : nat) :
  length a = length b -> (i < length a)%nat ->
  nth i (map (fun p => f (fst p) (snd p)) (combine a b)) 0
  = f (nth i a 0) (nth i b 0).
Proof.
  revert b i. induction a as [|x a IH]; intros [|y b] i Hlen Hi;
    simpl in *; try lia.
  destruct i as [|i]; [reflexivity|]. apply IH; lia.
Qed.

Lemma nth_map_lt (f : R -> R) (a : list R) (i : nat) :
  (i < length a)%nat -> nth i (map f a) 0 = f (nth i a 0).
Proof.
  intros Hi. rewrite (nth_indep _ 0 (f 0)) by (now rewrite length_map).
  apply map_nth.
Qed.

(** ** [compute_proper_error] *)

Ltac solve_length :=
  cbn [Np.rows_map fst snd];
  repeat rewrite ?length_map, ?length_combine; lia.

(** In the [sunburn] package the error of every pixel becomes
    [(gross_counts + 1) ** 0.5] times the sensitivity
    [flux / (net + shift_net) / exp_time], where [shift_net] is [1e-7]
    unless the caller gives another value. *)
Lemma sunburn_compute_proper_error (self : Sunburn.COSSpectrum)
    (shift_net : option R) :
  let s := Sunburn.uv self in
  let shift := match shift_net with Some v => v | None => 1e-7 end in
  same_shape (Sunburn.flux s) (Sunburn.net s) ->
  same_shape (Sunburn.flux s) (Sunburn.gross_counts s) ->
  exists self' sens,
    Sunburn.compute_proper_error self shift_net = Ok self' /\
    Sunburn.sensitivity self' = Some sens /\
    same_shape (Sunburn.error (Sunburn.uv self')) (Sunburn.flux s) /\
    Sunburn.flux (Sunburn.uv self') = Sunburn.flux s /\
    forall k i, (k < 2)%nat -> (i < side_length (Sunburn.flux s) k)%nat ->
      pixel sens k i
      = pixel (Sunburn.flux s) k i / (pixel (Sunburn.net s) k i + shift)
        / Sunburn.exp_time s /\
      pixel (Sunburn.error (Sunburn.uv self')) k i
      = sqrt (pixel (Sunburn.gross_counts s) k i + 1) * pixel sens k i.
Proof.
  intros s shift [Hn0 Hn1] [Hg0 Hg1].
  unfold Sunburn.compute_proper_error. fold s.
  replace (match shift_net with Some v => v | None => Sunburn.default_shift_net end)
    with shift by (destruct shift_net; reflexivity).
  unfold Np.rows_ufunc2 at 1. cbn [Np.rows_map fst snd].
  rewrite !ufunc2_same_length by solve_length.
  cbn [bind].
  unfold Np.rows_ufunc2. cbn [Np.rows_map fst snd].
  rewrite !ufunc2_same_length by solve_length.
  cbn [bind]. eexists. eexists. split; [reflexivity|].
  cbn [Sunburn.sensitivity Sunburn.uv Sunburn.set_error Sunburn.error Sunburn.flux].
  split; [reflexivity|]. split; [|split; [reflexivity|]].
  - unfold same_shape. cbn [fst snd]. split; solve_length.
  - intros k i Hk Hi.
    assert (Hsens : forall (fl nt : list R), length fl = length nt ->
              (i < length fl)%nat ->
              nth i (map (fun x => x / Sunburn.exp_time s)
                       (map (fun p => fst p / snd p)
                          (combine fl (map (fun x => x + shift) nt)))) 0
              = nth i fl 0 / (nth i nt 0 + shift) / Sunburn.exp_time s).
    { intros fl nt Hl Hlt.
      rewrite nth_map_lt by solve_length.
      rewrite (nth_map2 Rdiv) by solve_length.
      now rewrite nth_map_lt by lia. }
    assert (Herr : forall (gr sn : list R), length gr = length sn ->
              (i < length gr)%nat ->
              nth i (map (fun p => fst p * snd p)
                       (combine (map (fun g => sqrt (g + 1)) gr) sn)) 0
              = sqrt (nth i gr 0 + 1) * nth i sn 0).
    { intros gr sn Hl Hlt.
      rewrite (nth_map2 Rmult) by solve_length.
      now rewrite nth_map_lt by lia. }
    unfold pixel, side_length in *. cbn [fst snd].
    destruct k as [|[|k]]; [| |lia]; split.
    + apply Hsens; assumption.
    + apply Herr; [solve_length | lia].
    + apply Hsens; assumption.
    + apply Herr; [solve_length | lia].
Qed.

(** The scenario of the specification: no gross count, flux [1e-14], net
    count rate [1e-15] and an exposure of 1000 s give an error of about
    [1e-10] with the default [shift_net]. *)
Lemma sunburn_compute_proper_error_scenario :
  exists self',
    Sunburn.compute_proper_error scenario_sunburn None = Ok self' /\
    forall k i, (k < 2)%nat ->
      (i < side_length (Sunburn.flux scenario_uv) k)%nat ->
      Rabs (pixel (Sunburn.error (Sunburn.uv self')) k i - 1e-10) < 1e-17.
Proof.
  destruct (sunburn_compute_proper_error scenario_sunburn None)
    as (self' & sens & E & _ & _ & _ & Hpix).
  - split; reflexivity.
  - split; reflexivity.
  - exists self'. split; [exact E|]. intros k i Hk Hi.
    destruct (Hpix k i Hk Hi) as [Hs He]. rewrite He, Hs. clear Hpix Hs He E.
    assert (Hsqrt : sqrt (0 + 1) = 1) by (rewrite Rplus_0_l; apply sqrt_1).
    destruct k as [|[|k]]; [| |lia];
      unfold side_length, scenario_uv, scenario_blastoise in Hi; cbn in Hi.
    + destruct i as [|i]; [|lia]. cbn [pixel scenario_sunburn scenario_uv
        Sunburn.uv Sunburn.flux Sunburn.net Sunburn.gross_counts
        Sunburn.exp_time fst snd nth].
      rewrite Hsqrt. apply Rabs_def1; lra.
    + destruct i as [|[|i]]; [| |lia]; cbn [pixel scenario_sunburn scenario_uv
        Sunburn.uv Sunburn.flux Sunburn.net Sunburn.gross_counts
        Sunburn.exp_time fst snd nth];
      rewrite Hsqrt; apply Rabs_def1; lra.
Qed.

(** C1 in the [blastoise] copy, on the same values: [compute_proper_error]
    divides the flux by the net count rate itself, without [shift_net], and
    the error of every pixel comes out as [0.01], far from the value
    [(gross_counts + 1) ** 0.5 * flux / (net + 1e-7) / exp_time], which is
    about [1e-10]. *)
Theorem blastoise_compute_proper_error_no_floor :
  exists self',
    Blastoise.compute_proper_error scenario_blastoise = Ok self' /\
    Blastoise.error self' = ([1 / 100], [1 / 100; 1 / 100]) /\
    forall k i, (k < 2)%nat ->
      (i < side_length (Blastoise.flux scenario_blastoise) k)%nat ->
      sqrt (pixel (Blastoise.gross_counts scenario_blastoise) k i + 1)
      * (pixel (Blastoise.flux scenario_blastoise) k i
         / (pixel (Blastoise.net scenario_blastoise) k i + 1e-7)
         / (if k =? 0 then fst (Blastoise.exp_time scenario_blastoise)
            else snd (Blastoise.exp_time scenario_blastoise))%nat)
      < 1e-9 /\
      1e-9 < pixel (Blastoise.error self') k i.
Proof.
  assert (Hsqrt : sqrt (0 + 1) = 1) by (rewrite Rplus_0_l; apply sqrt_1).
  eexists. split; [|split].
  - unfold Blastoise.compute_proper_error, scenario_blastoise.
    cbn. reflexivity.
  - cbn [Blastoise.error].
    repeat match goal with
           | |- context [sqrt (0 + 1) * ?x] =>
               replace (sqrt (0 + 1) * x) with (1 / 100) by (rewrite Hsqrt; lra)
           end.
    reflexivity.
  - intros k i Hk Hi. cbn [Blastoise.error].
    destruct k as [|[|k]]; [| |lia];
      unfold side_length, scenario_uv, scenario_blastoise in Hi; cbn in Hi.
    + destruct i as [|i]; [|lia]. cbn. rewrite Hsqrt. lra.
    + destruct i as [|[|i]]; [| |lia]; cbn; rewrite Hsqrt; lra.
Qed.

(** ** [Visit] *)

Lemma visit_loop_not_cos (fs : Sunburn.Files) (names : list string)
    (instrument : string) (good_pixel_limits : option Sunburn.limits)
    (prefix : option string) (compute_error : bool)
    (orbit orbit' : list (string * Sunburn.COSSpectrum)) (log log' : list string) :
  String.eqb instrument "cos" = false ->
  Sunburn.Visit_init_loop fs names instrument good_pixel_limits prefix
    compute_error orbit log = (Ok orbit', log') ->
  orbit' = orbit /\ log' = log.
Proof.
  intros Hcos. revert orbit log.
  induction names as [|name rest IH]; intros orbit log H.
  - cbn in H. injection H as <- <-. split; reflexivity.
  - cbn [Sunburn.Visit_init_loop] in H. rewrite Hcos in H.
    destruct (String.eqb instrument "stis").
    + cbn in H. discriminate.
    + cbn in H. now apply IH.
Qed.

(** C10. With the instrument ['stis'] and at least one dataset name, the
    constructor of [Visit] raises [NotImplementedError], and it does so
    before any file is opened: the log of opened paths is unchanged.  More
    generally a visit that the constructor does return for an instrument
    other than ['cos'] has an empty [orbit], so no visit built by the
    constructor holds STIS data. *)
Theorem visit_stis_not_implemented (fs : Sunburn.Files) (names : list string)
    (good_pixel_limits : option Sunburn.limits) (prefix : option string)
    (compute_error : bool) (log : list string) :
  (names <> [] ->
   Sunburn.Visit_init fs names "stis" good_pixel_limits prefix compute_error log
   = (Raise NotImplementedError, log)) /\
  (forall instrument visit log',
      String.eqb instrument "cos" = false ->
      Sunburn.Visit_init fs names instrument good_pixel_limits prefix
        compute_error log = (Ok visit, log') ->
      Sunburn.orbit visit = [] /\ log' = log).
Proof.
  split.
  - intros Hne. destruct names as [|name rest]; [congruence|]. reflexivity.
  - intros instrument visit log' Hcos H.
    unfold Sunburn.Visit_init, Sunburn.io_bind in H.
    destruct (Sunburn.Visit_init_loop fs names instrument good_pixel_limits
                prefix compute_error [] log) as [[orbit'|e] log1] eqn:E.
    + apply (visit_loop_not_cos _ _ _ _ _ _ _ _ _ _ Hcos) in E as [-> ->].
      cbn in H. injection H as <- <-. split; reflexivity.
    + discriminate.
Qed.

Lemma visit_stis_not_implemented_witness :
  Sunburn.Visit_init (example_files 2458000 2458001)
    ["ldxr01abq"; "ldxr01acq"]%string "stis" None None true []
  = (Raise NotImplementedError, []).
Proof.
  apply (proj1 (visit_stis_not_implemented (example_files 2458000 2458001)
                  ["ldxr01abq"; "ldxr01acq"]%string None None true [])).
  discriminate.
Defined.

(** In the [blastoise] copy a visit starts empty and [append_orbit] cannot
    take the attribute-less [STISSpectrum]. *)
Lemma blastoise_append_stis (visit : Blastoise.Visit) (s : Blastoise.STISSpectrum) :
  Blastoise.append_orbit visit (Blastoise.STIS s) = Raise AttributeError.
Proof. reflexivity. Qed.

(** ** Time-tag splits *)

Lemma cos_init_stamped (fs : Sunburn.Files) (prefix name : string)
    (gpl : option Sunburn.limits) (t0 t1 : R) (log : list string) :
  files_stamped fs prefix name t0 t1 ->
  exists obj log',
    Sunburn.COSSpectrum_init fs name gpl (Some prefix) log = (Ok obj, log') /\
    Sunburn.start_JD (Sunburn.uv obj) = t0 /\
    Sunburn.end_JD (Sunburn.uv obj) = t1.
Proof.
  intros [Hx Hc].
  unfold Sunburn.COSSpectrum_init, Sunburn.UVSpectrum_init, Sunburn.io_bind,
    Sunburn.open_x1d, Sunburn.open_corrtag, Sunburn.io_ret.
  destruct (Sunburn.x1d_files fs _) as [d|]; [|congruence].
  rewrite Hc. eexists. eexists. split; [reflexivity|]. split; reflexivity.
Qed.

Lemma stamp_split_offsets (t0 t1 step : R) (n i : nat) (obj : Sunburn.COSSpectrum) :
  Sunburn.start_JD (Sunburn.uv obj) = t0 ->
  Sunburn.end_JD (Sunburn.uv obj) = t1 ->
  (i < n)%nat ->
  let sp := Sunburn.stamp_split (Sunburn.seconds_to_days step) n i obj in
  start_offset t0 sp = INR i * step /\
  end_offset t0 sp = (t1 - t0) * 86400 - INR (n - i - 1) * step /\
  duration sp = (t1 - t0) * 86400 - INR (n - 1) * step.
Proof.
  intros H0 H1 Hi sp. unfold start_offset, end_offset, duration, sp.
  cbn [Sunburn.stamp_split Sunburn.uv Sunburn.set_JD Sunburn.start_JD
       Sunburn.end_JD].
  rewrite H0, H1. unfold Sunburn.seconds_to_days.
  replace (INR (n - 1)) with (INR (n - i - 1) + INR i)
    by (rewrite <- plus_INR; f_equal; lia).
  repeat split; field.
Qed.

(** The loop shared by [time_tag_split] and [assign_splits]: each turn
    loads a split whose file carries the times [t0] and [t1] and stamps it. *)
Lemma split_loop_stamped (body : nat -> Sunburn.io Sunburn.COSSpectrum)
    (t0 t1 step : R) (n : nat) (indices : list nat) (log : list string) :
  (forall i, In i indices ->
     (i < n)%nat /\
     forall lg, exists obj lg',
       body i lg
       = (Ok (Sunburn.stamp_split (Sunburn.seconds_to_days step) n i obj), lg') /\
       Sunburn.start_JD (Sunburn.uv obj) = t0 /\
       Sunburn.end_JD (Sunburn.uv obj) = t1) ->
  exists splits log',
    Sunburn.io_for_each body indices log = (Ok splits, log') /\
    length splits = length indices /\
    forall j, (j < length indices)%nat ->
      exists sp, nth_error splits j = Some sp /\
        start_offset t0 sp = INR (nth j indices 0%nat) * step /\
        end_offset t0 sp
        = (t1 - t0) * 86400 - INR (n - nth j indices 0%nat - 1) * step /\
        duration sp = (t1 - t0) * 86400 - INR (n - 1) * step.
Proof.
  revert log. induction indices as [|i rest IH]; intros log Hall.
  - exists [], log. split; [reflexivity|]. split; [reflexivity|].
    intros j Hj. simpl in Hj. lia.
  - destruct (Hall i (or_introl eq_refl)) as [Hi Hbody].
    destruct (Hbody log) as (obj & log1 & Ebody & Hs & He).
    destruct (IH log1 (fun k Hk => Hall k (or_intror Hk)))
      as (splits & log' & Eloop & Hlen & Hnth).
    cbn [Sunburn.io_for_each]. unfold Sunburn.io_bind at 1. rewrite Ebody.
    unfold Sunburn.io_bind at 1. rewrite Eloop. cbn [Sunburn.io_ret].
    eexists. eexists. split; [reflexivity|]. split; [simpl; lia|].
    intros [|j] Hj.
    + eexists. split; [reflexivity|]. cbn [nth].
      now apply stamp_split_offsets.
    + simpl in Hj. destruct (Hnth j ltac:(lia)) as (sp & E & H).
      exists sp. split; [exact E | exact H].
Qed.


Lemma with_slash_nonempty (path dir : string) :
  Sunburn.with_slash path = Ok dir -> String.eqb path "" = false.
Proof. destruct path; [discriminate | reflexivity]. Qed.

(** What [time_tag_split] leaves in [split] when every split file carries
    the times [t0] and [t1]. *)
Lemma time_tag_split_stamps (fs : Sunburn.Files) (self : Sunburn.COSSpectrum)
    (n : nat) (out_dir slashed : string) (t0 t1 : R) (log : list string) :
  let s := Sunburn.uv self in
  let dir := (Sunburn.prefix s ++ slashed)%string in
  Sunburn.with_slash out_dir = Ok slashed ->
  (forall i, (i < n)%nat ->
     files_stamped fs dir
       (Sunburn.dataset_name s ++ "_" ++ Sunburn.string_of_nat (i + 1))%string
       t0 t1) ->
  exists self' splits log',
    Sunburn.time_tag_split fs self n out_dir log = (Ok self', log') /\
    Sunburn.split self' = Some splits /\
    Sunburn.uv self' = s /\
    stamped_from_both_ends t0 t1 (Sunburn.exp_time s) n splits.
Proof.
  intros s dir Hslash Hfiles. unfold Sunburn.time_tag_split.
  rewrite (with_slash_nonempty _ _ Hslash), Hslash.
  unfold Sunburn.io_bind at 1. cbn [Sunburn.io_lift]. fold s. fold dir.
  set (step := Sunburn.exp_time s / INR n).
  match goal with
  | |- context [Sunburn.io_for_each ?b (seq 0 n)] => set (body := b)
  end.
  destruct (split_loop_stamped body t0 t1 step n (seq 0 n) log)
    as (splits & log' & Eloop & Hlen & Hnth).
  { intros i Hi. apply in_seq in Hi. split; [lia|]. intros lg.
    destruct (cos_init_stamped fs dir _ (Some Sunburn.default_good_pixel_limits)
                t0 t1 lg (Hfiles i ltac:(lia))) as (obj & lg' & E & Hs & He).
    exists obj, lg'. unfold body, Sunburn.io_bind. rewrite E.
    repeat split; assumption. }
  unfold Sunburn.io_bind at 1. rewrite Eloop. cbn [Sunburn.io_ret].
  eexists. exists splits. eexists. split; [reflexivity|].
  split; [reflexivity|]. split; [reflexivity|].
  rewrite length_seq in Hlen, Hnth. split; [exact Hlen|].
  intros i Hi. destruct (Hnth i Hi) as (sp & E & H1 & H2 & H3).
  rewrite seq_nth in H1, H2 by lia. simpl in H1, H2.
  exists sp. repeat split; assumption.
Qed.




Lemma example_files_stamped (t0 t1 : R) (prefix name : string) :
  files_stamped (example_files t0 t1) prefix name t0 t1.
Proof. split; [discriminate | reflexivity]. Qed.


(** The scenario of the specification: an exposure of 1200 s whose event
    file spans 1200 s, split in 3, gives the offsets 0 to 400 s, 400 to
    800 s and 800 to 1200 s from the parent's start. *)
Lemma split_1200_in_3 :
  exists self' sp0 sp1 sp2 log',
    Sunburn.time_tag_split (example_files 2458000 (2458000 + 1200 / 86400))
      (example_parent 1200 1200) 3 "splits" [] = (Ok self', log') /\
    Sunburn.split self' = Some [sp0; sp1; sp2] /\
    start_offset 2458000 sp0 = 0 /\ end_offset 2458000 sp0 = 400 /\
    start_offset 2458000 sp1 = 400 /\ end_offset 2458000 sp1 = 800 /\
    start_offset 2458000 sp2 = 800 /\ end_offset 2458000 sp2 = 1200.
Proof.
  destruct (time_tag_split_stamps (example_files 2458000 (2458000 + 1200 / 86400))
              (example_parent 1200 1200) 3 "splits" "splits/" 2458000
              (2458000 + 1200 / 86400) [] eq_refl)
    as (self' & splits & log' & E & Hs & _ & Hlen & Hall).
  { intros i Hi. apply example_files_stamped. }
  destruct splits as [|sp0 [|sp1 [|sp2 [|sp3 rest]]]]; try (simpl in Hlen; lia).
  exists self', sp0, sp1, sp2, log'. split; [exact E|]. split; [exact Hs|].
  destruct (Hall 0%nat ltac:(lia)) as (x0 & E0 & Hs0 & He0 & _).
  destruct (Hall 1%nat ltac:(lia)) as (x1 & E1 & Hs1 & He1 & _).
  destruct (Hall 2%nat ltac:(lia)) as (x2 & E2 & Hs2 & He2 & _).
  injection E0 as <-. injection E1 as <-. injection E2 as <-.
  cbn in Hs0, He0, Hs1, He1, Hs2, He2.
  rewrite Hs0, He0, Hs1, He1, Hs2, He2. repeat split; lra.
Qed.


(** ** Monotonicity of [nearest_index] and slices *)

Lemma nearest_index_nearest (array : list R) (v : R) :
  (2 <= length array)%nat ->
  Tools.nearest_index array v = Ok (Z.of_nat (nearest array v)) /\
  (nearest array v < length array)%nat.
Proof.
  intros Hlen. rewrite (nearest_index_unfold array v Hlen). cbv zeta.
  pose proof (clipped_point_range array v Hlen) as Hk. unfold nearest.
  destruct (Np.ltb _ _); cbn [Np.int_of_bool]; split; try lia; f_equal; lia.
Qed.

Lemma searchsorted_monotone (a : list R) (v1 v2 : R) :
  monotone a -> v1 <= v2 ->
  (Np.searchsorted a v1 <= Np.searchsorted a v2)%nat.
Proof.
  intros Hmono Hv.
  destruct (searchsorted_partition a v1 Hmono) as [Hb1 _].
  destruct (searchsorted_partition a v2 Hmono) as [_ Ha2].
  pose proof (searchsorted_le_length a v1) as Hr1.
  destruct (le_lt_dec (Np.searchsorted a v1) (Np.searchsorted a v2)) as [H|H];
    [exact H|].
  specialize (Hb1 _ H). specialize (Ha2 (Np.searchsorted a v2) ltac:(lia)). lra.
Qed.

Lemma nearest_monotone (a : list R) (v1 v2 : R) :
  monotone a -> (2 <= length a)%nat -> v1 <= v2 ->
  (nearest a v1 <= nearest a v2)%nat.
Proof.
  intros Hmono Hlen Hv.
  pose proof (searchsorted_monotone a v1 v2 Hmono Hv) as Hss.
  pose proof (clipped_point_range a v1 Hlen) as Hk1.
  pose proof (clipped_point_range a v2 Hlen) as Hk2.
  assert (Hk : (clipped_point a v1 <= clipped_point a v2)%nat)
    by (unfold clipped_point in *; lia).
  unfold nearest.
  destruct (Nat.eq_dec (clipped_point a v1) (clipped_point a v2)) as [E|E].
  - rewrite E.
    by_cases_ltb (v2 - nth (clipped_point a v2 - 1) a 0)
                 (nth (clipped_point a v2) a 0 - v2).
    + by_cases_ltb (v1 - nth (clipped_point a v2 - 1) a 0)
                   (nth (clipped_point a v2) a 0 - v1); [lia | lra].
    + destruct (Np.ltb _ _); lia.
  - destruct (Np.ltb _ _), (Np.ltb _ _); lia.
Qed.

Lemma slice_Z_nat {A : Type} (a : list A) (i j : nat) :
  (i <= length a)%nat -> (j <= length a)%nat ->
  Np.slice_Z a (Z.of_nat i) (Z.of_nat j) = Np.slice a i j.
Proof.
  intros Hi Hj. unfold Np.slice_Z.
  assert (Hn : forall k : nat, (k <= length a)%nat ->
            Z.to_nat (Z.min (Z.of_nat (length a))
                        (Z.max 0 (if (Z.of_nat k <? 0)%Z
                                  then (Z.of_nat k + Z.of_nat (length a))%Z
                                  else Z.of_nat k))) = k).
  { intros k Hk. destruct (Z.ltb_spec (Z.of_nat k) 0); lia. }
  now rewrite !Hn.
Qed.

Lemma length_slice {A : Type} (a : list A) (i j : nat) :
  (j <= length a)%nat -> length (Np.slice a i j) = (j - i)%nat.
Proof. intros Hj. unfold Np.slice. rewrite length_firstn, length_skipn. lia. Qed.

Lemma nth_slice (a : list R) (i j m : nat) :
  (m < j - i)%nat -> nth m (Np.slice a i j) 0 = nth (i + m) a 0.
Proof.
  intros Hm. unfold Np.slice. rewrite nth_firstn.
  destruct (Nat.ltb_spec m (j - i)); [|lia]. apply nth_skipn.
Qed.

(** A side that strictly contains a range [lo <= hi] has two elements or
    more. *)
Lemma inside_two_elements (side : list R) (range : R * R) :
  fst range <= snd range -> inside side range -> (2 <= length side)%nat.
Proof.
  intros Hr [[x [Hx Hxr]] [y [Hy Hyr]]].
  destruct side as [|a [|b t]]; simpl in *; try lia; try tauto.
  destruct Hx as [<-|[]], Hy as [<-|[]]. lra.
Qed.

Lemma pick_side_inside (w : list R * list R) (range : R * R) (k : nat) :
  Tools.pick_side w range = Ok k ->
  exists side, Np.row w k = Ok side /\ inside side range.
Proof.
  intros H. destruct (fst w) as [|x t] eqn:E.
  - destruct w as [w0 w1]. simpl in E. subst.
    rewrite pick_side_empty_side0 in H. discriminate.
  - assert (Hne : fst w <> []) by (rewrite E; discriminate).
    destruct (pick_side_cases w range Hne) as [[H0 E0]|[[H0 [H1 E1]]|[H0 [H1 E1]]]];
      rewrite H in *.
    + injection E0 as ->. exists (fst w). split; [reflexivity|assumption].
    + injection E1 as ->. exists (snd w). split; [reflexivity|assumption].
    + discriminate.
Qed.

(** ** [extract_wl] against the slices of [integrated_flux] *)

Lemma simps_nonempty (rule : list R -> list R -> R) (y x : list R) :
  length x = length y /\ (1 <= length y)%nat ->
  Scipy.simps rule y x = Ok (rule y x).
Proof.
  intros [Hl Hn]. unfold Scipy.simps. rewrite Hl, Nat.eqb_refl. cbn [negb].
  destruct (Nat.eqb_spec (length y) 0); [lia | reflexivity].
Qed.

Lemma simps_empty (rule : list R -> list R -> R) (y x : list R) :
  length x = 0%nat /\ length y = 0%nat ->
  Scipy.simps rule y x = Raise IndexError.
Proof.
  intros [Hx Hy]. unfold Scipy.simps. rewrite Hx, Hy. reflexivity.
Qed.

(** C8. For a range [lo <= hi] that [pick_side] finds on one side, whose
    wavelengths ascend, [extract_wl] returns the wavelengths from the
    nearest index of [lo] up to and including the nearest index of [hi],
    whereas the flux and error slices that [integrated_flux] integrates
    stop before that index: the wavelength slice is one element longer.
    [integrated_flux] returns Simpson's rule on these slices when they hold
    a pixel; when both bounds have the same nearest index the slices are
    empty and it raises [IndexError], while [extract_wl] still returns
    one wavelength. *)
Theorem extract_wl_one_longer
    (simps : list R -> list R -> R)
    (bootstrap : list R -> list R -> list R -> R)
    (self : Sunburn.UVSpectrum) (range : R * R) (k : nat) (w f e : list R) :
  fst range <= snd range ->
  Tools.pick_side (Sunburn.wavelength self) range = Ok k ->
  Np.row (Sunburn.wavelength self) k = Ok w ->
  Np.row (Sunburn.flux self) k = Ok f ->
  Np.row (Sunburn.error self) k = Ok e ->
  ascending w ->
  length f = length w ->
  length e = length w ->
  let min_wl := nearest w (fst range) in
  let max_wl := nearest w (snd range) in
  Tools.nearest_index w (fst range) = Ok (Z.of_nat min_wl) /\
  Tools.nearest_index w (snd range) = Ok (Z.of_nat max_wl) /\
  (min_wl <= max_wl < length w)%nat /\
  Sunburn.extract_wl self range = Ok (Np.slice w min_wl (max_wl + 1)) /\
  nth (max_wl - min_wl) (Np.slice w min_wl (max_wl + 1)) 0 = nth max_wl w 0 /\
  (exists win,
     Sunburn.extract_window self range = Ok win /\
     Sunburn.window_flux win = Np.slice f min_wl max_wl /\
     Sunburn.window_error win = Np.slice e min_wl max_wl /\
     Sunburn.window_wavelength win = Np.slice w min_wl max_wl /\
     ((min_wl < max_wl)%nat ->
      exists u,
        Sunburn.integrated_flux simps bootstrap self (Some range) None None 0
          "quadratic_sum"
        = Ok (simps (Np.slice f min_wl max_wl) (Np.slice w min_wl max_wl),
              u)) /\
     (min_wl = max_wl ->
      Sunburn.integrated_flux simps bootstrap self (Some range) None None 0
        "quadratic_sum" = Raise IndexError)) /\
  length (Np.slice f min_wl max_wl) = (max_wl - min_wl)%nat /\
  length (Np.slice e min_wl max_wl) = (max_wl - min_wl)%nat /\
  length (Np.slice w min_wl (max_wl + 1))
  = S (length (Np.slice f min_wl max_wl)).
Proof.
  intros Hr Hpick Hw Hf He Hasc Hlf Hle min_wl max_wl.
  destruct (pick_side_inside _ _ _ Hpick) as (side & Hside & Hin).
  rewrite Hw in Hside. injection Hside as <-.
  pose proof (inside_two_elements w range Hr Hin) as Hlen.
  pose proof (ascending_monotone w Hasc) as Hmono.
  destruct (nearest_index_nearest w (fst range) Hlen) as [Emin Hmin].
  destruct (nearest_index_nearest w (snd range) Hlen) as [Emax Hmax].
  pose proof (nearest_monotone w _ _ Hmono Hlen Hr) as Hle_idx.
  fold min_wl in Emin, Hmin, Hle_idx. fold max_wl in Emax, Hmax, Hle_idx.
  assert (Hwin_slices :
    forall a : list R, length a = length w ->
      Np.slice_Z a (Z.of_nat min_wl) (Z.of_nat max_wl) = Np.slice a min_wl max_wl).
  { intros a Ha. apply slice_Z_nat; lia. }
  split; [exact Emin|]. split; [exact Emax|]. split; [lia|].
  split; [|split; [|split; [|split; [|split]]]].
  - unfold Sunburn.extract_wl. rewrite Hpick. cbn [bind]. rewrite Hw. cbn [bind].
    rewrite Emin, Emax. cbn [bind].
    replace (Z.of_nat max_wl + 1)%Z with (Z.of_nat (max_wl + 1)) by lia.
    rewrite slice_Z_nat by lia. reflexivity.
  - rewrite nth_slice by lia. f_equal. lia.
  - assert (Hdelta : exists delta,
              Np.ufunc2 Rminus (Np.slice_Z w 1 (Z.of_nat (length w)))
                (Np.slice_Z w 0 (-1)) = Ok delta /\
              length delta = (length w - 1)%nat).
    { change 1%Z with (Z.of_nat 1). change 0%Z with (Z.of_nat 0).
      rewrite slice_Z_nat by lia.
      assert (E1 : Np.slice_Z w (Z.of_nat 0) (-1) = Np.slice w 0 (length w - 1)).
      { unfold Np.slice_Z. change (Z.of_nat 0 <? 0)%Z with false.
        change (-1 <? 0)%Z with true. cbv iota. f_equal; lia. }
      rewrite E1.
      rewrite ufunc2_same_length by (rewrite !length_slice by lia; lia).
      eexists. split; [reflexivity|].
      rewrite length_map, length_combine, !length_slice by lia. lia. }
    destruct Hdelta as (delta & Edelta & Hdl).
    assert (Ewin : Sunburn.extract_window self range =
              Ok {| Sunburn.window_wavelength := Np.slice w min_wl max_wl;
                    Sunburn.window_flux := Np.slice f min_wl max_wl;
                    Sunburn.window_error := Np.slice e min_wl max_wl;
                    Sunburn.window_delta_wl := Np.slice delta min_wl max_wl |}).
    { unfold Sunburn.extract_window. rewrite Hpick. cbn [bind].
      rewrite Hw. cbn [bind]. rewrite Emin, Emax. cbn [bind].
      rewrite Edelta. cbn [bind]. rewrite Hf, He. cbn [bind].
      rewrite !Hwin_slices by lia.
      rewrite (slice_Z_nat delta) by lia. reflexivity. }
    eexists. split; [exact Ewin|].
    cbn [Sunburn.window_flux Sunburn.window_error Sunburn.window_wavelength].
    repeat (split; [reflexivity|]).
    split.
    + intros Hlt. unfold Sunburn.integrated_flux. cbn [bind].
      rewrite Ewin. cbn [bind].
      cbn [Sunburn.window_flux Sunburn.window_error
           Sunburn.window_wavelength Sunburn.window_delta_wl].
      rewrite simps_nonempty by (rewrite !length_slice by lia; lia).
      cbn [bind].
      change (String.eqb "quadratic_sum" "quadratic_sum") with true.
      cbv iota.
      rewrite ufunc2_same_length by (rewrite !length_slice by lia; lia).
      cbn [bind]. eexists. reflexivity.
    + intros Heq. unfold Sunburn.integrated_flux. cbn [bind].
      rewrite Ewin. cbn [bind].
      cbn [Sunburn.window_flux Sunburn.window_error
           Sunburn.window_wavelength Sunburn.window_delta_wl].
      rewrite simps_empty by (rewrite !length_slice by lia; lia).
      reflexivity.
  - apply length_slice. lia.
  - apply length_slice. lia.
  - rewrite !length_slice by lia. lia.
Qed.

Ltac eval_nearest :=
  unfold nearest, clipped_point; eval_searchsorted;
  cbn [length Nat.min Nat.max Nat.sub nth];
  repeat match goal with
         | |- context [Np.ltb ?x ?y] => settle_ltb x y
         end;
  try reflexivity.

Lemma example_uv_pick_side :
  Tools.pick_side (Sunburn.wavelength example_uv) (1261.5, 1268.5) = Ok 0%nat.
Proof.
  destruct (pick_side_cases (Sunburn.wavelength example_uv) (1261.5, 1268.5)
              ltac:(discriminate)) as [[H0 E]|[[H0 [H1 E]]|[H0 [H1 E]]]];
    try exact E; exfalso; apply H0;
    (split; [exists 1260 | exists 1270];
     (split; [simpl; repeat (first [left; reflexivity | right]) | simpl; lra])).
Qed.

Lemma extract_wl_one_longer_witness :
  let w := [1260; 1262; 1264; 1266; 1268; 1270] in
  let min_wl := nearest w 1261.5 in
  let max_wl := nearest w 1268.5 in
  Tools.nearest_index w 1261.5 = Ok (Z.of_nat min_wl) /\
  Tools.nearest_index w 1268.5 = Ok (Z.of_nat max_wl) /\
  (min_wl <= max_wl < length w)%nat /\
  Sunburn.extract_wl example_uv (1261.5, 1268.5)
  = Ok (Np.slice w min_wl (max_wl + 1)) /\
  length (Np.slice w min_wl (max_wl + 1))
  = S (length (Np.slice [1; 2; 3; 4; 5; 6] min_wl max_wl)).
Proof.
  intros w min_wl max_wl.
  pose proof (extract_wl_one_longer (fun _ _ => 0) (fun _ _ _ => 0)
                example_uv (1261.5, 1268.5) 0 w [1; 2; 3; 4; 5; 6]
                [0.1; 0.2; 0.3; 0.4; 0.5; 0.6]
                ltac:(simpl; lra) example_uv_pick_side eq_refl eq_refl eq_refl
                ltac:(simpl; lra) eq_refl eq_refl) as H.
  cbv zeta in H. cbn [fst snd] in H.
  repeat split; try apply H.
Defined.

(** On that spectrum the range (1261.5, 1268.5) gives four wavelengths and
    three fluxes. *)
Lemma extract_wl_example :
  Sunburn.extract_wl example_uv (1261.5, 1268.5) = Ok [1262; 1264; 1266; 1268] /\
  exists win,
    Sunburn.extract_window example_uv (1261.5, 1268.5) = Ok win /\
    Sunburn.window_flux win = [2; 3; 4] /\
    Sunburn.window_error win = [0.2; 0.3; 0.4] /\
    Sunburn.window_wavelength win = [1262; 1264; 1266].
Proof.
  assert (Emin : nearest [1260; 1262; 1264; 1266; 1268; 1270] 1261.5 = 1%nat)
    by eval_nearest.
  assert (Emax : nearest [1260; 1262; 1264; 1266; 1268; 1270] 1268.5 = 4%nat)
    by eval_nearest.
  destruct (nearest_index_nearest [1260; 1262; 1264; 1266; 1268; 1270] 1261.5
              ltac:(simpl; lia)) as [Imin _].
  destruct (nearest_index_nearest [1260; 1262; 1264; 1266; 1268; 1270] 1268.5
              ltac:(simpl; lia)) as [Imax _].
  rewrite Emin in Imin. rewrite Emax in Imax. split.
  - unfold Sunburn.extract_wl. rewrite example_uv_pick_side. cbn [bind].
    cbn [Np.row example_uv Sunburn.wavelength fst snd bind].
    rewrite Imin, Imax. reflexivity.
  - unfold Sunburn.extract_window. rewrite example_uv_pick_side. cbn [bind].
    cbn [Np.row example_uv Sunburn.wavelength Sunburn.flux Sunburn.error
         fst snd bind].
    rewrite Imin, Imax. cbn [bind].
    eexists. split; [reflexivity|]. repeat split; reflexivity.
Qed.

(** ** [correct_systematic] *)

Section CorrectSystematic.

Variable simps : list R -> list R -> R.
Variable bootstrap : list R -> list R -> list R -> R.
Variable polyfit : list R -> list R -> nat -> list R.

Lemma verify_systematic_keeps_uv (self self' : Sunburn.COSSpectrum)
    (line_list : list (string * list Sunburn.Line))
    (rv_range : option (R * R)) (norm : R) :
  Sunburn.verify_systematic simps bootstrap self line_list rv_range
  = Ok (self', norm) ->
  Sunburn.uv self' = Sunburn.uv self /\ Sunburn.split self' = Sunburn.split self.
Proof.
  unfold Sunburn.verify_systematic.
  destruct (Sunburn.split self) as [splits|] eqn:Es; [|discriminate].
  destruct (Tools.for_each _ line_list) as [measures|]; [|discriminate].
  cbn [bind]. destruct (length splits =? 0)%nat; [discriminate|].
  intros H. injection H as <- _. split; [reflexivity | exact Es].
Qed.

(** Without [recompute_errors] no statement of [correct_systematic] writes
    the error of the parent: it is left as it was. *)
Lemma correct_systematic_keeps_error (self self' : Sunburn.COSSpectrum)
    (line_list : list (string * list Sunburn.Line)) (baseline_level : R)
    (poly_deg : nat) (temp_jd_shift : R) :
  Sunburn.correct_systematic simps bootstrap polyfit self line_list
    baseline_level poly_deg temp_jd_shift false = Ok self' ->
  Sunburn.error (Sunburn.uv self') = Sunburn.error (Sunburn.uv self).
Proof.
  unfold Sunburn.correct_systematic.
  destruct (match Sunburn._systematics self with
            | Some _ => Ok self
            | None => r <- Sunburn.verify_systematic simps bootstrap self
                            line_list None ;; Ok (fst r)
            end) as [x|] eqn:Ex; [|discriminate].
  assert (Hx : Sunburn.error (Sunburn.uv x) = Sunburn.error (Sunburn.uv self)).
  { destruct (Sunburn._systematics self) as [sys|].
    - now injection Ex as <-.
    - destruct (Sunburn.verify_systematic simps bootstrap self line_list None)
        as [[y norm]|] eqn:Ev; [|discriminate].
      cbn [bind fst] in Ex. injection Ex as <-.
      apply verify_systematic_keeps_uv in Ev as [Euv _]. now rewrite Euv. }
  cbn [bind].
  destruct (Sunburn._systematics x) as [sys|]; [|discriminate]. cbn [bind].
  destruct (Sunburn.split x) as [splits|]; [|discriminate]. cbn [bind].
  destruct (_ || _); [discriminate|].
  destruct (Tools.for_each _ (seq 0 (length splits))) as [splits'|];
    [|discriminate].
  cbn [bind].
  destruct (Tools.for_each _ splits') as [rows0|]; [|discriminate]. cbn [bind].
  destruct (Np.sum_rows rows0) as [total0|]; [|discriminate]. cbn [bind].
  destruct (Np.set_row _ _ 0 _) as [flux0|]; [|discriminate]. cbn [bind].
  destruct (Tools.for_each _ splits') as [rows1|]; [|discriminate]. cbn [bind].
  destruct (Np.sum_rows rows1) as [total1|]; [|discriminate]. cbn [bind].
  destruct (Np.set_row _ _ 1 _) as [flux1|]; [|discriminate]. cbn [bind].
  intros H. injection H as <-. exact Hx.
Qed.

End CorrectSystematic.

(** C3 on a parent with two splits.  [correct_systematic] divides the flux
    of each split by its correction factor and sets the flux of the parent
    to the mean of the corrected fluxes, as the claim says.  The error of
    the parent, however, is not touched: it is still 3 on every pixel,
    whereas the errors of the splits, 3 and 4, combined in quadrature and
    divided by their number give 2.5.  The comment in the source announces
    the quadratic sum; no statement computes it. *)
Theorem correct_systematic_parent_error
    (simps : list R -> list R -> R)
    (bootstrap : list R -> list R -> list R -> R)
    (polyfit : list R -> list R -> nat -> list R) :
  exists (c0 c1 : R) (self' a b : Sunburn.COSSpectrum),
    Sunburn.correct_systematic simps bootstrap polyfit systematics_parent []
      1 1 2.45e6 false = Ok self' /\
    Sunburn.split self' = Some [a; b] /\
    Sunburn.flux (Sunburn.uv a)
    = Np.rows_map (fun x => x / c0) (Sunburn.flux (Sunburn.uv split_a)) /\
    Sunburn.flux (Sunburn.uv b)
    = Np.rows_map (fun x => x / c1) (Sunburn.flux (Sunburn.uv split_b)) /\
    Sunburn.error (Sunburn.uv a) = ([3; 3], [3; 3]) /\
    Sunburn.error (Sunburn.uv b) = ([4; 4], [4; 4]) /\
    Sunburn.flux (Sunburn.uv self')
    = (mean_rows [fst (Sunburn.flux (Sunburn.uv a));
                  fst (Sunburn.flux (Sunburn.uv b))],
       mean_rows [snd (Sunburn.flux (Sunburn.uv a));
                  snd (Sunburn.flux (Sunburn.uv b))]) /\
    Sunburn.error (Sunburn.uv self') = ([3; 3], [3; 3]) /\
    quadrature_mean [fst (Sunburn.error (Sunburn.uv a));
                     fst (Sunburn.error (Sunburn.uv b))] = [2.5; 2.5] /\
    quadrature_mean [snd (Sunburn.error (Sunburn.uv a));
                     snd (Sunburn.error (Sunburn.uv b))] = [2.5; 2.5] /\
    fst (Sunburn.error (Sunburn.uv self'))
    <> quadrature_mean [fst (Sunburn.error (Sunburn.uv a));
                        fst (Sunburn.error (Sunburn.uv b))].
Proof.
  assert (Hq : quadrature_mean [[3; 3]; [4; 4]] = [2.5; 2.5]).
  { unfold quadrature_mean, Np.axis0, Np.sum. cbn.
    replace (3 * (3 * 1) + (4 * (4 * 1) + 0)) with (5 * 5) by lra.
    rewrite sqrt_square by lra. f_equal; [lra|]. f_equal. lra. }
  eexists. eexists. eexists. eexists. eexists.
  split.
  - unfold Sunburn.correct_systematic, systematics_parent, split_a, split_b,
      example_split.
    cbn. reflexivity.
  - cbn [Sunburn.split Sunburn.set_split Sunburn.set_cos_flux Sunburn.uv
         Sunburn.flux Sunburn.set_flux Sunburn.error fst snd].
    split; [reflexivity|].
    split; [reflexivity|]. split; [reflexivity|].
    split; [reflexivity|]. split; [reflexivity|].
    split.
    { unfold mean_rows, Np.axis0, Np.mean, Np.sum. cbn.
      f_equal; (f_equal; [lra | f_equal; lra]). }
    split; [reflexivity|].
    split; [exact Hq|]. split; [exact Hq|].
    change ([3; 3] <> quadrature_mean [[3; 3]; [4; 4]]).
    rewrite Hq. intros H. injection H as H _. lra.
Qed.

(** ** Linear interpolation on its own knots *)

Lemma strictly_ascending_tail (x : R) (t : list R) :
  strictly_ascending (x :: t) -> strictly_ascending t.
Proof. destruct t; simpl; tauto. Qed.

Lemma strictly_ascending_ascending (a : list R) :
  strictly_ascending a -> ascending a.
Proof.
  induction a as [|x t IH]; [trivial|]. destruct t as [|y t]; [trivial|].
  intros [Hxy Ht]. split; [lra|]. apply IH. exact Ht.
Qed.

Lemma strictly_ascending_head_lt (x : R) (t : list R) (j : nat) :
  strictly_ascending (x :: t) -> (j < length t)%nat -> x < nth j t 0.
Proof.
  revert x j. induction t as [|y t IH]; intros x j Hs Hj; simpl in Hj; [lia|].
  destruct Hs as [Hxy Hs]. destruct j as [|j]; simpl; [exact Hxy|].
  apply Rlt_trans with y; [exact Hxy|]. apply IH; [exact Hs | lia].
Qed.

Lemma strictly_ascending_nth (a : list R) (i j : nat) :
  strictly_ascending a -> (i < j < length a)%nat -> nth i a 0 < nth j a 0.
Proof.
  revert i j. induction a as [|x t IH]; intros i j Hs Hij; simpl in Hij; [lia|].
  destruct j as [|j]; [lia|]. destruct i as [|i]; simpl.
  - apply strictly_ascending_head_lt; [exact Hs | lia].
  - apply IH; [eapply strictly_ascending_tail; eauto | lia].
Qed.

(** Knots given in ascending order are left in place by the sort. *)
Lemma sort_knots_ascending (x y : list R) :
  ascending x -> length x = length y ->
  Scipy.sort_knots (combine x y) = combine x y.
Proof.
  revert y. induction x as [|a x IH]; intros y Hasc Hlen; [reflexivity|].
  destruct y as [|b y]; [discriminate|].
  simpl in Hlen. injection Hlen as Hlen.
  change (Scipy.sort_knots (combine (a :: x) (b :: y)))
    with (Scipy.insert_knot (a, b) (Scipy.sort_knots (combine x y))).
  rewrite IH by (eauto using ascending_tail).
  destruct x as [|a' x]; [reflexivity|]. destruct y as [|b' y]; [discriminate|].
  cbn [combine Scipy.insert_knot fst]. destruct Hasc as [Hle _].
  by_cases_ltb a' a; [lra | reflexivity].
Qed.

Lemma map_fst_combine (x y : list R) :
  length x = length y -> map fst (combine x y) = x.
Proof.
  revert y. induction x as [|a x IH]; intros [|b y] H; simpl in *;
    try discriminate; try reflexivity.
  f_equal. apply IH. lia.
Qed.

Lemma map_snd_combine (x y : list R) :
  length x = length y -> map snd (combine x y) = y.
Proof.
  revert y. induction x as [|a x IH]; intros [|b y] H; simpl in *;
    try discriminate; try reflexivity.
  f_equal. apply IH. lia.
Qed.

Lemma interp1d_new_ascending (x y : list R) (fill : R) :
  ascending x -> length x = length y -> (2 <= length x)%nat ->
  Scipy.interp1d_new x y fill
  = Ok {| Scipy.interp_x := x; Scipy.interp_y := y; Scipy.interp_fill := fill |}.
Proof.
  intros Hasc Hlen H2. unfold Scipy.interp1d_new.
  rewrite Hlen, Nat.eqb_refl. cbn [negb].
  destruct (Nat.ltb_spec (length y) 2) as [Hlt|_]; [lia|].
  rewrite sort_knots_ascending, map_fst_combine, map_snd_combine by assumption.
  reflexivity.
Qed.

(** On a sorted array the insertion point of the element of index [i] of a
    strictly ascending array is [i]. *)
Lemma searchsorted_at_element (a : list R) (i : nat) :
  strictly_ascending a -> (i < length a)%nat ->
  Np.searchsorted a (nth i a 0) = i.
Proof.
  intros Hs Hi.
  pose proof (ascending_monotone a (strictly_ascending_ascending a Hs)) as Hmono.
  destruct (searchsorted_partition a (nth i a 0) Hmono) as [Hb Ha].
  pose proof (searchsorted_le_length a (nth i a 0)) as Hr.
  destruct (lt_eq_lt_dec (Np.searchsorted a (nth i a 0)) i) as [[H|H]|H].
  - specialize (Ha (Np.searchsorted a (nth i a 0)) ltac:(lia)).
    pose proof (strictly_ascending_nth a _ i Hs (conj H Hi)). lra.
  - exact H.
  - specialize (Hb i H). lra.
Qed.

Lemma getitem_last (a : list R) :
  a <> [] -> Np.getitem a (-1) = Ok (nth (length a - 1) a 0).
Proof.
  intros Hne. assert (Hlen : (1 <= length a)%nat)
    by (destruct a; [congruence | simpl; lia]).
  unfold Np.getitem. change (-1 <? 0)%Z with true. cbv iota.
  replace (-1 + Z.of_nat (length a))%Z with (Z.of_nat (length a - 1)) by lia.
  assert (H1 : ((0 <=? Z.of_nat (length a - 1))
                && (Z.of_nat (length a - 1) <? Z.of_nat (length a)))%Z = true).
  { apply andb_true_iff. split; [apply Z.leb_le | apply Z.ltb_lt]; lia. }
  rewrite H1, Nat2Z.id.
  now rewrite (nth_error_nth' a 0 (n := length a - 1)) by lia.
Qed.

(** The interpolant takes at each knot the value given there. *)
Lemma interp1d_call_at_knot (x y : list R) (fill : R) (i : nat) :
  strictly_ascending x -> length x = length y -> (2 <= length x)%nat ->
  (i < length x)%nat ->
  Scipy.interp1d_call
    {| Scipy.interp_x := x; Scipy.interp_y := y; Scipy.interp_fill := fill |}
    (nth i x 0) = Ok (nth i y 0).
Proof.
  intros Hs Hlen H2 Hi.
  pose proof (ascending_monotone x (strictly_ascending_ascending x Hs)) as Hmono.
  unfold Scipy.interp1d_call. cbn [Scipy.interp_x Scipy.interp_y Scipy.interp_fill].
  change (Np.getitem x 0) with (Np.getitem x (Z.of_nat 0)).
  rewrite (getitem_nat x 0 0) by lia. cbn [bind].
  rewrite getitem_last by (destruct x; [simpl in H2; lia | discriminate]).
  cbn [bind].
  assert (Hfirst : nth 0 x 0 <= nth i x 0) by (apply Hmono; lia).
  assert (Hlast : nth i x 0 <= nth (length x - 1) x 0) by (apply Hmono; lia).
  by_cases_ltb (nth i x 0) (nth 0 x 0); [lra|].
  by_cases_ltb (nth (length x - 1) x 0) (nth i x 0); [lra|]. cbn [orb].
  rewrite searchsorted_at_element by assumption.
  destruct i as [|i].
  - assert (Hc : Np.clip (Z.of_nat 0) 1 (Z.of_nat (length x) - 1) = Z.of_nat 1)
      by (unfold Np.clip; lia).
    rewrite Hc. change (Z.of_nat 1 - 1)%Z with (Z.of_nat 0).
    rewrite !(getitem_nat x 0), !(getitem_nat y 0) by lia. cbn [bind].
    cbv zeta. f_equal. unfold Rdiv. ring.
  - assert (Hc : Np.clip (Z.of_nat (S i)) 1 (Z.of_nat (length x) - 1)
                 = Z.of_nat (S i)) by (unfold Np.clip; lia).
    rewrite Hc. replace (Z.of_nat (S i) - 1)%Z with (Z.of_nat i) by lia.
    rewrite !(getitem_nat x 0), !(getitem_nat y 0) by lia. cbn [bind].
    pose proof (strictly_ascending_nth x i (S i) Hs ltac:(lia)).
    cbv zeta. f_equal. field. lra.
Qed.

Lemma interp1d_eval_pointwise (f : Scipy.interp1d) (xs ys : list R) :
  length xs = length ys ->
  (forall j, (j < length xs)%nat ->
     Scipy.interp1d_call f (nth j xs 0) = Ok (nth j ys 0)) ->
  Scipy.interp1d_eval f xs = Ok ys.
Proof.
  revert ys. induction xs as [|v xs IH]; intros [|w ys] Hlen H;
    simpl in Hlen; try discriminate; [reflexivity|].
  cbn [Scipy.interp1d_eval].
  pose proof (H 0%nat ltac:(simpl; lia)) as H0. cbn [nth] in H0.
  rewrite H0. cbn [bind].
  rewrite (IH ys) by (try lia; intros j Hj; apply (H (S j)); simpl; lia).
  reflexivity.
Qed.

(** Resampling a spectrum on its own grid gives it back. *)
Lemma interp1d_on_own_grid (x y : list R) (fill : R) :
  strictly_ascending x -> length x = length y -> (2 <= length x)%nat ->
  exists f, Scipy.interp1d_new x y fill = Ok f /\ Scipy.interp1d_eval f x = Ok y.
Proof.
  intros Hs Hlen H2. eexists. split.
  - apply interp1d_new_ascending;
      [now apply strictly_ascending_ascending | exact Hlen | exact H2].
  - apply interp1d_eval_pointwise; [exact Hlen|].
    intros j Hj. now apply interp1d_call_at_knot.
Qed.

(** ** [combine_spectra] on copies of one spectrum *)

Lemma for_each_const {A B : Type} (body : A -> result B) (l : list A) (c : B) :
  (forall x, In x l -> body x = Ok c) ->
  Tools.for_each body l = Ok (repeat c (length l)).
Proof.
  induction l as [|x l IH]; intros H; [reflexivity|].
  cbn [Tools.for_each]. rewrite (H x (or_introl eq_refl)). cbn [bind].
  rewrite IH by (intros y Hy; apply H; now right). reflexivity.
Qed.

Lemma getitem_repeat {A : Type} (w : A) (n i : nat) :
  (i < n)%nat -> Np.getitem (repeat w n) (Z.of_nat i) = Ok w.
Proof.
  intros Hi. rewrite (getitem_nat _ w) by (now rewrite repeat_length).
  now rewrite nth_repeat.
Qed.

Lemma map_nth_seq (l : list R) :
  map (fun j => nth j l 0) (seq 0 (length l)) = l.
Proof.
  induction l as [|x l IH]; [reflexivity|].
  cbn [length seq map nth]. f_equal.
  rewrite <- seq_shift, map_map. exact IH.
Qed.

Lemma sum_repeat (c : R) (n : nat) : Np.sum (repeat c n) = INR n * c.
Proof.
  induction n as [|n IH]; [simpl; lra|].
  change (Np.sum (repeat c (S n))) with (c + Np.sum (repeat c n)).
  rewrite IH, S_INR. lra.
Qed.

Lemma mean_repeat (c : R) (n : nat) : (1 <= n)%nat -> Np.mean (repeat c n) = c.
Proof.
  intros Hn. unfold Np.mean. rewrite sum_repeat, repeat_length.
  field. apply not_0_INR. lia.
Qed.

Lemma axis0_repeat (g : list R -> R) (h : R -> R) (r : list R) (n : nat) :
  (1 <= n)%nat -> (forall c, g (repeat c n) = h c) ->
  Np.axis0 g (repeat r n) = map h r.
Proof.
  intros Hn Hg. destruct n as [|n]; [lia|].
  change (repeat r (S n)) with (r :: repeat r n) at 1. cbn [Np.axis0].
  change (r :: repeat r n) with (repeat r (S n)).
  rewrite <- (map_nth_seq r) at 2. rewrite map_map.
  apply map_ext. intros j. now rewrite map_repeat, Hg.
Qed.

Lemma sqrt_quadrature (x : R) (n : nat) :
  (1 <= n)%nat -> sqrt (INR n * x ^ 2) / INR n = Rabs x / sqrt (INR n).
Proof.
  intros Hn. assert (Hpos : 0 < INR n) by (apply lt_0_INR; lia).
  pose proof (sqrt_lt_R0 _ Hpos) as Hs.
  pose proof (sqrt_sqrt (INR n) (Rlt_le _ _ Hpos)) as Hss.
  replace (x ^ 2) with (Rsqr x) by (unfold Rsqr; ring).
  rewrite sqrt_mult by (try lra; apply Rle_0_sqr).
  rewrite sqrt_Rsqr_abs.
  rewrite <- Hss at 2. field. lra.
Qed.

(** [N >= 1] copies of a spectrum with at least two strictly ascending
    wavelengths combine into the same wavelengths and flux, and into the
    absolute value of each error divided by [sqrt N]. *)
Lemma combine_spectra_identical (w f e : list R) (N : nat) :
  (1 <= N)%nat ->
  strictly_ascending w -> (2 <= length w)%nat ->
  length f = length w -> length e = length w ->
  Tools.combine_spectra (repeat w N) (repeat f N) (repeat e N) None None
  = Ok (w, None, f, map (fun x => Rabs x / sqrt (INR N)) e).
Proof.
  intros HN Hs H2 Hf He. unfold Tools.combine_spectra.
  rewrite repeat_length.
  change (Np.getitem (repeat w N) 0) with (Np.getitem (repeat w N) (Z.of_nat 0)).
  rewrite getitem_repeat by lia. cbn [bind].
  destruct (interp1d_on_own_grid w f 1e-18 Hs (eq_sym Hf) H2) as (ff & Eff & Evf).
  destruct (interp1d_on_own_grid w e 1e-18 Hs (eq_sym He) H2) as (fu & Efu & Evu).
  rewrite (for_each_const _ (seq 0 N) (f, e)).
  2: { intros i Hi. apply in_seq in Hi.
       rewrite !getitem_repeat by lia. cbn [bind].
       rewrite Eff. cbn [bind]. rewrite Efu. cbn [bind].
       rewrite Evf. cbn [bind]. rewrite Evu. reflexivity. }
  rewrite length_seq. cbn [bind].
  rewrite !map_repeat. cbn [fst snd].
  rewrite (axis0_repeat Np.mean (fun c => c)) by (try lia; intros c; now apply mean_repeat).
  rewrite (axis0_repeat Np.sum (fun c => INR N * c)) by (try lia; intros c; apply sum_repeat).
  rewrite map_id, !map_map. do 2 f_equal.
  apply map_ext. intros x. now apply sqrt_quadrature.
Qed.

(** C7, as the code has it. Combining [N >= 1] copies of a spectrum whose
    wavelengths are strictly increasing (two of them at least), with the
    default grid, returns the wavelengths and the flux unchanged and, for
    each pixel, the absolute value of the error divided by [sqrt N]; where
    no error is negative that is the error divided by [sqrt N]. *)
Theorem combine_identical_spectra (w f e : list R) (N : nat) :
  (1 <= N)%nat ->
  strictly_ascending w -> (2 <= length w)%nat ->
  length f = length w -> length e = length w ->
  Tools.combine_spectra (repeat w N) (repeat f N) (repeat e N) None None
  = Ok (w, None, f, map (fun x => Rabs x / sqrt (INR N)) e) /\
  ((forall x, In x e -> 0 <= x) ->
   Tools.combine_spectra (repeat w N) (repeat f N) (repeat e N) None None
   = Ok (w, None, f, map (fun x => x / sqrt (INR N)) e)).
Proof.
  intros HN Hs H2 Hf He.
  pose proof (combine_spectra_identical w f e N HN Hs H2 Hf He) as H.
  split; [exact H|]. intros Hpos. rewrite H. do 2 f_equal.
  apply map_ext_in. intros x Hx. rewrite Rabs_right; [reflexivity|].
  apply Rle_ge. now apply Hpos.
Qed.

Lemma combine_identical_spectra_witness :
  Tools.combine_spectra (repeat [1300; 1301; 1302] 4) (repeat [5; 6; 7] 4)
    (repeat [2; 4; 6] 4) None None
  = Ok ([1300; 1301; 1302], None, [5; 6; 7],
        map (fun x => x / sqrt (INR 4)) [2; 4; 6]).
Proof.
  apply (proj2 (combine_identical_spectra [1300; 1301; 1302] [5; 6; 7]
                  [2; 4; 6] 4 ltac:(lia) ltac:(simpl; lra) ltac:(simpl; lia)
                  eq_refl eq_refl)).
  simpl. intros x [H|[H|[H|[]]]]; subst; lra.
Defined.

(** C7, counterexample: one copy ([N = 1]) of a spectrum whose first error
    is -1.  The error returned for that pixel is 1, not -1 / sqrt 1. *)
Lemma combine_spectra_negative_error :
  Tools.combine_spectra [[1300; 1301]] [[5; 6]] [[-1; 1]] None None
  = Ok ([1300; 1301], None, [5; 6], [1; 1]) /\
  map (fun x => x / sqrt (INR 1)) [-1; 1] = [-1; 1] /\
  [1; 1] <> map (fun x => x / sqrt (INR 1)) [-1; 1].
Proof.
  assert (Hs1 : sqrt (INR 1) = 1) by (simpl; apply sqrt_1).
  assert (Hm : map (fun x => x / sqrt (INR 1)) [-1; 1] = [-1; 1]).
  { cbn [map]. rewrite Hs1. repeat f_equal; lra. }
  split; [|split; [exact Hm|]].
  - pose proof (combine_spectra_identical [1300; 1301] [5; 6] [-1; 1] 1
                  ltac:(lia) ltac:(simpl; lra) ltac:(simpl; lia) eq_refl eq_refl)
      as H.
    cbn [repeat] in H. rewrite H. repeat f_equal. cbn [map]. rewrite Hs1.
    rewrite Rabs_left by lra. rewrite Rabs_right by lra.
    repeat f_equal; lra.
  - rewrite Hm. intros H. injection H as H. lra.
Qed.

Lemma neg_times_pos (a b : R) : a < 0 -> 0 < b -> a * b < 0.
Proof. intros. nra. Qed.

Lemma pos_times_neg (a b : R) : 0 < a -> b < 0 -> a * b < 0.
Proof. intros. nra. Qed.

(** The error that [compute_proper_error] assigns to a pixel of negative
    flux is negative when the shifted net count rate is positive: error
    arrays with negative entries do reach the functions that combine
    them. *)
Lemma sunburn_error_negative (self : Sunburn.COSSpectrum) (k i : nat) :
  let s := Sunburn.uv self in
  same_shape (Sunburn.flux s) (Sunburn.net s) ->
  same_shape (Sunburn.flux s) (Sunburn.gross_counts s) ->
  (k < 2)%nat -> (i < side_length (Sunburn.flux s) k)%nat ->
  pixel (Sunburn.flux s) k i < 0 ->
  0 < pixel (Sunburn.net s) k i + 1e-7 ->
  0 <= pixel (Sunburn.gross_counts s) k i ->
  0 < Sunburn.exp_time s ->
  exists self',
    Sunburn.compute_proper_error self None = Ok self' /\
    pixel (Sunburn.error (Sunburn.uv self')) k i < 0.
Proof.
  intros s Hn Hg Hk Hi Hflux Hnet Hgross Hexp.
  destruct (sunburn_compute_proper_error self None Hn Hg)
    as (self' & sens & E & _ & _ & _ & Hpix).
  exists self'. split; [exact E|].
  destruct (Hpix k i Hk Hi) as [Hs He]. rewrite He, Hs.
  assert (Hsq : 0 < sqrt (pixel (Sunburn.gross_counts s) k i + 1))
    by (apply sqrt_lt_R0; lra).
  assert (Hq : pixel (Sunburn.flux s) k i / (pixel (Sunburn.net s) k i + 1e-7)
               / Sunburn.exp_time s < 0).
  { unfold Rdiv. apply neg_times_pos; [|now apply Rinv_0_lt_compat].
    apply neg_times_pos; [exact Hflux | now apply Rinv_0_lt_compat]. }
  now apply pos_times_neg.
Qed.

(** ** [bin_spectrum] *)
























(** ** The [blastoise] copy on sides of equal length *)

(** When the two sides have the same number of pixels, three or more, the
    arrays are two-dimensional and the division by the vector of the two
    exposure times cannot be broadcast: [compute_proper_error] raises. *)
Lemma blastoise_compute_proper_error_2d (self : Blastoise.COSSpectrum) :
  same_shape (Blastoise.flux self) (Blastoise.net self) ->
  length (fst (Blastoise.flux self)) = length (snd (Blastoise.flux self)) ->
  (3 <= length (fst (Blastoise.flux self)))%nat ->
  Blastoise.compute_proper_error self = Raise ValueError.
Proof.
  intros [Hn0 Hn1] Heq H3. unfold Blastoise.compute_proper_error.
  unfold Np.rows_ufunc2 at 1. rewrite !ufunc2_same_length by assumption.
  cbn [bind]. unfold Np.rows_div_vector, Np.is_2d. cbn [fst snd].
  assert (Hl : forall a b : list R, length a = length b ->
            length (map (fun p => fst p / snd p) (combine a b)) = length a).
  { intros a b H. rewrite length_map, length_combine. lia. }
  rewrite !Hl by assumption. rewrite Heq, Nat.eqb_refl.
  unfold Np.ufunc2 at 1. rewrite Hl by assumption. cbn [length].
  destruct (Nat.eqb_spec (length (fst (Blastoise.flux self))) 2); [lia|].
  destruct (Nat.eqb_spec (length (fst (Blastoise.flux self))) 1); [lia|].
  reflexivity.
Qed.

(** * Further properties of the code *)

(** ** [nearest_index] *)

(** X1. On a sorted array of two elements or more the index returned does
    not decrease when the target grows. *)
Theorem nearest_index_monotone (array : list R) (v1 v2 : R) :
  ascending array -> (2 <= length array)%nat -> v1 <= v2 ->
  exists i1 i2 : Z,
    Tools.nearest_index array v1 = Ok i1 /\
    Tools.nearest_index array v2 = Ok i2 /\
    (0 <= i1 <= i2)%Z /\ (i2 < Z.of_nat (length array))%Z.
Proof.
  intros Hasc Hlen Hv.
  destruct (nearest_index_nearest array v1 Hlen) as [E1 _].
  destruct (nearest_index_nearest array v2 Hlen) as [E2 H2].
  pose proof (nearest_monotone array v1 v2 (ascending_monotone _ Hasc) Hlen Hv).
  exists (Z.of_nat (nearest array v1)), (Z.of_nat (nearest array v2)).
  repeat split; try assumption; lia.
Qed.

Lemma nearest_index_monotone_witness :
  exists i1 i2 : Z,
    Tools.nearest_index [1; 2; 4; 8] 1.4 = Ok i1 /\
    Tools.nearest_index [1; 2; 4; 8] 5 = Ok i2 /\
    (0 <= i1 <= i2)%Z /\ (i2 < Z.of_nat (length [1; 2; 4; 8]))%Z.
Proof.
  apply (nearest_index_monotone [1; 2; 4; 8] 1.4 5);
    [simpl; lra | simpl; lia | lra].
Defined.

(** X2. Looking up an element of a strictly ascending array gives back its
    index. *)
Theorem nearest_index_of_element (array : list R) (i : nat) :
  strictly_ascending array -> (2 <= length array)%nat ->
  (i < length array)%nat ->
  Tools.nearest_index array (nth i array 0) = Ok (Z.of_nat i).
Proof.
  intros Hs Hlen Hi.
  rewrite (nearest_index_unfold array _ Hlen). cbv zeta.
  unfold clipped_point. rewrite (searchsorted_at_element array i Hs Hi).
  destruct i as [|i].
  - replace (Nat.min (length array - 1) (Nat.max 0 1)) with 1%nat by lia.
    cbn [Nat.sub].
    pose proof (strictly_ascending_nth array 0 1 Hs ltac:(lia)).
    by_cases_ltb (nth 0 array 0 - nth 0 array 0) (nth 1 array 0 - nth 0 array 0);
      [reflexivity | lra].
  - replace (Nat.min (length array - 1) (Nat.max (S i) 1)) with (S i) by lia.
    replace (S i - 1)%nat with i by lia.
    pose proof (strictly_ascending_nth array i (S i) Hs ltac:(lia)).
    by_cases_ltb (nth (S i) array 0 - nth i array 0)
                 (nth (S i) array 0 - nth (S i) array 0); [lra|].
    cbn [Np.int_of_bool]. f_equal; lia.
Qed.

Lemma nearest_index_of_element_witness :
  Tools.nearest_index [1; 2; 4; 8] (nth 2 [1; 2; 4; 8] 0) = Ok 2%Z.
Proof.
  apply (nearest_index_of_element [1; 2; 4; 8] 2);
    [simpl; lra | simpl; lia | simpl; lia].
Defined.

(** X3. Arrays too short for the two reads: an empty array raises
    [IndexError]; on a single element the read [array[index - 1]] wraps
    around to that element, and the index returned is -1 for a target
    below it and 0 otherwise. *)
Theorem nearest_index_short_arrays :
  (forall v, Tools.nearest_index [] v = Raise IndexError) /\
  (forall a v, v < a -> Tools.nearest_index [a] v = Ok (-1)%Z) /\
  (forall a v, a <= v -> Tools.nearest_index [a] v = Ok 0%Z).
Proof.
  split; [intros v; reflexivity|]. split; intros a v H;
    rewrite nearest_index_singleton; by_cases_ltb v a; try reflexivity; lra.
Qed.

Lemma nearest_index_short_arrays_witness :
  Tools.nearest_index [5] 3 = Ok (-1)%Z /\ Tools.nearest_index [5] 7 = Ok 0%Z.
Proof.
  split.
  - apply (proj1 (proj2 nearest_index_short_arrays) 5 3). lra.
  - apply (proj2 (proj2 nearest_index_short_arrays) 5 7). lra.
Defined.

(** ** [pick_side] *)

(** X4. An index returned by [pick_side] is 0 or 1, and the range lies
    strictly between the smallest and the largest wavelength of that
    side. *)
Theorem pick_side_sound (w : list R * list R) (range : R * R) (k : nat) :
  Tools.pick_side w range = Ok k ->
  (k = 0 \/ k = 1)%nat /\
  exists side lo hi,
    Np.row w k = Ok side /\ Np.min side = Ok lo /\ Np.max side = Ok hi /\
    lo < fst range /\ snd range < hi.
Proof.
  intros H. destruct (pick_side_inside w range k H) as (side & Hrow & Hin).
  split.
  - destruct k as [|[|k]]; [now left | now right | discriminate].
  - pose proof (inside_nonempty side range Hin) as Hne.
    destruct (np_min_nonempty side Hne) as [lo Hlo].
    destruct (np_max_nonempty side Hne) as [hi Hhi].
    exists side, lo, hi. repeat split; try assumption;
      apply (inside_min_max side range lo hi Hlo Hhi); assumption.
Qed.

Lemma pick_side_sound_witness :
  (0 = 0 \/ 0 = 1)%nat /\
  exists side lo hi,
    Np.row (Sunburn.wavelength example_uv) 0 = Ok side /\
    Np.min side = Ok lo /\ Np.max side = Ok hi /\
    lo < fst (1261.5, 1268.5) /\ snd (1261.5, 1268.5) < hi.
Proof.
  apply (pick_side_sound (Sunburn.wavelength example_uv) (1261.5, 1268.5) 0).
  exact example_uv_pick_side.
Defined.

(** X5. Side 0 is looked at first: a range strictly inside side 0 gives 0
    whatever side 1 holds, also when side 1 contains the range too; and
    when side 0 is empty the call raises [ValueError] even if side 1
    contains the range. *)
Theorem pick_side_first_side_first (side0 side1 : list R) (range : R * R) :
  (inside side0 range -> Tools.pick_side (side0, side1) range = Ok 0%nat) /\
  Tools.pick_side ([], side1) range = Raise ValueError.
Proof.
  split; [|apply pick_side_empty_side0].
  intros Hin.
  destruct (pick_side_cases (side0, side1) range
              (inside_nonempty side0 range Hin))
    as [[H0 E]|[[H0 _]|[H0 _]]]; [exact E | | ]; cbn [fst] in H0; tauto.
Qed.

Lemma pick_side_first_side_first_witness :
  Tools.pick_side ([1; 2; 9], [0; 5; 10]) (3, 4) = Ok 0%nat.
Proof.
  apply (proj1 (pick_side_first_side_first [1; 2; 9] [0; 5; 10] (3, 4))).
  split; [exists 1 | exists 9]; simpl; split; auto; lra.
Defined.

(** ** [compute_proper_error] *)

(** X6. In the [sunburn] package, on a spectrum whose flux, net and gross
    count arrays have the same shape, [compute_proper_error] succeeds,
    leaves the flux as it is, and sets the sensitivity of each pixel to
    [flux / (net + shift_net) / exp_time] and its error to
    [(gross_counts + 1) ** 0.5] times that sensitivity; [shift_net] is
    [1e-7] when the caller gives none. *)
Theorem compute_proper_error_formula (self : Sunburn.COSSpectrum)
    (shift_net : option R) :
  let s := Sunburn.uv self in
  let shift := match shift_net with Some v => v | None => 1e-7 end in
  same_shape (Sunburn.flux s) (Sunburn.net s) ->
  same_shape (Sunburn.flux s) (Sunburn.gross_counts s) ->
  exists self' sens,
    Sunburn.compute_proper_error self shift_net = Ok self' /\
    Sunburn.sensitivity self' = Some sens /\
    same_shape (Sunburn.error (Sunburn.uv self')) (Sunburn.flux s) /\
    Sunburn.flux (Sunburn.uv self') = Sunburn.flux s /\
    forall k i, (k < 2)%nat -> (i < side_length (Sunburn.flux s) k)%nat ->
      pixel sens k i
      = pixel (Sunburn.flux s) k i / (pixel (Sunburn.net s) k i + shift)
        / Sunburn.exp_time s /\
      pixel (Sunburn.error (Sunburn.uv self')) k i
      = sqrt (pixel (Sunburn.gross_counts s) k i + 1) * pixel sens k i.
Proof. exact (sunburn_compute_proper_error self shift_net). Qed.

Lemma compute_proper_error_formula_witness :
  exists self' sens,
    Sunburn.compute_proper_error example_cos_for_error (Some 0.5) = Ok self' /\
    Sunburn.sensitivity self' = Some sens /\
    pixel sens 0 1 = 2 / (2 + 0.5) / 1000 /\
    pixel (Sunburn.error (Sunburn.uv self')) 0 1
    = sqrt (20 + 1) * pixel sens 0 1.
Proof.
  destruct (compute_proper_error_formula example_cos_for_error (Some 0.5))
    as (self' & sens & E & Hs & _ & _ & Hpix).
  - split; reflexivity.
  - split; reflexivity.
  - exists self', sens. split; [exact E|]. split; [exact Hs|].
    assert (H0 : (0 < 2)%nat) by lia.
    assert (H1 : (1 < side_length
                    (Sunburn.flux (Sunburn.uv example_cos_for_error)) 0)%nat)
      by (cbv; lia).
    exact (Hpix 0%nat 1%nat H0 H1).
Defined.

(** X7. Recomputing the error a second time changes nothing: the error is
    derived from the flux, the counts and the exposure time, none of which
    the method writes. *)
Theorem compute_proper_error_idempotent (self self' : Sunburn.COSSpectrum)
    (shift_net : option R) :
  Sunburn.compute_proper_error self shift_net = Ok self' ->
  Sunburn.compute_proper_error self' shift_net = Ok self'.
Proof.
  unfold Sunburn.compute_proper_error.
  destruct (Np.rows_ufunc2 Rdiv _ _) as [ratio|] eqn:E1; [|discriminate].
  cbn [bind].
  destruct (Np.rows_ufunc2 Rmult _ _) as [err|] eqn:E2; [|discriminate].
  cbn [bind]. intros H. injection H as <-.
  cbn [Sunburn.uv Sunburn.set_error Sunburn.flux Sunburn.net
       Sunburn.gross_counts Sunburn.exp_time Sunburn.split
       Sunburn._systematics].
  rewrite E1. cbn [bind]. rewrite E2. reflexivity.
Qed.

Lemma compute_proper_error_idempotent_witness :
  exists self',
    Sunburn.compute_proper_error scenario_sunburn None = Ok self' /\
    Sunburn.compute_proper_error self' None = Ok self'.
Proof.
  destruct (sunburn_compute_proper_error scenario_sunburn None)
    as (self' & sens & E & _); [split; reflexivity | split; reflexivity |].
  exists self'. split; [exact E|].
  exact (compute_proper_error_idempotent scenario_sunburn self' None E).
Defined.

(** X8. The error computed for a pixel is negative when its flux is
    negative while its shifted net count rate is positive (gross counts
    not negative, positive exposure time): the floor that keeps the
    division defined also lets the sign of the flux through. *)
Theorem compute_proper_error_negative (self : Sunburn.COSSpectrum) (k i : nat) :
  let s := Sunburn.uv self in
  same_shape (Sunburn.flux s) (Sunburn.net s) ->
  same_shape (Sunburn.flux s) (Sunburn.gross_counts s) ->
  (k < 2)%nat -> (i < side_length (Sunburn.flux s) k)%nat ->
  pixel (Sunburn.flux s) k i < 0 ->
  0 < pixel (Sunburn.net s) k i + 1e-7 ->
  0 <= pixel (Sunburn.gross_counts s) k i ->
  0 < Sunburn.exp_time s ->
  exists self',
    Sunburn.compute_proper_error self None = Ok self' /\
    pixel (Sunburn.error (Sunburn.uv self')) k i < 0.
Proof. exact (sunburn_error_negative self k i). Qed.

Lemma compute_proper_error_negative_witness :
  exists self',
    Sunburn.compute_proper_error faint_spectrum None = Ok self' /\
    pixel (Sunburn.error (Sunburn.uv self')) 0 0 < 0.
Proof.
  apply (compute_proper_error_negative faint_spectrum 0 0);
    try (split; reflexivity); cbn; try lia; lra.
Defined.

(** X9. In the older [blastoise] copy the exposure time is an array of two
    numbers, one per side.  When the two sides keep the same number of
    pixels, three or more, the arrays are two-dimensional, the division by
    the exposure times cannot be broadcast, and [compute_proper_error]
    raises [ValueError]. *)
Theorem blastoise_compute_proper_error_equal_sides
    (self : Blastoise.COSSpectrum) :
  same_shape (Blastoise.flux self) (Blastoise.net self) ->
  length (fst (Blastoise.flux self)) = length (snd (Blastoise.flux self)) ->
  (3 <= length (fst (Blastoise.flux self)))%nat ->
  Blastoise.compute_proper_error self = Raise ValueError.
Proof. exact (blastoise_compute_proper_error_2d self). Qed.

Lemma blastoise_compute_proper_error_equal_sides_witness :
  Blastoise.compute_proper_error equal_sides_blastoise = Raise ValueError.
Proof.
  apply (blastoise_compute_proper_error_equal_sides equal_sides_blastoise).
  - split; reflexivity.
  - reflexivity.
  - cbv. lia.
Defined.

(** X10. In the older [blastoise] copy, when the two sides keep different
    numbers of pixels, [compute_proper_error] succeeds: the sensitivity of
    a pixel of side [k] is [flux / net / exp_time[k]], with no shift of
    the net count rate, and its error is [(gross_counts + 1) ** 0.5] times
    that sensitivity. *)
Theorem blastoise_compute_proper_error_ragged (self : Blastoise.COSSpectrum) :
  same_shape (Blastoise.flux self) (Blastoise.net self) ->
  same_shape (Blastoise.flux self) (Blastoise.gross_counts self) ->
  length (fst (Blastoise.flux self)) <> length (snd (Blastoise.flux self)) ->
  exists self' sens,
    Blastoise.compute_proper_error self = Ok self' /\
    Blastoise.sensitivity self' = Some sens /\
    Blastoise.flux self' = Blastoise.flux self /\
    forall k i, (k < 2)%nat -> (i < side_length (Blastoise.flux self) k)%nat ->
      pixel sens k i
      = pixel (Blastoise.flux self) k i / pixel (Blastoise.net self) k i
        / (match k with
           | 0%nat => fst (Blastoise.exp_time self)
           | _ => snd (Blastoise.exp_time self)
           end) /\
      pixel (Blastoise.error self') k i
      = sqrt (pixel (Blastoise.gross_counts self) k i + 1) * pixel sens k i.
Proof.
  intros [Hn0 Hn1] [Hg0 Hg1] Hne.
  unfold Blastoise.compute_proper_error.
  unfold Np.rows_ufunc2 at 1. rewrite !ufunc2_same_length by assumption.
  cbn [bind]. unfold Np.rows_div_vector, Np.is_2d. cbn [fst snd].
  rewrite !length_map2 by assumption.
  destruct (Nat.eqb_spec (length (fst (Blastoise.flux self)))
                         (length (snd (Blastoise.flux self)))) as [E|_];
    [contradiction|].
  cbn [bind]. unfold Np.rows_ufunc2, Np.rows_map. cbn [fst snd].
  rewrite !ufunc2_same_length
    by (rewrite !length_map, length_combine; lia).
  cbn [bind]. eexists. eexists.
  split; [reflexivity|]. split; [reflexivity|]. split; [reflexivity|].
  intros k i Hk Hi. cbn [Blastoise.error].
  destruct k as [|[|k]]; [| |lia]; unfold side_length in Hi;
    unfold pixel; cbn [fst snd] in *.
  - assert (Hs : nth i (map (fun x => x / fst (Blastoise.exp_time self))
                   (map (fun p => fst p / snd p)
                      (combine (fst (Blastoise.flux self))
                               (fst (Blastoise.net self))))) 0
                 = nth i (fst (Blastoise.flux self)) 0
                   / nth i (fst (Blastoise.net self)) 0
                   / fst (Blastoise.exp_time self)).
    { rewrite nth_map_lt by (rewrite length_map2; assumption).
      rewrite nth_map2 by assumption. reflexivity. }
    split; [exact Hs|].
    rewrite nth_map2
      by (rewrite ?length_map, ?length_combine; lia).
    rewrite nth_map_lt by lia. rewrite Hs. reflexivity.
  - assert (Hs : nth i (map (fun x => x / snd (Blastoise.exp_time self))
                   (map (fun p => fst p / snd p)
                      (combine (snd (Blastoise.flux self))
                               (snd (Blastoise.net self))))) 0
                 = nth i (snd (Blastoise.flux self)) 0
                   / nth i (snd (Blastoise.net self)) 0
                   / snd (Blastoise.exp_time self)).
    { rewrite nth_map_lt by (rewrite length_map2; assumption).
      rewrite nth_map2 by assumption. reflexivity. }
    split; [exact Hs|].
    rewrite nth_map2
      by (rewrite ?length_map, ?length_combine; lia).
    rewrite nth_map_lt by lia. rewrite Hs. reflexivity.
Qed.

Lemma blastoise_compute_proper_error_ragged_witness :
  exists self' sens,
    Blastoise.compute_proper_error ragged_blastoise = Ok self' /\
    Blastoise.sensitivity self' = Some sens /\
    pixel sens 1 1 = 5 / 10 / 2000 /\
    pixel (Blastoise.error self') 1 1 = sqrt (48 + 1) * pixel sens 1 1.
Proof.
  destruct (blastoise_compute_proper_error_ragged ragged_blastoise)
    as (self' & sens & E & Hs & _ & Hpix).
  - split; reflexivity.
  - split; reflexivity.
  - cbv. lia.
  - exists self', sens. split; [exact E|]. split; [exact Hs|].
    assert (H0 : (1 < 2)%nat) by lia.
    assert (H1 : (1 < side_length (Blastoise.flux ragged_blastoise) 1)%nat)
      by (cbv; lia).
    exact (Hpix 1%nat 1%nat H0 H1).
Defined.

(** ** [make_bins] *)

(** The midpoints of neighbouring elements. *)
Lemma make_bins_midpoints (array : list R) :
  (1 <= length array)%nat ->
  Np.ufunc2 Rplus (Np.slice_Z array 0 (-1))
                  (Np.slice_Z array 1 (Z.of_nat (length array)))
  = Ok (map (fun j => nth j array 0 + nth (S j) array 0)
            (seq 0 (length array - 1))).
Proof.
  intros Hn.
  assert (E0 : Np.slice_Z array 0 (-1) = Np.slice array 0 (length array - 1)).
  { unfold Np.slice_Z. change (0 <? 0)%Z with false.
    change (-1 <? 0)%Z with true. cbv iota. f_equal; lia. }
  assert (E1 : Np.slice_Z array 1 (Z.of_nat (length array))
               = Np.slice array 1 (length array)).
  { apply (slice_Z_nat array 1 (length array)); lia. }
  rewrite E0, E1.
  rewrite ufunc2_same_length by (rewrite !length_slice by lia; lia).
  f_equal. apply (nth_ext _ _ 0 0).
  - rewrite length_map2 by (rewrite !length_slice by lia; lia).
    rewrite length_slice by lia. rewrite length_map, length_seq. lia.
  - intros j Hj.
    rewrite length_map2 in Hj by (rewrite !length_slice by lia; lia).
    rewrite length_slice in Hj by lia.
    rewrite nth_map2
      by (rewrite !length_slice by lia; lia).
    rewrite !nth_slice by lia.
    rewrite (nth_indep (map _ (seq 0 (length array - 1))) 0
               (nth 0 array 0 + nth 1 array 0))
      by (rewrite length_map, length_seq; lia).
    rewrite (map_nth (fun j => nth j array 0 + nth (S j) array 0)).
    rewrite seq_nth by lia. reflexivity.
Qed.

(** The result of [make_bins] on an array of three elements or more. *)
Lemma make_bins_result (array : list R) :
  (3 <= length array)%nat ->
  let mid j := (nth j array 0 + nth (S j) array 0) / 2 in
  let spacing := mid 1%nat - mid 0%nat in
  let last := mid (length array - 2)%nat - spacing in
  Tools.make_bins array
  = Ok (map (fun j => mid j - spacing) (seq 0 (length array - 1))
        ++ [last + spacing] ++ [last + spacing + spacing]).
Proof.
  intros Hn mid spacing last. unfold Tools.make_bins.
  rewrite make_bins_midpoints by lia. cbn [bind].
  rewrite map_map. fold mid.
  assert (Hlen : length (map mid (seq 0 (length array - 1)))
                 = (length array - 1)%nat)
    by (now rewrite length_map, length_seq).
  assert (Hnth : forall j, (j < length array - 1)%nat ->
            nth j (map mid (seq 0 (length array - 1))) 0 = mid j).
  { intros j Hj. rewrite (nth_indep _ 0 (mid 0%nat)) by lia.
    rewrite (map_nth mid). now rewrite seq_nth. }
  change 1%Z with (Z.of_nat 1).
  rewrite (getitem_nat _ 0) by lia. cbn [bind].
  change (Np.getitem (map mid (seq 0 (length array - 1))) 0)
    with (Np.getitem (map mid (seq 0 (length array - 1))) (Z.of_nat 0)).
  rewrite (getitem_nat _ 0) by lia. cbn [bind].
  rewrite !Hnth by lia. fold spacing. rewrite map_map.
  assert (Hlast : forall (l : list R) (x : R),
            Np.getitem (l ++ [x]) (-1) = Ok x).
  { intros l x. rewrite getitem_last by (destruct l; discriminate).
    rewrite length_app. cbn [length].
    replace (length l + 1 - 1)%nat with (length l) by lia.
    rewrite app_nth2 by lia. now rewrite Nat.sub_diag. }
  rewrite getitem_last.
  2:{ intros E. apply (f_equal (@length R)) in E.
      rewrite length_map, length_seq in E. simpl in E. lia. }
  cbn [bind]. rewrite length_map, length_seq.
  rewrite (nth_indep _ 0 (mid 0%nat - spacing))
    by (rewrite length_map, length_seq; lia).
  rewrite (map_nth (fun j => mid j - spacing)).
  rewrite seq_nth by lia.
  replace (0 + (length array - 1 - 1))%nat with (length array - 2)%nat by lia.
  fold last. rewrite Hlast. cbn [bind]. rewrite <- app_assoc. reflexivity.
Qed.

(** X11. [make_bins] needs three elements or more: on a shorter array the
    read of the second midpoint raises [IndexError]. *)
Theorem make_bins_short_array (array : list R) :
  (length array < 3)%nat -> Tools.make_bins array = Raise IndexError.
Proof.
  intros Hn. destruct array as [|x [|y [|z t]]]; [| | |simpl in Hn; lia];
    reflexivity.
Qed.

Lemma make_bins_short_array_witness :
  Tools.make_bins [1215; 1216] = Raise IndexError.
Proof. apply make_bins_short_array. simpl. lia. Defined.

(** X12. On [n >= 3] values evenly spaced by [d], [make_bins] returns the
    [n + 1] edges that lie half a spacing below each value and half a
    spacing above the last one: every value sits in the middle of its
    bin. *)
Theorem make_bins_evenly_spaced (a0 d : R) (n : nat) :
  (3 <= n)%nat ->
  Tools.make_bins (map (fun i => a0 + INR i * d) (seq 0 n))
  = Ok (map (fun j => a0 + INR j * d - d / 2) (seq 0 (S n))).
Proof.
  intros Hn. set (array := map (fun i => a0 + INR i * d) (seq 0 n)).
  assert (Hlen : length array = n)
    by (unfold array; now rewrite length_map, length_seq).
  assert (Hnth : forall j, (j < n)%nat -> nth j array 0 = a0 + INR j * d).
  { intros j Hj. unfold array.
    rewrite (nth_indep _ 0 (a0 + INR 0 * d))
      by (rewrite length_map, length_seq; lia).
    rewrite (map_nth (fun i => a0 + INR i * d)). now rewrite seq_nth. }
  rewrite make_bins_result by lia. rewrite Hlen. f_equal.
  assert (Hmid : forall j, (S j < n)%nat ->
            (nth j array 0 + nth (S j) array 0) / 2
            = a0 + INR j * d + d / 2).
  { intros j Hj. rewrite !Hnth by lia. rewrite S_INR. lra. }
  rewrite !Hmid by lia.
  replace (a0 + INR 1 * d + d / 2 - (a0 + INR 0 * d + d / 2)) with d
    by (simpl; lra).
  replace (S n) with ((n - 1) + 2)%nat by lia.
  rewrite seq_app, map_app. f_equal.
  - apply map_ext_in. intros j Hj. apply in_seq in Hj.
    rewrite Hmid by lia. lra.
  - cbn [seq map Nat.add app].
    replace (INR (S (n - 1))) with (INR (n - 1) + 1)
      by (now rewrite S_INR).
    replace (INR (n - 1)) with (INR (n - 2) + 1)
      by (rewrite <- S_INR; f_equal; lia).
    f_equal; [lra | f_equal; lra].
Qed.

Lemma make_bins_evenly_spaced_witness :
  Tools.make_bins (map (fun i => 1215 + INR i * 2) (seq 0 4))
  = Ok (map (fun j => 1215 + INR j * 2 - 2 / 2) (seq 0 5)).
Proof. apply (make_bins_evenly_spaced 1215 2 4). lia. Defined.

(** ** [doppler_shift] *)

Lemma clip_as_nat (s n : nat) :
  (2 <= n)%nat ->
  exists k, Np.clip (Z.of_nat s) 1 (Z.of_nat n - 1) = Z.of_nat (S k)
            /\ (S k < n)%nat.
Proof.
  intros Hn.
  exists (Z.to_nat (Np.clip (Z.of_nat s) 1 (Z.of_nat n - 1)) - 1)%nat.
  unfold Np.clip. split; lia.
Qed.

(** Extrapolating evaluation never fails on two knots or more. *)
Lemma linear_call_chord (x y : list R) (fill v : R) :
  length x = length y -> (2 <= length x)%nat ->
  exists k, (S k < length x)%nat /\
    Scipy.linear_call
      {| Scipy.interp_x := x; Scipy.interp_y := y; Scipy.interp_fill := fill |}
      v
    = Ok ((nth (S k) y 0 - nth k y 0) / (nth (S k) x 0 - nth k x 0)
          * (v - nth k x 0) + nth k y 0).
Proof.
  intros Hlen H2. unfold Scipy.linear_call.
  cbn [Scipy.interp_x Scipy.interp_y].
  destruct (clip_as_nat (Np.searchsorted x v) (length x) H2) as (k & Hk & Hkn).
  exists k. split; [exact Hkn|]. rewrite Hk.
  replace (Z.of_nat (S k) - 1)%Z with (Z.of_nat k) by lia.
  rewrite !(getitem_nat x 0), !(getitem_nat y 0) by lia. reflexivity.
Qed.

(** Inside the knots the bounded evaluation is the extrapolating one. *)
Lemma interp1d_call_inside (x y : list R) (fill v : R) :
  x <> [] -> nth 0 x 0 <= v -> v <= nth (length x - 1) x 0 ->
  Scipy.interp1d_call
    {| Scipy.interp_x := x; Scipy.interp_y := y; Scipy.interp_fill := fill |} v
  = Scipy.linear_call
      {| Scipy.interp_x := x; Scipy.interp_y := y; Scipy.interp_fill := fill |}
      v.
Proof.
  intros Hne Hlo Hhi. unfold Scipy.interp1d_call, Scipy.linear_call.
  cbn [Scipy.interp_x Scipy.interp_y Scipy.interp_fill].
  assert (Hlen : (1 <= length x)%nat)
    by (destruct x; [congruence | simpl; lia]).
  change (Np.getitem x 0) with (Np.getitem x (Z.of_nat 0)).
  rewrite (getitem_nat x 0 0) by lia. cbn [bind].
  rewrite getitem_last by assumption. cbn [bind].
  by_cases_ltb v (nth 0 x 0); [lra|].
  by_cases_ltb (nth (length x - 1) x 0) v; [lra|]. reflexivity.
Qed.

(** Outside the knots the bounded evaluation gives the fill value. *)
Lemma interp1d_call_outside (x y : list R) (fill v : R) :
  x <> [] -> v < nth 0 x 0 \/ nth (length x - 1) x 0 < v ->
  Scipy.interp1d_call
    {| Scipy.interp_x := x; Scipy.interp_y := y; Scipy.interp_fill := fill |} v
  = Ok fill.
Proof.
  intros Hne Hout. unfold Scipy.interp1d_call.
  cbn [Scipy.interp_x Scipy.interp_y Scipy.interp_fill].
  assert (Hlen : (1 <= length x)%nat)
    by (destruct x; [congruence | simpl; lia]).
  change (Np.getitem x 0) with (Np.getitem x (Z.of_nat 0)).
  rewrite (getitem_nat x 0 0) by lia. cbn [bind].
  rewrite getitem_last by assumption. cbn [bind].
  destruct Hout as [H|H].
  - by_cases_ltb v (nth 0 x 0); [reflexivity | lra].
  - by_cases_ltb (nth (length x - 1) x 0) v;
      [now rewrite orb_true_r | lra].
Qed.

(** The bounded evaluation never fails on two knots or more. *)
Lemma interp1d_call_total (x y : list R) (fill v : R) :
  length x = length y -> (2 <= length x)%nat ->
  exists r,
    Scipy.interp1d_call
      {| Scipy.interp_x := x; Scipy.interp_y := y; Scipy.interp_fill := fill |}
      v = Ok r.
Proof.
  intros Hlen H2.
  assert (Hne : x <> []) by (destruct x; [simpl in H2; lia | discriminate]).
  destruct (Rlt_dec v (nth 0 x 0)) as [H|H].
  { eexists. apply interp1d_call_outside; [exact Hne | left; exact H]. }
  destruct (Rlt_dec (nth (length x - 1) x 0) v) as [H'|H'].
  { eexists. apply interp1d_call_outside; [exact Hne | right; exact H']. }
  rewrite interp1d_call_inside by (try assumption; lra).
  destruct (linear_call_chord x y fill v Hlen H2) as (k & _ & E).
  eexists. exact E.
Qed.

Lemma interp1d_eval_total (f : Scipy.interp1d) (xs : list R) :
  (forall v, exists r, Scipy.interp1d_call f v = Ok r) ->
  exists ys, Scipy.interp1d_eval f xs = Ok ys /\ length ys = length xs /\
    forall j, (j < length xs)%nat ->
      Scipy.interp1d_call f (nth j xs 0) = Ok (nth j ys 0).
Proof.
  intros Htot. induction xs as [|v xs (ys & E & Hl & Hp)].
  - exists []. split; [reflexivity|]. split; [reflexivity|].
    intros j Hj. simpl in Hj. lia.
  - destruct (Htot v) as [r Er]. exists (r :: ys).
    cbn [Scipy.interp1d_eval]. rewrite Er. cbn [bind]. rewrite E.
    split; [reflexivity|]. split; [simpl; lia|].
    intros [|j] Hj; [exact Er|]. apply Hp. simpl in Hj. lia.
Qed.

Lemma linear_eval_pointwise (f : Scipy.interp1d) (xs ys : list R) :
  length xs = length ys ->
  (forall j, (j < length xs)%nat ->
     Scipy.linear_call f (nth j xs 0) = Ok (nth j ys 0)) ->
  Scipy.linear_eval f xs = Ok ys.
Proof.
  revert ys. induction xs as [|v xs IH]; intros [|w ys] Hlen H;
    simpl in Hlen; try discriminate; [reflexivity|].
  cbn [Scipy.linear_eval].
  pose proof (H 0%nat ltac:(simpl; lia)) as H0. cbn [nth] in H0.
  rewrite H0. cbn [bind].
  rewrite (IH ys) by (try lia; intros j Hj; apply (H (S j)); simpl; lia).
  reflexivity.
Qed.

(** A shifted grid keeps its order. *)
Lemma strictly_ascending_shift (a : list R) (shift : R) :
  strictly_ascending a -> strictly_ascending (map (fun w => w + shift) a).
Proof.
  induction a as [|x t IH]; [trivial|]. destruct t as [|y t]; [trivial|].
  intros [Hxy Ht]. split; [lra|]. apply IH. exact Ht.
Qed.

Lemma nth_shift (a : list R) (shift : R) (i : nat) :
  (i < length a)%nat ->
  nth i (map (fun w => w + shift) a) 0 = nth i a 0 + shift.
Proof. intros Hi. now rewrite nth_map_lt. Qed.

(** The extrapolating interpolant of knots that lie on a line is that
    line. *)
Lemma linear_call_affine (x y : list R) (fill m b v : R) :
  strictly_ascending x -> length x = length y -> (2 <= length x)%nat ->
  (forall i, (i < length x)%nat -> nth i y 0 = m * nth i x 0 + b) ->
  Scipy.linear_call
    {| Scipy.interp_x := x; Scipy.interp_y := y; Scipy.interp_fill := fill |} v
  = Ok (m * v + b).
Proof.
  intros Hs Hlen H2 Hline.
  destruct (linear_call_chord x y fill v Hlen H2) as (k & Hk & E).
  rewrite E. f_equal. rewrite !Hline by lia.
  pose proof (strictly_ascending_nth x k (S k) Hs ltac:(lia)).
  field. lra.
Qed.

Lemma doppler_shift_zero (ref_wl : R)
    (wavelength flux uncertainty : list R) (fill_value : option R) :
  strictly_ascending wavelength ->
  length wavelength = length flux ->
  length wavelength = length uncertainty ->
  (2 <= length wavelength)%nat ->
  Tools.doppler_shift 0 ref_wl wavelength flux uncertainty fill_value
  = Ok (flux, uncertainty).
Proof.
  intros Hs Hf Hu H2. unfold Tools.doppler_shift. cbv zeta.
  assert (Hid : map (fun w => w + 0 / Tools.light_speed * ref_wl) wavelength
                = wavelength).
  { rewrite <- (map_id wavelength) at 2. apply map_ext.
    intros w. unfold Rdiv. ring. }
  rewrite Hid.
  assert (Hne : wavelength <> [])
    by (destruct wavelength; [simpl in H2; lia | discriminate]).
  pose proof (strictly_ascending_ascending wavelength Hs) as Hasc.
  pose proof (ascending_monotone wavelength Hasc) as Hmono.
  destruct fill_value as [c|].
  - rewrite !interp1d_new_ascending by assumption. cbn [bind].
    rewrite (interp1d_eval_pointwise _ wavelength flux Hf)
      by (intros j Hj; now apply interp1d_call_at_knot).
    cbn [bind].
    rewrite (interp1d_eval_pointwise _ wavelength uncertainty Hu)
      by (intros j Hj; now apply interp1d_call_at_knot).
    reflexivity.
  - rewrite !interp1d_new_ascending by assumption. cbn [bind].
    assert (Hknot : forall (y : list R) j,
              length wavelength = length y -> (j < length wavelength)%nat ->
              Scipy.linear_call
                {| Scipy.interp_x := wavelength; Scipy.interp_y := y;
                   Scipy.interp_fill := 0 |} (nth j wavelength 0)
              = Ok (nth j y 0)).
    { intros y j Hy Hj.
      rewrite <- interp1d_call_inside
        by (try assumption; apply Hmono; lia).
      now apply interp1d_call_at_knot. }
    rewrite (linear_eval_pointwise _ wavelength flux Hf)
      by (intros j Hj; now apply Hknot).
    cbn [bind].
    rewrite (linear_eval_pointwise _ wavelength uncertainty Hu)
      by (intros j Hj; now apply Hknot).
    reflexivity.
Qed.

(** X13. A Doppler shift of zero velocity gives the spectrum back, with the
    default extrapolation as with a constant fill value: on a strictly
    ascending wavelength grid of two pixels or more the flux and the
    uncertainty are returned unchanged. *)
Theorem doppler_shift_zero_velocity (ref_wl : R)
    (wavelength flux uncertainty : list R) (fill_value : option R) :
  strictly_ascending wavelength ->
  length wavelength = length flux ->
  length wavelength = length uncertainty ->
  (2 <= length wavelength)%nat ->
  Tools.doppler_shift 0 ref_wl wavelength flux uncertainty fill_value
  = Ok (flux, uncertainty).
Proof. exact (doppler_shift_zero ref_wl wavelength flux uncertainty fill_value). Qed.

Lemma doppler_shift_zero_velocity_witness :
  Tools.doppler_shift 0 1215.67 [1214; 1215; 1216; 1217] [1; 5; 2; 1]
    [0.1; 0.5; 0.2; 0.1] None
  = Ok ([1; 5; 2; 1], [0.1; 0.5; 0.2; 0.1]).
Proof.
  apply doppler_shift_zero_velocity; try reflexivity; [|simpl; lia].
  simpl. repeat split; lra.
Defined.

(** X14. With the default extrapolation, a spectrum whose flux and
    uncertainty lie on straight lines in wavelength is moved exactly: each
    pixel receives the value that the line takes at its wavelength minus
    the shift [velocity / c * ref_wl]. *)
Theorem doppler_shift_line (velocity ref_wl m b m' b' : R)
    (wavelength : list R) :
  strictly_ascending wavelength ->
  (2 <= length wavelength)%nat ->
  let shift := velocity / Tools.light_speed * ref_wl in
  Tools.doppler_shift velocity ref_wl wavelength
    (map (fun w => m * w + b) wavelength)
    (map (fun w => m' * w + b') wavelength) None
  = Ok (map (fun w => m * (w - shift) + b) wavelength,
        map (fun w => m' * (w - shift) + b') wavelength).
Proof.
  intros Hs H2 shift. unfold Tools.doppler_shift. cbv zeta. fold shift.
  set (new_wv := map (fun w => w + shift) wavelength).
  assert (Hs' : strictly_ascending new_wv)
    by (now apply strictly_ascending_shift).
  assert (Hlen : length new_wv = length wavelength)
    by (unfold new_wv; now rewrite length_map).
  assert (Hne : new_wv <> []).
  { intros E. rewrite E in Hlen. simpl in Hlen. lia. }
  assert (H2' : (2 <= length new_wv)%nat) by lia.
  assert (Hline : forall (k c : R) (v : R),
            Scipy.linear_call
              {| Scipy.interp_x := new_wv;
                 Scipy.interp_y := map (fun w => k * w + c) wavelength;
                 Scipy.interp_fill := 0 |} v
            = Ok (k * (v - shift) + c)).
  { intros k c v.
    rewrite (linear_call_affine new_wv _ 0 k (c - k * shift) v);
      [f_equal; ring | exact Hs' | now rewrite length_map | lia |].
    intros i Hi. unfold new_wv. rewrite nth_shift by lia.
    rewrite nth_map_lt by lia. ring. }
  rewrite !interp1d_new_ascending
    by (try assumption; try (now rewrite length_map);
        now apply strictly_ascending_ascending).
  cbn [bind].
  rewrite (linear_eval_pointwise _ wavelength
             (map (fun w => m * (w - shift) + b) wavelength))
    by (try (now rewrite length_map); intros j Hj;
        rewrite Hline; f_equal; now rewrite nth_map_lt).
  cbn [bind].
  rewrite (linear_eval_pointwise _ wavelength
             (map (fun w => m' * (w - shift) + b') wavelength))
    by (try (now rewrite length_map); intros j Hj;
        rewrite Hline; f_equal; now rewrite nth_map_lt).
  reflexivity.
Qed.

Lemma doppler_shift_line_witness :
  Tools.doppler_shift 100 1215.67 [1214; 1215; 1216]
    (map (fun w => 2 * w + 1) [1214; 1215; 1216])
    (map (fun w => 0 * w + 3) [1214; 1215; 1216]) None
  = Ok (map (fun w => 2 * (w - 100 / Tools.light_speed * 1215.67) + 1)
            [1214; 1215; 1216],
        map (fun w => 0 * (w - 100 / Tools.light_speed * 1215.67) + 3)
            [1214; 1215; 1216]).
Proof.
  apply (doppler_shift_line 100 1215.67 2 1 0 3 [1214; 1215; 1216]).
  - simpl. repeat split; lra.
  - simpl. lia.
Defined.

(** X15. With a constant fill value the pixels that the shifted spectrum
    no longer covers receive that value, for the flux and for the
    uncertainty alike: the first pixel after a shift to longer
    wavelengths, the last one after a shift to shorter wavelengths.  The
    arrays keep their length. *)
Theorem doppler_shift_fill_value (velocity ref_wl c : R)
    (wavelength flux uncertainty : list R) :
  strictly_ascending wavelength ->
  length wavelength = length flux ->
  length wavelength = length uncertainty ->
  (2 <= length wavelength)%nat ->
  let shift := velocity / Tools.light_speed * ref_wl in
  let n := length wavelength in
  exists new_flux new_uncertainty,
    Tools.doppler_shift velocity ref_wl wavelength flux uncertainty (Some c)
    = Ok (new_flux, new_uncertainty) /\
    length new_flux = n /\ length new_uncertainty = n /\
    (0 < shift -> nth 0 new_flux 0 = c /\ nth 0 new_uncertainty 0 = c) /\
    (shift < 0 ->
     nth (n - 1) new_flux 0 = c /\ nth (n - 1) new_uncertainty 0 = c).
Proof.
  intros Hs Hf Hu H2 shift n. unfold Tools.doppler_shift. cbv zeta.
  fold shift. set (new_wv := map (fun w => w + shift) wavelength).
  assert (Hs' : strictly_ascending new_wv)
    by (now apply strictly_ascending_shift).
  assert (Hlen : length new_wv = length wavelength)
    by (unfold new_wv; now rewrite length_map).
  assert (Hne : new_wv <> []).
  { intros E. rewrite E in Hlen. simpl in Hlen. lia. }
  assert (H2' : (2 <= length new_wv)%nat) by lia.
  rewrite !interp1d_new_ascending
    by (try assumption; try congruence;
        now apply strictly_ascending_ascending).
  cbn [bind].
  destruct (interp1d_eval_total
              {| Scipy.interp_x := new_wv; Scipy.interp_y := flux;
                 Scipy.interp_fill := c |} wavelength)
    as (nf & Ef & Hlf & Hpf).
  { intros v. apply interp1d_call_total; [congruence | lia]. }
  destruct (interp1d_eval_total
              {| Scipy.interp_x := new_wv; Scipy.interp_y := uncertainty;
                 Scipy.interp_fill := c |} wavelength)
    as (nu & Eu & Hlu & Hpu).
  { intros v. apply interp1d_call_total; [congruence | lia]. }
  rewrite Ef. cbn [bind]. rewrite Eu. cbn [bind].
  exists nf, nu. split; [reflexivity|]. split; [exact Hlf|].
  split; [exact Hlu|].
  assert (Hout : forall (y : list R) (ys : list R) j,
            (j < length wavelength)%nat ->
            nth j wavelength 0 < nth 0 new_wv 0
            \/ nth (length new_wv - 1) new_wv 0 < nth j wavelength 0 ->
            Scipy.interp1d_call
              {| Scipy.interp_x := new_wv; Scipy.interp_y := y;
                 Scipy.interp_fill := c |} (nth j wavelength 0)
            = Ok (nth j ys 0) ->
            nth j ys 0 = c).
  { intros y ys j Hj Ho E.
    rewrite interp1d_call_outside in E by assumption. congruence. }
  split.
  - intros Hpos.
    assert (Ho : nth 0 wavelength 0 < nth 0 new_wv 0
                 \/ nth (length new_wv - 1) new_wv 0 < nth 0 wavelength 0).
    { left. unfold new_wv. rewrite nth_shift by lia. lra. }
    split; [apply (Hout flux nf 0%nat) | apply (Hout uncertainty nu 0%nat)];
      try lia; try exact Ho; [apply Hpf | apply Hpu]; lia.
  - intros Hneg. unfold n.
    assert (Ho : nth (length wavelength - 1) wavelength 0 < nth 0 new_wv 0
                 \/ nth (length new_wv - 1) new_wv 0
                    < nth (length wavelength - 1) wavelength 0).
    { right. rewrite Hlen. unfold new_wv. rewrite nth_shift by lia. lra. }
    split; [apply (Hout flux nf (length wavelength - 1)%nat)
           | apply (Hout uncertainty nu (length wavelength - 1)%nat)];
      try lia; try exact Ho; [apply Hpf | apply Hpu]; lia.
Qed.

Lemma doppler_shift_fill_value_witness :
  exists new_flux new_uncertainty,
    Tools.doppler_shift 100 1215.67 [1214; 1215; 1216] [1; 5; 2]
      [0.1; 0.5; 0.2] (Some 1e-18)
    = Ok (new_flux, new_uncertainty) /\
    length new_flux = 3%nat /\
    nth 0 new_flux 0 = 1e-18 /\ nth 0 new_uncertainty 0 = 1e-18.
Proof.
  destruct (doppler_shift_fill_value 100 1215.67 1e-18 [1214; 1215; 1216]
              [1; 5; 2] [0.1; 0.5; 0.2])
    as (nf & nu & E & Hl & _ & Hpos & _).
  - simpl. repeat split; lra.
  - reflexivity.
  - reflexivity.
  - simpl. lia.
  - exists nf, nu. split; [exact E|]. split; [exact Hl|].
    apply Hpos. unfold Tools.light_speed. lra.
Defined.

(** ** [gaussian] *)

Lemma exp_le_1 (t : R) : t <= 0 -> exp t <= 1.
Proof.
  intros [H|H].
  - rewrite <- exp_0. left. now apply exp_increasing.
  - rewrite H, exp_0. lra.
Qed.

Lemma gaussian_exponent_nonpos (t width : R) :
  width <> 0 -> - t ^ 2 / (2 * width ^ 2) <= 0.
Proof.
  intros Hw. assert (0 < 2 * width ^ 2) by nra.
  assert (0 <= t ^ 2) by nra.
  unfold Rdiv. rewrite <- Ropp_mult_distr_l.
  apply Ropp_le_cancel. rewrite Ropp_involutive, Ropp_0.
  apply Rmult_le_pos; [assumption|]. left. now apply Rinv_0_lt_compat.
Qed.

(** X16. With an amplitude that is not negative and a width that is not
    zero, [gaussian] takes the amplitude at the centre, stays between zero
    and the amplitude everywhere, and has the same value at equal distances
    on both sides of the centre. *)
Theorem gaussian_peak (center width amplitude : R) :
  width <> 0 -> 0 <= amplitude ->
  Tools.gaussian center center width (Some amplitude) = amplitude /\
  (forall x, 0 <= Tools.gaussian x center width (Some amplitude) <= amplitude) /\
  (forall t, Tools.gaussian (center + t) center width (Some amplitude)
             = Tools.gaussian (center - t) center width (Some amplitude)).
Proof.
  intros Hw Ha. unfold Tools.gaussian. split; [|split].
  - replace (- (center - center) ^ 2 / (2 * width ^ 2)) with 0.
    + rewrite exp_0. ring.
    + field. exact Hw.
  - intros x.
    pose proof (gaussian_exponent_nonpos (x - center) width Hw) as He.
    pose proof (exp_le_1 _ He) as H1.
    pose proof (exp_pos (- (x - center) ^ 2 / (2 * width ^ 2))) as H0.
    split; nra.
  - intros t. do 2 f_equal. f_equal. ring.
Qed.

Lemma gaussian_peak_witness :
  Tools.gaussian 1215 1215 2 (Some 3) = 3 /\
  (forall x, 0 <= Tools.gaussian x 1215 2 (Some 3) <= 3) /\
  (forall t, Tools.gaussian (1215 + t) 1215 2 (Some 3)
             = Tools.gaussian (1215 - t) 1215 2 (Some 3)).
Proof. apply (gaussian_peak 1215 2 3); lra. Defined.

(** X17. Without an amplitude, [gaussian] is the curve of amplitude
    [1 / (width * (2 pi) ** 0.5)], for any width but zero; for a negative
    width it is therefore negative everywhere. *)
Theorem gaussian_normalized (x center width : R) :
  width <> 0 ->
  Tools.gaussian x center width None
  = Tools.gaussian x center width (Some (1 / (width * sqrt (2 * PI)))) /\
  (width < 0 -> Tools.gaussian x center width None < 0).
Proof.
  intros Hw. unfold Tools.gaussian. cbv zeta.
  assert (Hpi : 0 < sqrt (2 * PI)).
  { apply sqrt_lt_R0. pose proof PI_RGT_0. lra. }
  assert (Hexp : - 0.5 * ((x - center) / width) ^ 2
                 = - (x - center) ^ 2 / (2 * width ^ 2))
    by (replace (-0.5) with (- (1 / 2)) by lra; field; exact Hw).
  rewrite Hexp. split.
  - f_equal. field. split; [lra | exact Hw].
  - intros Hneg.
    pose proof (exp_pos (- (x - center) ^ 2 / (2 * width ^ 2))) as H0.
    assert (H1 : 1 / width / sqrt (2 * PI) < 0).
    { unfold Rdiv. rewrite Rmult_1_l.
      assert (/ width < 0) by (now apply Rinv_lt_0_compat).
      assert (0 < / sqrt (2 * PI)) by (now apply Rinv_0_lt_compat).
      nra. }
    nra.
Qed.

Lemma gaussian_normalized_witness :
  Tools.gaussian 1216 1215 2 None
  = Tools.gaussian 1216 1215 2 (Some (1 / (2 * sqrt (2 * PI)))) /\
  (2 < 0 -> Tools.gaussian 1216 1215 2 None < 0).
Proof. apply (gaussian_normalized 1216 1215 2). lra. Defined.

(** ** [combine_spectra] on a common grid *)

Lemma for_each_seq {B : Type} (body : nat -> result B) (l : list B) (d : B)
    (start : nat) :
  (forall i, (i < length l)%nat -> body (start + i)%nat = Ok (nth i l d)) ->
  Tools.for_each body (seq start (length l)) = Ok l.
Proof.
  revert start. induction l as [|x l IH]; intros start H; [reflexivity|].
  cbn [length seq Tools.for_each].
  pose proof (H 0%nat ltac:(simpl; lia)) as H0.
  rewrite Nat.add_0_r in H0. cbn [nth] in H0. rewrite H0. cbn [bind].
  rewrite IH; [reflexivity|].
  intros i Hi. replace (S start + i)%nat with (start + S i)%nat by lia.
  apply (H (S i)). simpl. lia.
Qed.

Lemma map_fst_combine_any {A B : Type} (x : list A) (y : list B) :
  length x = length y -> map fst (combine x y) = x.
Proof.
  revert y. induction x as [|a x IH]; intros [|b y] H; simpl in *;
    try discriminate; try reflexivity.
  f_equal. apply IH. lia.
Qed.

Lemma map_snd_combine_map {A B C : Type} (g : B -> C) (x : list A)
    (y : list B) :
  length x = length y ->
  map (fun r => g (snd r)) (combine x y) = map g y.
Proof.
  revert y. induction x as [|a x IH]; intros [|b y] H; simpl in *;
    try discriminate; try reflexivity.
  f_equal. apply IH. lia.
Qed.

Lemma nth_length_in (l : list (list R)) (n i : nat) :
  (forall r, In r l -> length r = n) -> (i < length l)%nat ->
  length (nth i l []) = n.
Proof. intros H Hi. apply H. now apply nth_In. Qed.

(** X18. Spectra given on one and the same strictly ascending wavelength
    grid are combined pixel by pixel: the flux is the mean of the fluxes
    and the uncertainty is the square root of the sum of the squared
    uncertainties divided by the number of spectra.  With a reference
    wavelength the velocities [(w - ref) / ref * c] are returned as
    well. *)
Theorem combine_spectra_common_grid (w : list R)
    (flux_list uncertainty_list : list (list R)) (ref_wavelength : option R) :
  strictly_ascending w -> (2 <= length w)%nat ->
  (1 <= length flux_list)%nat ->
  length flux_list = length uncertainty_list ->
  (forall f, In f flux_list -> length f = length w) ->
  (forall u, In u uncertainty_list -> length u = length w) ->
  Tools.combine_spectra (repeat w (length flux_list)) flux_list
    uncertainty_list ref_wavelength None
  = Ok (w,
        match ref_wavelength with
        | Some ref =>
            Some (map (fun x => (x - ref) / ref * Tools.light_speed) w)
        | None => None
        end,
        mean_rows flux_list, quadrature_mean uncertainty_list).
Proof.
  intros Hs H2 HN Hlen Hf Hu. unfold Tools.combine_spectra.
  rewrite repeat_length.
  change (Np.getitem (repeat w (length flux_list)) 0)
    with (Np.getitem (repeat w (length flux_list)) (Z.of_nat 0)).
  rewrite getitem_repeat by lia. cbn [bind].
  assert (Hloop : forall body,
            body = (fun i : nat =>
                      w_i <- Np.getitem (repeat w (length flux_list))
                               (Z.of_nat i) ;;
                      f_i <- Np.getitem flux_list (Z.of_nat i) ;;
                      ff <- Scipy.interp1d_new w_i f_i 1e-18 ;;
                      u_i <- Np.getitem uncertainty_list (Z.of_nat i) ;;
                      fu <- Scipy.interp1d_new w_i u_i 1e-18 ;;
                      fi <- Scipy.interp1d_eval ff w ;;
                      ui <- Scipy.interp1d_eval fu w ;;
                      Ok (fi, ui)) ->
            Tools.for_each body (seq 0 (length flux_list))
            = Ok (combine flux_list uncertainty_list)).
  { intros body ->.
    assert (Hc : length (combine flux_list uncertainty_list)
                 = length flux_list)
      by (rewrite length_combine; lia).
    replace (seq 0 (length flux_list))
      with (seq 0 (length (combine flux_list uncertainty_list)))
      by (now rewrite Hc).
    apply (for_each_seq _ _ ([], [])).
    intros i Hi. rewrite Hc in Hi. cbn [Nat.add].
    rewrite getitem_repeat by lia. cbn [bind].
    rewrite (getitem_nat flux_list []) by lia. cbn [bind].
    assert (Hfi : length (nth i flux_list []) = length w)
      by (apply Hf, nth_In; lia).
    assert (Hui : length (nth i uncertainty_list []) = length w)
      by (apply Hu, nth_In; lia).
    destruct (interp1d_on_own_grid w (nth i flux_list []) 1e-18 Hs
                (eq_sym Hfi) H2) as (ff & Eff & Evf).
    destruct (interp1d_on_own_grid w (nth i uncertainty_list []) 1e-18 Hs
                (eq_sym Hui) H2) as (fu & Efu & Evu).
    rewrite Eff. cbn [bind].
    rewrite (getitem_nat uncertainty_list []) by lia. cbn [bind].
    rewrite Efu. cbn [bind]. rewrite Evf. cbn [bind]. rewrite Evu.
    cbn [bind]. now rewrite combine_nth. }
  rewrite (Hloop _ eq_refl). cbn [bind].
  rewrite map_fst_combine_any by assumption.
  rewrite (map_snd_combine_map (map (fun x => x ^ 2))) by assumption.
  unfold mean_rows, quadrature_mean. rewrite <- Hlen.
  destruct ref_wavelength; reflexivity.
Qed.

Lemma combine_spectra_common_grid_witness :
  Tools.combine_spectra (repeat [1300; 1301; 1302] 2)
    [[1; 2; 3]; [3; 6; 9]] [[3; 3; 3]; [4; 4; 4]] (Some 1301) None
  = Ok ([1300; 1301; 1302],
        Some (map (fun x => (x - 1301) / 1301 * Tools.light_speed)
                  [1300; 1301; 1302]),
        mean_rows [[1; 2; 3]; [3; 6; 9]],
        quadrature_mean [[3; 3; 3]; [4; 4; 4]]).
Proof.
  apply (combine_spectra_common_grid [1300; 1301; 1302]
           [[1; 2; 3]; [3; 6; 9]] [[3; 3; 3]; [4; 4; 4]] (Some 1301)).
  - simpl. repeat split; lra.
  - simpl. lia.
  - simpl. lia.
  - reflexivity.
  - intros f [<-|[<-|[]]]; reflexivity.
  - intros u [<-|[<-|[]]]; reflexivity.
Defined.

(** ** [integrated_flux] *)

(** The pixel widths [wavelength[ind][1:] - wavelength[ind][:-1]]. *)
Lemma delta_wl_result (w : list R) :
  (1 <= length w)%nat ->
  Np.ufunc2 Rminus (Np.slice_Z w 1 (Z.of_nat (length w))) (Np.slice_Z w 0 (-1))
  = Ok (map (fun j => nth (S j) w 0 - nth j w 0) (seq 0 (length w - 1))).
Proof.
  intros Hn.
  assert (E0 : Np.slice_Z w 0 (-1) = Np.slice w 0 (length w - 1)).
  { unfold Np.slice_Z. change (0 <? 0)%Z with false.
    change (-1 <? 0)%Z with true. cbv iota. f_equal; lia. }
  assert (E1 : Np.slice_Z w 1 (Z.of_nat (length w)) = Np.slice w 1 (length w)).
  { apply (slice_Z_nat w 1 (length w)); lia. }
  rewrite E0, E1.
  rewrite ufunc2_same_length by (rewrite !length_slice by lia; lia).
  f_equal. apply (nth_ext _ _ 0 0).
  - rewrite length_map2 by (rewrite !length_slice by lia; lia).
    rewrite length_slice by lia. rewrite length_map, length_seq. lia.
  - intros j Hj.
    rewrite length_map2 in Hj by (rewrite !length_slice by lia; lia).
    rewrite length_slice in Hj by lia.
    rewrite nth_map2 by (rewrite !length_slice by lia; lia).
    rewrite !nth_slice by lia.
    rewrite (nth_indep (map _ (seq 0 (length w - 1))) 0
               (nth 1 w 0 - nth 0 w 0))
      by (rewrite length_map, length_seq; lia).
    rewrite (map_nth (fun j => nth (S j) w 0 - nth j w 0)).
    rewrite seq_nth by lia. reflexivity.
Qed.

Lemma nth_map_seq (g : nat -> R) (start len j : nat) :
  (j < len)%nat -> nth j (map g (seq start len)) 0 = g (start + j)%nat.
Proof.
  intros Hj. rewrite (nth_indep _ 0 (g 0%nat))
    by (rewrite length_map, length_seq; lia).
  rewrite (map_nth g). now rewrite seq_nth.
Qed.

(** X19. For a range [lo <= hi] that [pick_side] finds on a side whose
    wavelengths ascend, [integrated_flux] with the method
    ['quadratic_sum'] works on the pixels from the nearest index of [lo]
    up to, and not including, the nearest index of [hi].  When there is
    such a pixel it returns Simpson's rule on them, with as uncertainty the
    square root of the sum over these pixels of
    [((w[i+1] - w[i]) * error[i]) ** 2].  When both bounds have the same
    nearest index there is none, and it raises [IndexError]. *)
Theorem integrated_flux_quadratic_sum
    (simps : list R -> list R -> R)
    (bootstrap : list R -> list R -> list R -> R)
    (self : Sunburn.UVSpectrum) (range : R * R) (k : nat) (w f e : list R) :
  fst range <= snd range ->
  Tools.pick_side (Sunburn.wavelength self) range = Ok k ->
  Np.row (Sunburn.wavelength self) k = Ok w ->
  Np.row (Sunburn.flux self) k = Ok f ->
  Np.row (Sunburn.error self) k = Ok e ->
  ascending w ->
  length f = length w ->
  length e = length w ->
  let min_wl := nearest w (fst range) in
  let max_wl := nearest w (snd range) in
  (min_wl <= max_wl < length w)%nat /\
  ((min_wl < max_wl)%nat ->
   Sunburn.integrated_flux simps bootstrap self (Some range) None None 0
     "quadratic_sum"
   = Ok (simps (Np.slice f min_wl max_wl) (Np.slice w min_wl max_wl),
         sqrt (Np.sum (map (fun i => ((nth (S i) w 0 - nth i w 0)
                                      * nth i e 0) ^ 2)
                           (seq min_wl (max_wl - min_wl)))))) /\
  (min_wl = max_wl ->
   Sunburn.integrated_flux simps bootstrap self (Some range) None None 0
     "quadratic_sum" = Raise IndexError).
Proof.
  intros Hr Hpick Hw Hf He Hasc Hlf Hle min_wl max_wl.
  destruct (pick_side_inside _ _ _ Hpick) as (side & Hside & Hin).
  rewrite Hw in Hside. injection Hside as <-.
  pose proof (inside_two_elements w range Hr Hin) as Hlen.
  pose proof (ascending_monotone w Hasc) as Hmono.
  destruct (nearest_index_nearest w (fst range) Hlen) as [Emin Hmin].
  destruct (nearest_index_nearest w (snd range) Hlen) as [Emax Hmax].
  pose proof (nearest_monotone w _ _ Hmono Hlen Hr) as Hle_idx.
  fold min_wl in Emin, Hmin, Hle_idx. fold max_wl in Emax, Hmax, Hle_idx.
  split; [lia|].
  set (delta := map (fun j => nth (S j) w 0 - nth j w 0)
                    (seq 0 (length w - 1))).
  assert (Hdl : length delta = (length w - 1)%nat)
    by (unfold delta; now rewrite length_map, length_seq).
  assert (Ewin : Sunburn.extract_window self range =
            Ok {| Sunburn.window_wavelength := Np.slice w min_wl max_wl;
                  Sunburn.window_flux := Np.slice f min_wl max_wl;
                  Sunburn.window_error := Np.slice e min_wl max_wl;
                  Sunburn.window_delta_wl := Np.slice delta min_wl max_wl |}).
  { unfold Sunburn.extract_window. rewrite Hpick. cbn [bind].
    rewrite Hw. cbn [bind]. rewrite Emin, Emax. cbn [bind].
    rewrite delta_wl_result by lia. cbn [bind]. rewrite Hf, He. cbn [bind].
    fold delta. rewrite !slice_Z_nat by lia. reflexivity. }
  unfold Sunburn.integrated_flux. cbn [bind]. rewrite Ewin. cbn [bind].
  cbn [Sunburn.window_flux Sunburn.window_error Sunburn.window_wavelength
       Sunburn.window_delta_wl].
  split.
  - intros Hlt.
    rewrite simps_nonempty by (rewrite !length_slice by lia; lia).
    cbn [bind].
    change (String.eqb "quadratic_sum" "quadratic_sum") with true. cbv iota.
    rewrite ufunc2_same_length by (rewrite !length_slice by lia; lia).
    cbn [bind]. do 4 f_equal.
    apply (nth_ext _ _ 0 0).
    + rewrite length_map, length_map2 by (rewrite !length_slice by lia; lia).
      rewrite length_slice by lia. now rewrite length_map, length_seq.
    + intros j Hj.
      rewrite length_map, length_map2 in Hj
        by (rewrite !length_slice by lia; lia).
      rewrite length_slice in Hj by lia.
      rewrite (nth_indep _ 0 ((fun x => x ^ 2) 0))
        by (rewrite length_map, length_map2
              by (rewrite !length_slice by lia; lia);
            rewrite length_slice by lia; lia).
      rewrite (map_nth (fun x => x ^ 2)).
      rewrite nth_map2 by (rewrite !length_slice by lia; lia).
      rewrite !nth_slice by lia.
      rewrite nth_map_seq by lia. unfold delta.
      rewrite nth_map_seq by lia. reflexivity.
  - intros Heq.
    rewrite simps_empty by (rewrite !length_slice by lia; lia).
    reflexivity.
Qed.

Lemma example_uv_pick_side_narrow :
  Tools.pick_side (Sunburn.wavelength example_uv) (1260.5, 1260.6) = Ok 0%nat.
Proof.
  destruct (pick_side_cases (Sunburn.wavelength example_uv) (1260.5, 1260.6)
              ltac:(discriminate)) as [[H0 E]|[[H0 [H1 E]]|[H0 [H1 E]]]];
    try exact E; exfalso; apply H0;
    (split; [exists 1260 | exists 1270];
     (split; [simpl; repeat (first [left; reflexivity | right]) | simpl; lra])).
Qed.

Lemma integrated_flux_quadratic_sum_witness :
  let w := [1260; 1262; 1264; 1266; 1268; 1270] in
  let e := [0.1; 0.2; 0.3; 0.4; 0.5; 0.6] in
  Sunburn.integrated_flux (fun _ _ => 0) (fun _ _ _ => 0) example_uv
    (Some (1261.5, 1268.5)) None None 0 "quadratic_sum"
  = Ok (0,
        sqrt (Np.sum (map (fun i => ((nth (S i) w 0 - nth i w 0)
                                     * nth i e 0) ^ 2)
                          [1; 2; 3]%nat))) /\
  Sunburn.integrated_flux (fun _ _ => 0) (fun _ _ _ => 0) example_uv
    (Some (1260.5, 1260.6)) None None 0 "quadratic_sum" = Raise IndexError.
Proof.
  intros w e.
  assert (E1 : nearest w 1261.5 = 1%nat) by (unfold w; eval_nearest).
  assert (E4 : nearest w 1268.5 = 4%nat) by (unfold w; eval_nearest).
  assert (E0 : nearest w 1260.5 = 0%nat) by (unfold w; eval_nearest).
  assert (E0' : nearest w 1260.6 = 0%nat) by (unfold w; eval_nearest).
  split.
  - destruct (integrated_flux_quadratic_sum (fun _ _ => 0) (fun _ _ _ => 0)
                example_uv (1261.5, 1268.5) 0 w [1; 2; 3; 4; 5; 6] e
                ltac:(simpl; lra) example_uv_pick_side eq_refl eq_refl eq_refl
                ltac:(simpl; lra) eq_refl eq_refl) as (_ & Hok & _).
    cbn [fst snd] in Hok. rewrite E1, E4 in Hok. apply Hok. lia.
  - destruct (integrated_flux_quadratic_sum (fun _ _ => 0) (fun _ _ _ => 0)
                example_uv (1260.5, 1260.6) 0 w [1; 2; 3; 4; 5; 6] e
                ltac:(simpl; lra) example_uv_pick_side_narrow eq_refl eq_refl
                eq_refl ltac:(simpl; lra) eq_refl eq_refl) as (_ & _ & Hraise).
    cbn [fst snd] in Hraise. rewrite E0, E0' in Hraise. now apply Hraise.
Defined.

(** ** [CombinedSpectra] *)

Lemma rows_iadd_same_shape (acc a : Np.rows) :
  same_shape acc a ->
  Np.rows_iadd acc a
  = Ok (map (fun p => fst p + snd p) (combine (fst acc) (fst a)),
        map (fun p => fst p + snd p) (combine (snd acc) (snd a))).
Proof.
  intros [H0 H1]. unfold Np.rows_iadd. destruct (Np.is_2d acc).
  - unfold Np.iadd_row. rewrite <- H0, <- H1, !Nat.eqb_refl. reflexivity.
  - unfold Np.rows_ufunc2. rewrite !ufunc2_same_length by assumption.
    reflexivity.
Qed.

Lemma pixel_iadd (acc a : Np.rows) (k i : nat) :
  same_shape acc a -> (i < side_length acc k)%nat ->
  pixel (map (fun p => fst p + snd p) (combine (fst acc) (fst a)),
         map (fun p => fst p + snd p) (combine (snd acc) (snd a))) k i
  = pixel acc k i + pixel a k i.
Proof.
  intros [H0 H1] Hi. unfold pixel, side_length in *.
  destruct k; cbn [fst snd]; now rewrite (nth_map2 Rplus).
Qed.

Lemma last_cons_default {A : Type} (x : A) (l : list A) (d : A) :
  last (x :: l) d = last l x.
Proof.
  assert (Hindep : forall (m : list A) (y a b : A),
            last (y :: m) a = last (y :: m) b).
  { induction m as [|z m IH]; intros y a b; [reflexivity|].
    change (last (y :: z :: m) a) with (last (z :: m) a).
    change (last (y :: z :: m) b) with (last (z :: m) b). apply IH. }
  destruct l as [|y l]; [reflexivity|].
  change (last (x :: y :: l) d) with (last (y :: l) d). apply Hindep.
Qed.

(** The loop of the constructor on orbits of one shape: the sums grow pixel
    by pixel and [o] is left bound to the last orbit. *)
Lemma combined_loop_same_shape (todo : list (string * Sunburn.COSSpectrum))
    (acc_f acc_u : Np.rows) (o0 : Sunburn.COSSpectrum) :
  same_shape acc_f acc_u ->
  (forall p, In p todo ->
     same_shape acc_f (Sunburn.flux (Sunburn.uv (snd p))) /\
     same_shape acc_f (Sunburn.error (Sunburn.uv (snd p)))) ->
  exists F U,
    Sunburn.CombinedSpectra.init_loop todo (Some acc_f) (Some acc_u) (Some o0)
    = Ok (Some F, Some U, Some (last (map snd todo) o0)) /\
    same_shape acc_f F /\ same_shape acc_f U /\
    forall k i, (i < side_length acc_f k)%nat ->
      pixel F k i
      = pixel acc_f k i
        + Np.sum (map (fun p => pixel (Sunburn.flux (Sunburn.uv (snd p))) k i)
                      todo) /\
      pixel U k i
      = pixel acc_u k i
        + Np.sum (map (fun p =>
                         pixel (Sunburn.error (Sunburn.uv (snd p))) k i ^ 2)
                      todo).
Proof.
  revert acc_f acc_u o0.
  induction todo as [|[name sp] rest IH]; intros acc_f acc_u o0 Hfu Hall.
  - exists acc_f, acc_u. split; [reflexivity|].
    split; [split; reflexivity|]. split; [exact Hfu|].
    intros k i Hi. cbn [map Np.sum fold_right]. split; lra.
  - destruct (Hall (name, sp) (or_introl eq_refl)) as [Hf He].
    cbn [snd] in Hf, He.
    assert (Hu2 : same_shape acc_u
                    (Np.rows_map (fun x => x ^ 2)
                       (Sunburn.error (Sunburn.uv sp)))).
    { destruct Hfu as [A0 A1], He as [B0 B1]. unfold Np.rows_map.
      split; cbn [fst snd]; rewrite length_map; congruence. }
    cbn [Sunburn.CombinedSpectra.init_loop Sunburn.CombinedSpectra.add_to].
    rewrite (rows_iadd_same_shape acc_f _ Hf). cbn [bind].
    rewrite (rows_iadd_same_shape acc_u _ Hu2). cbn [bind].
    set (F1 := (map (fun p => fst p + snd p)
                  (combine (fst acc_f) (fst (Sunburn.flux (Sunburn.uv sp)))),
                map (fun p => fst p + snd p)
                  (combine (snd acc_f) (snd (Sunburn.flux (Sunburn.uv sp)))))).
    set (U1 := (map (fun p => fst p + snd p)
                  (combine (fst acc_u)
                     (fst (Np.rows_map (fun x => x ^ 2)
                             (Sunburn.error (Sunburn.uv sp))))),
                map (fun p => fst p + snd p)
                  (combine (snd acc_u)
                     (snd (Np.rows_map (fun x => x ^ 2)
                             (Sunburn.error (Sunburn.uv sp))))))).
    assert (HF1 : same_shape acc_f F1).
    { destruct Hf as [A0 A1]. unfold F1. split; cbn [fst snd];
        now rewrite length_map2. }
    assert (HU1 : same_shape acc_u U1).
    { destruct Hu2 as [A0 A1]. unfold U1. split; cbn [fst snd];
        now rewrite length_map2. }
    assert (Hshape : forall x y z : Np.rows,
              same_shape x y -> same_shape x z -> same_shape y z).
    { intros x y z [A0 A1] [B0 B1]. split; congruence. }
    destruct (IH F1 U1 sp) as (F & U & E & HF & HU & Hpix).
    { apply (Hshape acc_f); [exact HF1|].
      destruct Hfu as [A0 A1], HU1 as [B0 B1]. split; congruence. }
    { intros p Hp. destruct (Hall p (or_intror Hp)) as [Hpf Hpe].
      split; apply (Hshape acc_f); assumption. }
    exists F, U. split.
    { rewrite E. cbn [map snd]. now rewrite last_cons_default. }
    assert (Hsym : forall x y : Np.rows, same_shape x y -> same_shape y x).
    { intros x y [A0 A1]. split; congruence. }
    split; [apply (Hshape F1); [apply Hsym; exact HF1 | exact HF]|].
    split; [apply (Hshape F1); [apply Hsym; exact HF1 | exact HU]|].
    intros k i Hi.
    assert (Hi1 : (i < side_length F1 k)%nat).
    { destruct HF1 as [A0 A1]. unfold side_length in *.
      destruct k; congruence. }
    destruct (Hpix k i Hi1) as [Pf Pu]. rewrite Pf, Pu.
    unfold F1, U1. rewrite (pixel_iadd acc_f _ k i Hf Hi).
    rewrite (pixel_iadd acc_u _ k i Hu2).
    2:{ destruct Hfu as [A0 A1]. unfold side_length in *.
        destruct k; congruence. }
    assert (Hsq : pixel (Np.rows_map (fun x => x ^ 2)
                           (Sunburn.error (Sunburn.uv sp))) k i
                  = pixel (Sunburn.error (Sunburn.uv sp)) k i ^ 2).
    { destruct He as [B0 B1]. unfold pixel, Np.rows_map, side_length in *.
      destruct k; cbn [fst snd] in *; apply nth_map_lt; congruence. }
    rewrite Hsq. cbn [map snd].
    change (Np.sum (?x :: ?t)) with (x + Np.sum t). split; ring.
Qed.

Lemma pixel_rows_map (g : R -> R) (a : Np.rows) (k i : nat) :
  (i < side_length a k)%nat -> pixel (Np.rows_map g a) k i = g (pixel a k i).
Proof.
  intros Hi. unfold pixel, Np.rows_map, side_length in *.
  destruct k; cbn [fst snd] in *; now apply nth_map_lt.
Qed.

Lemma same_shape_rows_map (g : R -> R) (a : Np.rows) :
  same_shape a (Np.rows_map g a).
Proof. unfold Np.rows_map. split; cbn [fst snd]; now rewrite length_map. Qed.

Lemma same_shape_side_length (a b : Np.rows) (k : nat) :
  same_shape a b -> side_length b k = side_length a k.
Proof. intros [A0 A1]. unfold side_length. destruct k; congruence. Qed.

(** X20. [CombinedSpectra] of a visit with one orbit or more, whose fluxes
    and errors all have one shape, holds for each pixel the mean of the
    fluxes of the orbits, and as uncertainty the square root of the sum of
    their squared errors divided by the number of orbits.  Its wavelength
    array is that of the last orbit of the visit. *)
Theorem combined_spectra_mean (visit : Sunburn.Visit) (shape : Np.rows) :
  Sunburn.orbit visit <> [] ->
  (forall p, In p (Sunburn.orbit visit) ->
     same_shape shape (Sunburn.flux (Sunburn.uv (snd p))) /\
     same_shape shape (Sunburn.error (Sunburn.uv (snd p)))) ->
  exists c,
    Sunburn.CombinedSpectra.init visit = inl c /\
    Sunburn.CombinedSpectra._n_orbit c = length (Sunburn.orbit visit) /\
    (forall d,
       Sunburn.CombinedSpectra.wavelength c
       = Sunburn.wavelength
           (Sunburn.uv (last (map snd (Sunburn.orbit visit)) d))) /\
    forall k i, (i < side_length shape k)%nat ->
      pixel (Sunburn.CombinedSpectra.flux c) k i
      = Np.mean (map (fun p => pixel (Sunburn.flux (Sunburn.uv (snd p))) k i)
                     (Sunburn.orbit visit)) /\
      pixel (Sunburn.CombinedSpectra.f_unc c) k i
      = sqrt (Np.sum (map (fun p =>
                             pixel (Sunburn.error (Sunburn.uv (snd p))) k i ^ 2)
                          (Sunburn.orbit visit)))
        / INR (length (Sunburn.orbit visit)).
Proof.
  intros Hne Hall. unfold Sunburn.CombinedSpectra.init.
  destruct (Sunburn.orbit visit) as [|[name sp] rest] eqn:Eo; [congruence|].
  destruct (Hall (name, sp) (or_introl eq_refl)) as [Hf He].
  cbn [snd] in Hf, He.
  cbn [Sunburn.CombinedSpectra.init_loop Sunburn.CombinedSpectra.add_to bind].
  set (F0 := Np.rows_map (fun x => 0 + x) (Sunburn.flux (Sunburn.uv sp))).
  set (U0 := Np.rows_map (fun x => 0 + x)
               (Np.rows_map (fun x => x ^ 2) (Sunburn.error (Sunburn.uv sp)))).
  assert (Hshape : forall x y z : Np.rows,
            same_shape x y -> same_shape x z -> same_shape y z).
  { intros x y z [A0 A1] [B0 B1]. split; congruence. }
  assert (Htrans : forall x y z : Np.rows,
            same_shape x y -> same_shape y z -> same_shape x z).
  { intros x y z [A0 A1] [B0 B1]. split; congruence. }
  assert (HF0 : same_shape shape F0)
    by (apply (Htrans _ _ _ Hf), same_shape_rows_map).
  assert (HU0 : same_shape shape U0).
  { apply (Htrans _ _ _ He). eapply Htrans; apply same_shape_rows_map. }
  destruct (combined_loop_same_shape rest F0 U0 sp) as (F & U & E & HF & HU & Hpix).
  { apply (Hshape shape); assumption. }
  { intros p Hp. destruct (Hall p (or_intror Hp)) as [Hpf Hpe].
    split; apply (Hshape shape); assumption. }
  rewrite E. eexists. split; [reflexivity|].
  cbn [Sunburn.CombinedSpectra._n_orbit Sunburn.CombinedSpectra.wavelength
       Sunburn.CombinedSpectra.flux Sunburn.CombinedSpectra.f_unc].
  split; [reflexivity|]. split.
  { intros d. cbn [map snd]. now rewrite last_cons_default. }
  intros k i Hi.
  assert (HiF0 : (i < side_length F0 k)%nat)
    by (now rewrite (same_shape_side_length shape F0 k HF0)).
  destruct (Hpix k i HiF0) as [Pf Pu].
  assert (HiF : (i < side_length F k)%nat)
    by (now rewrite (same_shape_side_length F0 F k HF)).
  assert (HiU : (i < side_length U k)%nat)
    by (now rewrite (same_shape_side_length F0 U k HU)).
  rewrite !pixel_rows_map by assumption. rewrite Pf, Pu.
  unfold F0, U0.
  rewrite !pixel_rows_map
    by (rewrite ?(same_shape_side_length _ _ k
                    (same_shape_rows_map (fun x => x ^ 2)
                       (Sunburn.error (Sunburn.uv sp))));
        rewrite ?(same_shape_side_length shape _ k Hf),
                ?(same_shape_side_length shape _ k He); exact Hi).
  unfold Np.mean. rewrite length_map. cbn [map snd].
  change (Np.sum (?x :: ?t)) with (x + Np.sum t).
  split.
  - f_equal. ring.
  - do 2 f_equal. ring.
Qed.

Lemma combined_spectra_mean_witness :
  exists c,
    Sunburn.CombinedSpectra.init example_visit = inl c /\
    Sunburn.CombinedSpectra._n_orbit c = 2%nat /\
    pixel (Sunburn.CombinedSpectra.flux c) 0 0 = Np.mean [1; 3] /\
    pixel (Sunburn.CombinedSpectra.f_unc c) 0 0
    = sqrt (Np.sum [0.1 ^ 2; 0.1 ^ 2]) / INR 2.
Proof.
  destruct (combined_spectra_mean example_visit
              (Sunburn.flux example_uv))
    as (c & E & Hn & _ & Hpix).
  - discriminate.
  - intros p [<-|[<-|[]]]; split; split; reflexivity.
  - exists c. split; [exact E|]. split; [exact Hn|].
    assert (H0 : (0 < side_length (Sunburn.flux example_uv) 0)%nat)
      by (cbv; lia).
    exact (Hpix 0%nat 0%nat H0).
Defined.

(** ** [Visit] *)

Lemma visit_loop_unknown (fs : Sunburn.Files) (names : list string)
    (instrument : string) (good_pixel_limits : option Sunburn.limits)
    (prefix : option string) (compute_error : bool)
    (orbit : list (string * Sunburn.COSSpectrum)) (log : list string) :
  String.eqb instrument "cos" = false ->
  String.eqb instrument "stis" = false ->
  Sunburn.Visit_init_loop fs names instrument good_pixel_limits prefix
    compute_error orbit log = (Ok orbit, log).
Proof.
  intros Hcos Hstis. induction names as [|name rest IH]; [reflexivity|].
  cbn [Sunburn.Visit_init_loop]. rewrite Hcos, Hstis.
  unfold Sunburn.io_bind at 1. cbn [Sunburn.io_ret]. exact IH.
Qed.

(** X21. An instrument name other than ['cos'] and ['stis'] is accepted in
    silence: the constructor of [Visit] opens no file and returns a visit
    without orbits whose [n_orbit] is still the number of dataset names.
    Such a visit cannot be used: [CombinedSpectra] raises [NameError] on
    it, and [time_tag_split] and [assign_splits] raise [ValueError]. *)
Theorem visit_unknown_instrument (fs : Sunburn.Files) (names : list string)
    (instrument : string) (good_pixel_limits : option Sunburn.limits)
    (prefix : option string) (compute_error : bool) (log : list string) :
  String.eqb instrument "cos" = false ->
  String.eqb instrument "stis" = false ->
  exists visit,
    Sunburn.Visit_init fs names instrument good_pixel_limits prefix
      compute_error log = (Ok visit, log) /\
    Sunburn.orbit visit = [] /\
    Sunburn.n_orbit visit = length names /\
    Sunburn.CombinedSpectra.init visit = inr Sunburn.NameError /\
    (forall n_splits out_dir log2,
       Sunburn.Visit_time_tag_split fs visit n_splits out_dir log2
       = (Raise ValueError, log2)) /\
    (forall path log2,
       Sunburn.Visit_assign_splits fs visit path log2
       = (Raise ValueError, log2)).
Proof.
  intros Hcos Hstis. unfold Sunburn.Visit_init, Sunburn.io_bind.
  rewrite (visit_loop_unknown fs names instrument good_pixel_limits prefix
             compute_error [] log Hcos Hstis).
  eexists. split; [reflexivity|]. cbn [Sunburn.orbit Sunburn.n_orbit].
  split; [reflexivity|]. split; [reflexivity|]. split; [reflexivity|].
  split.
  - intros n_splits out_dir log2. unfold Sunburn.Visit_time_tag_split.
    cbn [Sunburn.instrument]. rewrite Hcos. reflexivity.
  - intros path log2. unfold Sunburn.Visit_assign_splits.
    cbn [Sunburn.instrument]. rewrite Hcos. reflexivity.
Qed.

Lemma visit_unknown_instrument_witness :
  exists visit,
    Sunburn.Visit_init (example_files 2458000 2458001)
      ["ldxr01abq"; "ldxr01acq"]%string "COS" None None true []
    = (Ok visit, []) /\
    Sunburn.orbit visit = [] /\
    Sunburn.n_orbit visit = 2%nat /\
    Sunburn.CombinedSpectra.init visit = inr Sunburn.NameError.
Proof.
  destruct (visit_unknown_instrument (example_files 2458000 2458001)
              ["ldxr01abq"; "ldxr01acq"]%string "COS" None None true []
              eq_refl eq_refl) as (visit & E & Ho & Hn & Hc & _).
  exists visit. repeat (split; [assumption|]). exact Hc.
Defined.

(** The keys of a dictionary after an assignment. *)
Lemma dict_set_keys {V : Type} (d : list (string * V)) (key : string) (v : V) :
  (forall x, In x (map fst (Sunburn.dict_set d key v))
             <-> x = key \/ In x (map fst d)) /\
  (NoDup (map fst d) -> NoDup (map fst (Sunburn.dict_set d key v))) /\
  (length (Sunburn.dict_set d key v) <= S (length d))%nat /\
  (forall p, In p (Sunburn.dict_set d key v) -> p = (key, v) \/ In p d).
Proof.
  induction d as [|[k x] t (IHin & IHnd & IHlen & IHp)].
  - cbn [Sunburn.dict_set map fst In length]. split; [|split; [|split]].
    + intros y. split; [intros [<-|[]]; now left | intros [->|[]]; now left].
    + intros _. constructor; [intros [] | constructor].
    + lia.
    + intros p [<-|[]]. now left.
  - cbn [Sunburn.dict_set]. destruct (String.eqb_spec k key) as [->|Hne].
    + cbn [map fst In length]. split; [|split; [|split]].
      * intros y. intuition congruence.
      * tauto.
      * lia.
      * intros p [<-|Hp]; [now left | right; now right].
    + cbn [map fst In length]. split; [|split; [|split]].
      * intros y. rewrite IHin. tauto.
      * intros Hnd. inversion Hnd as [|? ? Hk Ht]; subst.
        constructor; [|now apply IHnd].
        rewrite IHin. intros [E|Hin]; [congruence | contradiction].
      * lia.
      * intros p [<-|Hp]; [right; now left|].
        destruct (IHp p Hp) as [->|Hin]; [now left | right; now right].
Qed.

(** What a successful [COSSpectrum(name, limits, prefix)] has done. *)
Lemma cos_init_inv (fs : Sunburn.Files) (name : string)
    (gpl : option Sunburn.limits) (prefix : option string)
    (sp : Sunburn.COSSpectrum) (log log1 : list string) :
  Sunburn.COSSpectrum_init fs name gpl prefix log = (Ok sp, log1) ->
  let p := match prefix with None => ""%string | Some p => p end in
  Sunburn.dataset_name (Sunburn.uv sp) = name /\
  Sunburn.split sp = None /\
  log1 = log ++ [(p ++ name ++ "_x1d.fits")%string;
                 (p ++ name ++ "_corrtag_a.fits")%string].
Proof.
  unfold Sunburn.COSSpectrum_init, Sunburn.UVSpectrum_init, Sunburn.io_bind,
    Sunburn.open_x1d, Sunburn.open_corrtag, Sunburn.io_ret.
  destruct (Sunburn.x1d_files fs _) as [d|]; [|discriminate].
  destruct (Sunburn.corrtag_files fs _) as [tag|]; [|discriminate].
  intros H. injection H as <- <-. cbn [Sunburn.uv Sunburn.dataset_name
                                       Sunburn.split].
  split; [reflexivity|]. split; [reflexivity|].
  now rewrite <- app_assoc.
Qed.

Lemma compute_proper_error_keeps_name (self self' : Sunburn.COSSpectrum)
    (shift_net : option R) :
  Sunburn.compute_proper_error self shift_net = Ok self' ->
  Sunburn.dataset_name (Sunburn.uv self')
  = Sunburn.dataset_name (Sunburn.uv self) /\
  Sunburn.split self' = Sunburn.split self.
Proof.
  unfold Sunburn.compute_proper_error.
  destruct (Np.rows_ufunc2 Rdiv _ _) as [ratio|]; [|discriminate].
  cbn [bind].
  destruct (Np.rows_ufunc2 Rmult _ _) as [err|]; [|discriminate].
  cbn [bind]. intros H. injection H as <-. split; reflexivity.
Qed.

Lemma visit_loop_cos (fs : Sunburn.Files) (names : list string)
    (good_pixel_limits : option Sunburn.limits) (prefix : option string)
    (compute_error : bool)
    (orbit orbit' : list (string * Sunburn.COSSpectrum))
    (log log' : list string) :
  Sunburn.Visit_init_loop fs names "cos" good_pixel_limits prefix
    compute_error orbit log = (Ok orbit', log') ->
  (forall x, In x (map fst orbit') <-> In x names \/ In x (map fst orbit)) /\
  (NoDup (map fst orbit) -> NoDup (map fst orbit')) /\
  (length orbit' <= length orbit + length names)%nat /\
  ((forall p, In p orbit ->
      Sunburn.dataset_name (Sunburn.uv (snd p)) = fst p) ->
   forall p, In p orbit' ->
      Sunburn.dataset_name (Sunburn.uv (snd p)) = fst p) /\
  log' = log ++ opened_files prefix names.
Proof.
  revert orbit log. induction names as [|name rest IH]; intros orbit log H.
  - cbn in H. injection H as <- <-. unfold opened_files. cbn [map concat In].
    rewrite app_nil_r. repeat split; try tauto. lia.
  - cbn [Sunburn.Visit_init_loop] in H.
    change (String.eqb "cos" "cos") with true in H. cbv iota in H.
    unfold Sunburn.io_bind at 1 2 in H.
    destruct (Sunburn.COSSpectrum_init fs name good_pixel_limits prefix log)
      as [[sp|e] log1] eqn:Einit; [|discriminate].
    destruct (cos_init_inv _ _ _ _ _ _ _ Einit) as (Hname & _ & Hlog1).
    assert (Hstep : exists sp',
              Sunburn.dataset_name (Sunburn.uv sp') = name /\
              Sunburn.Visit_init_loop fs rest "cos" good_pixel_limits prefix
                compute_error (Sunburn.dict_set orbit name sp') log1
              = (Ok orbit', log')).
    { destruct compute_error.
      - unfold Sunburn.io_bind, Sunburn.io_lift in H.
        destruct (Sunburn.compute_proper_error sp None) as [sp'|e] eqn:Ec;
          [|discriminate].
        exists sp'. split; [|exact H].
        destruct (compute_proper_error_keeps_name _ _ _ Ec) as [-> _].
        exact Hname.
      - unfold Sunburn.io_bind, Sunburn.io_ret in H.
        exists sp. split; [exact Hname | exact H]. }
    destruct Hstep as (sp' & Hname' & Hrest).
    destruct (IH _ _ Hrest) as (Hin & Hnd & Hlen & Hkey & Hlog).
    destruct (dict_set_keys orbit name sp') as (Din & Dnd & Dlen & Dp).
    split; [|split; [|split; [|split]]].
    + intros x. rewrite Hin, Din. cbn [In]. intuition congruence.
    + intros H0. apply Hnd, Dnd, H0.
    + cbn [length]. lia.
    + intros Hall p Hp. apply Hkey; [|exact Hp].
      intros q Hq. destruct (Dp q Hq) as [->|Hq']; [exact Hname'|].
      now apply Hall.
    + rewrite Hlog, Hlog1. unfold opened_files. cbn [map concat].
      now rewrite <- app_assoc.
Qed.

(** X22. A COS visit that the constructor returns has [n_orbit] equal to
    the number of dataset names given, while its [orbit] dictionary has one
    entry per distinct name, each holding the spectrum of that dataset: a
    name given twice is loaded twice and kept once, so [orbit] can be
    shorter than [n_orbit].  The files opened are, for each name in turn,
    its [_x1d.fits] and [_corrtag_a.fits] under the prefix. *)
Theorem visit_cos_orbits (fs : Sunburn.Files) (names : list string)
    (good_pixel_limits : option Sunburn.limits) (prefix : option string)
    (compute_error : bool) (visit : Sunburn.Visit) (log log' : list string) :
  Sunburn.Visit_init fs names "cos" good_pixel_limits prefix compute_error log
  = (Ok visit, log') ->
  Sunburn.n_orbit visit = length names /\
  (forall x, In x (map fst (Sunburn.orbit visit)) <-> In x names) /\
  NoDup (map fst (Sunburn.orbit visit)) /\
  (length (Sunburn.orbit visit) <= Sunburn.n_orbit visit)%nat /\
  (forall p, In p (Sunburn.orbit visit) ->
     Sunburn.dataset_name (Sunburn.uv (snd p)) = fst p) /\
  log' = log ++ opened_files prefix names.
Proof.
  unfold Sunburn.Visit_init, Sunburn.io_bind. intros H.
  destruct (Sunburn.Visit_init_loop fs names "cos" good_pixel_limits prefix
              compute_error [] log) as [[orbit'|e] log1] eqn:E;
    [|discriminate].
  cbn [Sunburn.io_ret] in H. injection H as <- <-.
  cbn [Sunburn.n_orbit Sunburn.orbit].
  destruct (visit_loop_cos _ _ _ _ _ _ _ _ _ E)
    as (Hin & Hnd & Hlen & Hkey & Hlog).
  split; [reflexivity|]. split.
  { intros x. rewrite Hin. cbn [map In]. tauto. }
  split; [apply Hnd; constructor|]. split; [cbn [length] in Hlen; lia|].
  split; [apply Hkey; intros p []|]. exact Hlog.
Qed.

Lemma example_visit_init :
  exists visit log',
    Sunburn.Visit_init (example_files 2458000 2458001)
      ["ldxr01abq"; "ldxr01acq"; "ldxr01abq"]%string "cos" None None true []
    = (Ok visit, log').
Proof. eexists. eexists. reflexivity. Qed.

Lemma visit_cos_orbits_witness :
  exists visit log',
    Sunburn.Visit_init (example_files 2458000 2458001)
      ["ldxr01abq"; "ldxr01acq"; "ldxr01abq"]%string "cos" None None true []
    = (Ok visit, log') /\
    Sunburn.n_orbit visit = 3%nat /\
    NoDup (map fst (Sunburn.orbit visit)) /\
    log' = ["ldxr01abq_x1d.fits"; "ldxr01abq_corrtag_a.fits";
            "ldxr01acq_x1d.fits"; "ldxr01acq_corrtag_a.fits";
            "ldxr01abq_x1d.fits"; "ldxr01abq_corrtag_a.fits"]%string.
Proof.
  destruct example_visit_init as (visit & log' & E).
  exists visit, log'. split; [exact E|].
  destruct (visit_cos_orbits _ _ _ _ _ _ _ _ E)
    as (Hn & _ & Hnd & _ & _ & Hlog).
  split; [exact Hn|]. split; [exact Hnd | exact Hlog].
Defined.

(** ** [verify_systematic] *)

Lemma for_each_total {A B : Type} (body : A -> result B) (l : list A) :
  (forall x, In x l -> exists y, body x = Ok y) ->
  exists ys, Tools.for_each body l = Ok ys.
Proof.
  induction l as [|x l IH]; intros H; [now exists []|].
  destruct (H x (or_introl eq_refl)) as [y Ey].
  destruct IH as [ys Eys]; [intros z Hz; apply H; now right|].
  exists (y :: ys). cbn [Tools.for_each]. now rewrite Ey, Eys.
Qed.

(** A loop whose body returns or raises [e] raises [e] as soon as one turn
    does. *)
Lemma for_each_raises {A B : Type} (body : A -> result B) (l : list A)
    (e : exn) :
  (forall x, In x l -> (exists y, body x = Ok y) \/ body x = Raise e) ->
  (exists x, In x l /\ body x = Raise e) ->
  Tools.for_each body l = Raise e.
Proof.
  induction l as [|x l IH]; intros Hall (z & Hz & Ez); [destruct Hz|].
  cbn [Tools.for_each].
  destruct (Hall x (or_introl eq_refl)) as [[y Ey]|Ex].
  - rewrite Ey. cbn [bind]. rewrite IH; [reflexivity | |].
    + intros w Hw. apply Hall. now right.
    + destruct Hz as [->|Hz]; [congruence|]. now exists z.
  - now rewrite Ex.
Qed.

(** X23. [verify_systematic] raises [ValueError] on a spectrum without
    time-tag splits, and [ZeroDivisionError] on one whose list of splits is
    empty, whatever the line list.  Called with [rv_range] on a spectrum
    with splits and a line list that holds a line, it raises [TypeError]:
    [integrated_flux] has no parameter of that name. *)
Theorem verify_systematic_errors
    (simps : list R -> list R -> R)
    (bootstrap : list R -> list R -> list R -> R)
    (self : Sunburn.COSSpectrum) (line_list : list (string * list Sunburn.Line))
    (rv_range : option (R * R)) :
  (Sunburn.split self = None ->
   Sunburn.verify_systematic simps bootstrap self line_list rv_range
   = Raise ValueError) /\
  (Sunburn.split self = Some [] ->
   Sunburn.verify_systematic simps bootstrap self line_list rv_range
   = Raise ZeroDivisionError) /\
  (forall splits,
     Sunburn.split self = Some splits -> splits <> [] ->
     rv_range <> None ->
     (exists species, In species line_list /\ snd species <> []) ->
     Sunburn.verify_systematic simps bootstrap self line_list rv_range
     = Raise TypeError).
Proof.
  split; [|split].
  - intros H. unfold Sunburn.verify_systematic. now rewrite H.
  - intros H. unfold Sunburn.verify_systematic. rewrite H.
    match goal with
    | |- context [Tools.for_each ?b line_list] =>
        destruct (for_each_total b line_list) as [measures E]
    end.
    { intros species _. apply for_each_total. intros line _.
      destruct rv_range; now exists []. }
    rewrite E. reflexivity.
  - intros splits H Hne Hrv (species & Hin & Hlines).
    unfold Sunburn.verify_systematic. rewrite H.
    destruct rv_range as [r|]; [|congruence].
    destruct splits as [|sp splits]; [congruence|].
    match goal with
    | |- context [Tools.for_each ?b line_list] =>
        rewrite (for_each_raises b line_list TypeError)
    end.
    + reflexivity.
    + intros s _. destruct (snd s) as [|line lines]; [left; now exists []|].
      right. reflexivity.
    + exists species. split; [exact Hin|].
      destruct (snd species) as [|line lines]; [congruence|]. reflexivity.
Qed.

Lemma verify_systematic_errors_witness :
  Sunburn.verify_systematic (fun _ _ => 0) (fun _ _ _ => 0)
    example_cos_for_error example_line_list None = Raise ValueError /\
  Sunburn.verify_systematic (fun _ _ => 0) (fun _ _ _ => 0)
    no_split_parent example_line_list None = Raise ZeroDivisionError /\
  Sunburn.verify_systematic (fun _ _ => 0) (fun _ _ _ => 0)
    one_split_parent example_line_list (Some (-100, 100)) = Raise TypeError.
Proof.
  split; [|split].
  - apply (verify_systematic_errors (fun _ _ => 0) (fun _ _ _ => 0)
             example_cos_for_error example_line_list None). reflexivity.
  - apply (verify_systematic_errors (fun _ _ => 0) (fun _ _ _ => 0)
             no_split_parent example_line_list None). reflexivity.
  - apply (verify_systematic_errors (fun _ _ => 0) (fun _ _ _ => 0)
             one_split_parent example_line_list (Some (-100, 100))
           ) with (splits := [example_cos_for_error]).
    + reflexivity.
    + discriminate.
    + discriminate.
    + eexists. split; [right; left; reflexivity | discriminate].
Defined.

(** ** [correct_systematic] without [recompute_errors] *)

Lemma for_each_inv {A B : Type} (body : A -> result B) (l : list A)
    (ys : list B) (da : A) (db : B) :
  Tools.for_each body l = Ok ys ->
  length ys = length l /\
  forall i, (i < length l)%nat -> body (nth i l da) = Ok (nth i ys db).
Proof.
  revert ys. induction l as [|x l IH]; intros ys H.
  - cbn in H. injection H as <-. split; [reflexivity|].
    intros i Hi. simpl in Hi. lia.
  - cbn [Tools.for_each] in H.
    destruct (body x) as [y|] eqn:Ey; [|discriminate]. cbn [bind] in H.
    destruct (Tools.for_each body l) as [ys'|]; [|discriminate].
    cbn [bind] in H. injection H as <-.
    destruct (IH ys' eq_refl) as [Hlen Hnth].
    split; [simpl; lia|].
    intros [|i] Hi; [exact Ey|]. apply Hnth. simpl in Hi. lia.
Qed.

(** X24. Without [recompute_errors], [correct_systematic] writes fluxes
    only: when it returns, the error array of the spectrum is the one it
    had, there are as many splits as before, and each split has the error
    array it had. *)
Theorem correct_systematic_writes_flux_only
    (simps : list R -> list R -> R)
    (bootstrap : list R -> list R -> list R -> R)
    (polyfit : list R -> list R -> nat -> list R)
    (self self' : Sunburn.COSSpectrum)
    (line_list : list (string * list Sunburn.Line)) (baseline_level : R)
    (poly_deg : nat) (temp_jd_shift : R) :
  Sunburn.correct_systematic simps bootstrap polyfit self line_list
    baseline_level poly_deg temp_jd_shift false = Ok self' ->
  Sunburn.error (Sunburn.uv self') = Sunburn.error (Sunburn.uv self) /\
  exists splits splits',
    Sunburn.split self = Some splits /\
    Sunburn.split self' = Some splits' /\
    length splits' = length splits /\
    forall i, (i < length splits)%nat ->
      Sunburn.error (Sunburn.uv (nth i splits' self))
      = Sunburn.error (Sunburn.uv (nth i splits self)).
Proof.
  intros H. split.
  { exact (correct_systematic_keeps_error simps bootstrap polyfit self self'
             line_list baseline_level poly_deg temp_jd_shift H). }
  unfold Sunburn.correct_systematic in H.
  destruct (match Sunburn._systematics self with
            | Some _ => Ok self
            | None => r <- Sunburn.verify_systematic simps bootstrap self
                            line_list None ;; Ok (fst r)
            end) as [x|] eqn:Ex; [|discriminate].
  assert (Hx : Sunburn.split x = Sunburn.split self).
  { destruct (Sunburn._systematics self) as [sys|].
    - now injection Ex as <-.
    - destruct (Sunburn.verify_systematic simps bootstrap self line_list None)
        as [[y norm]|] eqn:Ev; [|discriminate].
      cbn [bind fst] in Ex. injection Ex as <-.
      now apply (verify_systematic_keeps_uv simps bootstrap) in Ev as [_ Es]. }
  cbn [bind] in H.
  destruct (Sunburn._systematics x) as [sys|]; [|discriminate].
  cbn [bind] in H.
  destruct (Sunburn.split x) as [splits|] eqn:Es; [|discriminate].
  cbn [bind] in H.
  destruct (_ || _); [discriminate|].
  destruct (Tools.for_each _ (seq 0 (length splits))) as [splits'|] eqn:Eloop;
    [|discriminate].
  cbn [bind] in H.
  destruct (Tools.for_each _ splits') as [rows0|]; [|discriminate].
  cbn [bind] in H.
  destruct (Np.sum_rows rows0) as [total0|]; [|discriminate].
  cbn [bind] in H.
  destruct (Np.set_row _ _ 0 _) as [flux0|]; [|discriminate].
  cbn [bind] in H.
  destruct (Tools.for_each _ splits') as [rows1|]; [|discriminate].
  cbn [bind] in H.
  destruct (Np.sum_rows rows1) as [total1|]; [|discriminate].
  cbn [bind] in H.
  destruct (Np.set_row _ _ 1 _) as [flux1|]; [|discriminate].
  cbn [bind] in H. injection H as <-.
  exists splits, splits'. split; [now rewrite <- Hx|].
  split; [reflexivity|].
  destruct (for_each_inv _ _ _ 0%nat self Eloop) as [Hlen Hnth].
  rewrite length_seq in Hlen, Hnth. split; [exact Hlen|].
  intros i Hi. specialize (Hnth i Hi). rewrite seq_nth in Hnth by exact Hi.
  cbn [Nat.add] in Hnth.
  rewrite (getitem_nat splits self) in Hnth by exact Hi. cbn [bind] in Hnth.
  destruct (Np.getitem _ (Z.of_nat i)) as [c|]; [|discriminate].
  cbn [bind] in Hnth. injection Hnth as <-. reflexivity.
Qed.

Lemma systematics_parent_corrected :
  exists self',
    Sunburn.correct_systematic (fun _ _ => 0) (fun _ _ _ => 0)
      (fun _ _ _ => [1]) systematics_parent [] 1 1 2.45e6 false = Ok self'.
Proof.
  eexists. unfold Sunburn.correct_systematic, systematics_parent, split_a,
    split_b, example_split. cbn. reflexivity.
Qed.

Lemma correct_systematic_writes_flux_only_witness :
  exists self',
    Sunburn.correct_systematic (fun _ _ => 0) (fun _ _ _ => 0)
      (fun _ _ _ => [1]) systematics_parent [] 1 1 2.45e6 false = Ok self' /\
    Sunburn.error (Sunburn.uv self')
    = Sunburn.error (Sunburn.uv systematics_parent).
Proof.
  destruct systematics_parent_corrected as [self' E].
  exists self'. split; [exact E|].
  apply (correct_systematic_writes_flux_only _ _ _ _ _ _ _ _ _ E).
Defined.

(** ** [UVSpectrum.__init__] *)

Lemma slice_Z_drop_last {A : Type} (a : list A) :
  Np.slice_Z a 0 (-1) = removelast a.
Proof.
  unfold Np.slice_Z. change (0 <? 0)%Z with false.
  change (-1 <? 0)%Z with true. cbv iota. unfold Np.slice.
  replace (Z.to_nat (Z.min (Z.of_nat (length a)) (Z.max 0 0))) with 0%nat
    by lia.
  replace (Z.to_nat (Z.min (Z.of_nat (length a))
                       (Z.max 0 (-1 + Z.of_nat (length a)))))
    with (pred (length a)) by lia.
  rewrite Nat.sub_0_r. cbn [skipn]. symmetry. apply removelast_firstn_len.
Qed.

(** X25. [UVSpectrum] opens the [_x1d.fits] file and then the
    [_corrtag_a.fits] file of the dataset under the prefix.  When the first
    is missing it raises [IOError] and the second is never opened.  When
    both are there and no pixel limits are given, the limits become
    [((0, -1), (0, -1))] and every array loses the last pixel of each side;
    the exposure time is that of the first side. *)
Theorem uvspectrum_init_default_limits (fs : Sunburn.Files) (name : string)
    (prefix : option string) (log : list string) :
  let p := match prefix with None => ""%string | Some p => p end in
  let x1d := (p ++ name ++ "_x1d.fits")%string in
  let corrtag := (p ++ name ++ "_corrtag_a.fits")%string in
  (Sunburn.x1d_files fs x1d = None ->
   Sunburn.UVSpectrum_init fs name None prefix log
   = (Raise IOError, log ++ [x1d])) /\
  (forall data tag,
     Sunburn.x1d_files fs x1d = Some data ->
     Sunburn.corrtag_files fs corrtag = Some tag ->
     exists s,
       Sunburn.UVSpectrum_init fs name None prefix log
       = (Ok s, log ++ [x1d; corrtag]) /\
       Sunburn.gpl s = ((0, -1), (0, -1))%Z /\
       Sunburn.wavelength s
       = (removelast (fst (Sunburn.WAVELENGTH data)),
          removelast (snd (Sunburn.WAVELENGTH data))) /\
       Sunburn.flux s
       = (removelast (fst (Sunburn.FLUX data)),
          removelast (snd (Sunburn.FLUX data))) /\
       Sunburn.error s
       = (removelast (fst (Sunburn.ERROR data)),
          removelast (snd (Sunburn.ERROR data))) /\
       Sunburn.gross_counts s
       = (removelast (fst (Sunburn.GCOUNTS data)),
          removelast (snd (Sunburn.GCOUNTS data))) /\
       Sunburn.net s
       = (removelast (fst (Sunburn.NET data)),
          removelast (snd (Sunburn.NET data))) /\
       Sunburn.exp_time s = fst (Sunburn.EXPTIME data) /\
       Sunburn.start_JD s = Sunburn.EXPSTRTJ tag /\
       Sunburn.end_JD s = Sunburn.EXPENDJ tag).
Proof.
  intros p x1d corrtag. split.
  - intros Hx. unfold Sunburn.UVSpectrum_init, Sunburn.io_bind,
      Sunburn.open_x1d. fold p. fold x1d. now rewrite Hx.
  - intros data tag Hx Hc.
    unfold Sunburn.UVSpectrum_init, Sunburn.io_bind, Sunburn.open_x1d,
      Sunburn.open_corrtag, Sunburn.io_ret.
    fold p. fold x1d. fold corrtag. rewrite Hx, Hc.
    cbn [fst snd]. rewrite !slice_Z_drop_last, <- app_assoc.
    eexists. split; [reflexivity|].
    cbn [Sunburn.gpl Sunburn.wavelength Sunburn.flux Sunburn.error
         Sunburn.gross_counts Sunburn.net Sunburn.exp_time Sunburn.start_JD
         Sunburn.end_JD].
    repeat (split; [reflexivity|]). reflexivity.
Qed.

Lemma uvspectrum_init_default_limits_witness :
  exists s,
    Sunburn.UVSpectrum_init (example_files 2458000 2458001) "ldxr01abq" None
      (Some "data/"%string) []
    = (Ok s, ["data/ldxr01abq_x1d.fits"; "data/ldxr01abq_corrtag_a.fits"]%string)
    /\ Sunburn.wavelength s = ([1300], [1100]).
Proof.
  destruct (proj2 (uvspectrum_init_default_limits
                     (example_files 2458000 2458001) "ldxr01abq"
                     (Some "data/"%string) [])
              example_x1d
              {| Sunburn.EXPSTRTJ := 2458000; Sunburn.EXPENDJ := 2458001 |}
              eq_refl eq_refl)
    as (s & E & _ & Hw & _).
  exists s. split; [exact E | exact Hw].
Defined.

(** ** The directory of the splits *)

Lemma length_with_slash (p : string) :
  String.length (p ++ "/") = S (String.length p).
Proof. induction p as [|c p IH]; [reflexivity|]. simpl. now rewrite IH. Qed.

Lemma get_after (p : string) :
  String.get (String.length p) (p ++ "/") = Some "/"%char.
Proof. induction p as [|c p IH]; [reflexivity|]. simpl. exact IH. Qed.

(** X26. The directory of the splits is given a trailing slash once: the
    path that [assign_splits] and [time_tag_split] go on with is the path
    given or that path followed by ['/'], it ends with ['/'], and giving it
    again changes nothing.  An empty path has no last character and raises
    [IndexError] in [assign_splits]; [time_tag_split], whose default
    [out_dir] is empty, fails on it before any file is opened. *)
Theorem split_directory_slash (path : string) :
  (forall slashed,
     Sunburn.with_slash path = Ok slashed ->
     (slashed = path \/ slashed = (path ++ "/")%string) /\
     String.get (String.length slashed - 1) slashed = Some "/"%char /\
     Sunburn.with_slash slashed = Ok slashed) /\
  (path = ""%string ->
   forall fs self n_splits log,
     Sunburn.time_tag_split fs self n_splits path log = (Raise IOError, log) /\
     Sunburn.assign_splits fs self path log = (Raise IndexError, log)).
Proof.
  split.
  - intros slashed H. unfold Sunburn.with_slash in H.
    destruct (String.get (String.length path - 1) path) as [c|] eqn:E;
      [|discriminate].
    assert (Hcases : (c = "/"%char /\ slashed = path) \/
                     (c <> "/"%char /\ slashed = (path ++ "/")%string)).
    { destruct (Ascii.ascii_dec c "/"%char) as [->|Hne].
      - left. split; [reflexivity|]. now injection H as <-.
      - right. split; [exact Hne|].
        destruct c as [[] [] [] [] [] [] [] []];
          try (now injection H as <-); exfalso; now apply Hne. }
    destruct Hcases as [[-> ->]|[Hne ->]].
    + split; [now left|]. split; [exact E|].
      unfold Sunburn.with_slash. now rewrite E.
    + assert (Hlast : String.get (String.length (path ++ "/") - 1)
                        (path ++ "/") = Some "/"%char).
      { rewrite length_with_slash.
        replace (S (String.length path) - 1)%nat with (String.length path)
          by lia.
        apply get_after. }
      split; [now right|]. split; [exact Hlast|].
      unfold Sunburn.with_slash. now rewrite Hlast.
  - intros -> fs self n_splits log. split; reflexivity.
Qed.

Lemma split_directory_slash_witness :
  Sunburn.with_slash "splits" = Ok "splits/"%string /\
  Sunburn.with_slash "splits/" = Ok "splits/"%string.
Proof.
  destruct (proj1 (split_directory_slash "splits") "splits/"%string eq_refl)
    as (_ & _ & H).
  split; [reflexivity | exact H].
Defined.

(** ** [Visit.time_tag_split] and [Visit.assign_splits] *)










(** ** [AirglowTemplate] *)

Lemma strictly_ascending_map (g : R -> R) (a : list R) :
  (forall x y, x < y -> g x < g y) ->
  strictly_ascending a -> strictly_ascending (map g a).
Proof.
  intros Hg. induction a as [|x t IH]; [trivial|].
  destruct t as [|y t]; [trivial|].
  intros [Hxy Ht]. split; [now apply Hg | exact (IH Ht)].
Qed.

(** X28. The velocities that [AirglowTemplate] computes from its
    wavelengths, about a reference wavelength that is not zero (by default
    the mean wavelength), are undone by the conversion
    [v / c * ref_wl + ref_wl] that the class uses for a velocity range:
    each pixel gets back its wavelength.  A pixel at the reference
    wavelength has velocity zero, and when the reference is positive the
    velocities ascend strictly as the wavelengths do. *)
Theorem airglow_velocity_round_trip (wavelength flux uncertainties : list R)
    (reference_wavelength : option R) :
  let t := Sunburn.AirglowTemplate.init wavelength flux uncertainties
             reference_wavelength in
  let ref := Sunburn.AirglowTemplate.ref_wl t in
  ref <> 0 ->
  length (Sunburn.AirglowTemplate.velocity t) = length wavelength /\
  (forall i, (i < length wavelength)%nat ->
     nth i (Sunburn.AirglowTemplate.velocity t) 0 / Tools.light_speed * ref
     + ref = nth i wavelength 0 /\
     (nth i wavelength 0 = ref ->
      nth i (Sunburn.AirglowTemplate.velocity t) 0 = 0)) /\
  (0 < ref -> strictly_ascending wavelength ->
   strictly_ascending (Sunburn.AirglowTemplate.velocity t)).
Proof.
  intros t ref Href. unfold t, Sunburn.AirglowTemplate.init.
  cbn [Sunburn.AirglowTemplate.velocity].
  change (match reference_wavelength with
          | Some r => r
          | None => Np.mean wavelength
          end) with ref.
  assert (Hls : Tools.light_speed <> 0) by (unfold Tools.light_speed; lra).
  split; [now rewrite length_map|]. split.
  - intros i Hi. rewrite nth_map_lt by exact Hi.
    assert (Hrt : forall x ls r : R, ls <> 0 -> r <> 0 ->
              (x - r) * ls / r / ls * r + r = x)
      by (intros x ls r H1 H2; field; split; assumption).
    split; [now apply Hrt|].
    intros E. rewrite E. unfold Rdiv. ring.
  - intros Hpos. clear Href.
    assert (Hc : 0 < Tools.light_speed / ref).
    { unfold Tools.light_speed, Rdiv. apply Rmult_lt_0_compat; [lra|].
      now apply Rinv_0_lt_compat. }
    apply strictly_ascending_map. intros x y Hxy.
    replace ((x - ref) * Tools.light_speed / ref)
      with ((x - ref) * (Tools.light_speed / ref)) by (unfold Rdiv; ring).
    replace ((y - ref) * Tools.light_speed / ref)
      with ((y - ref) * (Tools.light_speed / ref)) by (unfold Rdiv; ring).
    apply Rmult_lt_compat_r; [exact Hc | lra].
Qed.

Lemma airglow_velocity_round_trip_witness :
  let t := Sunburn.AirglowTemplate.init [1214; 1215; 1216; 1217]
             [1; 5; 2; 1] [0.1; 0.5; 0.2; 0.1] (Some 1215) in
  length (Sunburn.AirglowTemplate.velocity t) = 4%nat /\
  nth 1 (Sunburn.AirglowTemplate.velocity t) 0 = 0 /\
  strictly_ascending (Sunburn.AirglowTemplate.velocity t).
Proof.
  intros t.
  destruct (airglow_velocity_round_trip [1214; 1215; 1216; 1217]
              [1; 5; 2; 1] [0.1; 0.5; 0.2; 0.1] (Some 1215))
    as (Hlen & Hpix & Hasc).
  - cbn. lra.
  - split; [exact Hlen|]. split.
    + apply (Hpix 1%nat); [simpl; lia | reflexivity].
    + apply Hasc; [cbn; lra | simpl; repeat split; lra].
Defined.

(** X29. [adjust_spectrum] with a zero Doppler shift only scales the
    template: on a strictly ascending grid of two pixels or more it returns
    the flux and the uncertainties multiplied by [scale_flux], whatever the
    fill value; with [update_spectrum] these arrays replace those of the
    template, whose wavelengths and velocities are kept. *)
Theorem airglow_adjust_zero_shift (self : Sunburn.AirglowTemplate.t)
    (scale_flux : R) (fill_value : option R) :
  let w := Sunburn.AirglowTemplate.wavelength self in
  let f := Sunburn.AirglowTemplate.flux self in
  let u := Sunburn.AirglowTemplate.f_unc self in
  strictly_ascending w -> length w = length f -> length w = length u ->
  (2 <= length w)%nat ->
  Sunburn.AirglowTemplate.adjust_spectrum self 0 scale_flux fill_value false
  = Ok (self, Some (map (fun x => x * scale_flux) f,
                    map (fun x => x * scale_flux) u)) /\
  Sunburn.AirglowTemplate.adjust_spectrum self 0 scale_flux fill_value true
  = Ok ({| Sunburn.AirglowTemplate.wavelength := w;
           Sunburn.AirglowTemplate.flux := map (fun x => x * scale_flux) f;
           Sunburn.AirglowTemplate.f_unc := map (fun x => x * scale_flux) u;
           Sunburn.AirglowTemplate.ref_wl :=
             Sunburn.AirglowTemplate.ref_wl self;
           Sunburn.AirglowTemplate.velocity :=
             Sunburn.AirglowTemplate.velocity self |}, None).
Proof.
  intros w f u Hs Hf Hu H2. unfold Sunburn.AirglowTemplate.adjust_spectrum.
  fold w. fold f. fold u.
  rewrite (doppler_shift_zero _ w f u fill_value Hs Hf Hu H2).
  cbn [bind fst snd]. split; reflexivity.
Qed.

Lemma airglow_adjust_zero_shift_witness :
  let t := Sunburn.AirglowTemplate.init [1214; 1215; 1216; 1217]
             [1; 5; 2; 1] [0.1; 0.5; 0.2; 0.1] (Some 1215) in
  Sunburn.AirglowTemplate.adjust_spectrum t 0 2 (Some 0) false
  = Ok (t, Some (map (fun x => x * 2) [1; 5; 2; 1],
                 map (fun x => x * 2) [0.1; 0.5; 0.2; 0.1])).
Proof.
  intros t. apply (airglow_adjust_zero_shift t 2 (Some 0)).
  - simpl. repeat split; lra.
  - reflexivity.
  - reflexivity.
  - simpl. lia.
Defined.

Lemma linear_call_at_knot (x y : list R) (fill : R) (i : nat) :
  strictly_ascending x -> length x = length y -> (2 <= length x)%nat ->
  (i < length x)%nat ->
  Scipy.linear_call
    {| Scipy.interp_x := x; Scipy.interp_y := y; Scipy.interp_fill := fill |}
    (nth i x 0) = Ok (nth i y 0).
Proof.
  intros Hs Hlen H2 Hi.
  pose proof (ascending_monotone x (strictly_ascending_ascending x Hs)) as Hm.
  rewrite <- interp1d_call_inside.
  - now apply interp1d_call_at_knot.
  - destruct x; [simpl in H2; lia | discriminate].
  - apply Hm. lia.
  - apply Hm. lia.
Qed.

(** X30. [interpolate_to] evaluated on the wavelengths of the template
    itself (strictly ascending, two pixels or more) returns its flux and
    its uncertainties.  A template whose flux and uncertainties lie on
    straight lines is continued along these lines to any wavelengths asked
    for, inside or outside its range. *)
Theorem airglow_interpolate_to (self : Sunburn.AirglowTemplate.t) :
  let w := Sunburn.AirglowTemplate.wavelength self in
  let f := Sunburn.AirglowTemplate.flux self in
  let u := Sunburn.AirglowTemplate.f_unc self in
  strictly_ascending w -> length w = length f -> length w = length u ->
  (2 <= length w)%nat ->
  Sunburn.AirglowTemplate.interpolate_to self w = Ok (f, u) /\
  (forall m b m' b' targets,
     f = map (fun x => m * x + b) w ->
     u = map (fun x => m' * x + b') w ->
     Sunburn.AirglowTemplate.interpolate_to self targets
     = Ok (map (fun x => m * x + b) targets,
           map (fun x => m' * x + b') targets)).
Proof.
  intros w f u Hs Hf Hu H2. unfold Sunburn.AirglowTemplate.interpolate_to.
  fold w. fold f. fold u.
  assert (Hne : w <> []) by (destruct w; [simpl in H2; lia | discriminate]).
  pose proof (strictly_ascending_ascending w Hs) as Hasc.
  rewrite !interp1d_new_ascending by assumption. cbn [bind]. split.
  - rewrite (linear_eval_pointwise _ w f Hf)
      by (intros j Hj; now apply linear_call_at_knot).
    cbn [bind].
    rewrite (linear_eval_pointwise _ w u Hu)
      by (intros j Hj; now apply linear_call_at_knot).
    reflexivity.
  - intros m b m' b' targets Ef Eu.
    assert (Hline : forall (y : list R) (k c : R),
              y = map (fun x => k * x + c) w ->
              Scipy.linear_eval
                {| Scipy.interp_x := w; Scipy.interp_y := y;
                   Scipy.interp_fill := 0 |} targets
              = Ok (map (fun x => k * x + c) targets)).
    { intros y k c Ey. apply linear_eval_pointwise; [now rewrite length_map|].
      intros j Hj. rewrite nth_map_lt by exact Hj.
      apply linear_call_affine; try assumption.
      - rewrite Ey. now rewrite length_map.
      - intros i Hi. rewrite Ey. now rewrite nth_map_lt. }
    rewrite (Hline f m b Ef). cbn [bind]. rewrite (Hline u m' b' Eu).
    reflexivity.
Qed.

Lemma airglow_interpolate_to_witness :
  let t := Sunburn.AirglowTemplate.init [1214; 1215; 1216; 1217]
             [1; 5; 2; 1] [0.1; 0.5; 0.2; 0.1] None in
  Sunburn.AirglowTemplate.interpolate_to t [1214; 1215; 1216; 1217]
  = Ok ([1; 5; 2; 1], [0.1; 0.5; 0.2; 0.1]).
Proof.
  intros t. apply (airglow_interpolate_to t).
  - simpl. repeat split; lra.
  - reflexivity.
  - reflexivity.
  - simpl. lia.
Defined.
